(** * ccommon: non-blocking connection I/O, streams, the epoll event loop
      and the option parser

    A shallow embedding of
      - [src/cc_nio.c]        (conn_recv, conn_recvv, conn_send, conn_sendv),
      - [src/cc_stream.c]     (stream_read, stream_write),
      - [src/event/cc_epoll.c] (event_wait),
      - [src/cc_option.c]     (option_set, option_parse),
    followed by the properties proved about them.

    Conventions.  C integers are [Z]; a conversion that can change the value
    ([(ssize_t) nbyte], the wrap of a [size_t] counter) is written out.  The
    operating system is an explicit script: the list of the results that the
    successive system calls on the descriptor will give.  A [for (;;)] loop
    that retries on [EINTR] is a structural recursion on that script, and
    yields [None] when the script ends while the loop is still retrying. *)

From Stdlib Require Import String.
From Stdlib Require Import ZArith List Bool Lia Ascii.
Import ListNotations.
Local Open Scope Z_scope.

(** ** Machine integers *)

Module CInt.

Definition SIZE_MOD : Z := 2 ^ 64.
Definition SSIZE_MAX : Z := 2 ^ 63 - 1.
Definition UINTMAX_MAX : Z := 2 ^ 64 - 1.

(** Reduction of a mathematical value to a [size_t] (unsigned, 64 bits). *)
Definition size_wrap (z : Z) : Z := z mod SIZE_MOD.

(** [(ssize_t) nbyte] for a [size_t nbyte]: two's complement
    reinterpretation. *)
Definition ssize_of_size (nbyte : Z) : Z :=
  if size_wrap nbyte <=? SSIZE_MAX then size_wrap nbyte
  else size_wrap nbyte - SIZE_MOD.

End CInt.

(** ** Status codes and errno values *)

Module Status.

(** [src/cc_func.h] *)
Definition CC_OK : Z := 0.
Definition CC_ERROR : Z := -1.
Definition CC_EAGAIN : Z := -2.
Definition CC_ENOMEM : Z := -3.

(** Modelled from the spec: the three status codes that [cc_func.h] does not
    define ([cc_define.h] is not part of the sources); section 6 gives
    [EEMPTY=-4], [ERETRY=-5], [ERDHUP=-6]. *)
Definition CC_EEMPTY : Z := -4.
Definition CC_ERETRY : Z := -5.
Definition CC_ERDHUP : Z := -6.

(** [<errno.h>] on Linux, the platform of [cc_epoll.c]. *)
Definition EINTR : Z := 4.
Definition EAGAIN : Z := 11.
Definition EWOULDBLOCK : Z := 11.

End Status.

(** ** [cc_nio]: connections *)

Module Nio.
Import CInt Status.

(** [src/cc_nio.h] *)
Definition CONN_CONNECT : Z := 0.
Definition CONN_CONNECTED : Z := 1.
Definition CONN_EOF : Z := 2.
Definition CONN_CLOSE : Z := 3.

(** [struct conn]; the pool link and the address pointer play no part in
    I/O and are left out. *)
Record conn : Type := mk_conn {
  sd : Z;
  family : Z;
  recv_nbyte : Z;
  send_nbyte : Z;
  recv_active : bool;
  send_active : bool;
  recv_ready : bool;
  send_ready : bool;
  mode : Z;
  state : Z;
  flags : Z;
  err : Z
}.

Definition set_recv_ready (c : conn) (b : bool) : conn :=
  mk_conn (sd c) (family c) (recv_nbyte c) (send_nbyte c) (recv_active c)
          (send_active c) b (send_ready c) (mode c) (state c) (flags c)
          (err c).

Definition set_send_ready (c : conn) (b : bool) : conn :=
  mk_conn (sd c) (family c) (recv_nbyte c) (send_nbyte c) (recv_active c)
          (send_active c) (recv_ready c) b (mode c) (state c) (flags c)
          (err c).

Definition set_recv_nbyte (c : conn) (n : Z) : conn :=
  mk_conn (sd c) (family c) n (send_nbyte c) (recv_active c)
          (send_active c) (recv_ready c) (send_ready c) (mode c) (state c)
          (flags c) (err c).

Definition set_send_nbyte (c : conn) (n : Z) : conn :=
  mk_conn (sd c) (family c) (recv_nbyte c) n (recv_active c)
          (send_active c) (recv_ready c) (send_ready c) (mode c) (state c)
          (flags c) (err c).

Definition set_state (c : conn) (st : Z) : conn :=
  mk_conn (sd c) (family c) (recv_nbyte c) (send_nbyte c) (recv_active c)
          (send_active c) (recv_ready c) (send_ready c) (mode c) st
          (flags c) (err c).

Definition set_err (c : conn) (e : Z) : conn :=
  mk_conn (sd c) (family c) (recv_nbyte c) (send_nbyte c) (recv_active c)
          (send_active c) (recv_ready c) (send_ready c) (mode c) (state c)
          (flags c) e.

(** What one call of [cc_read], [cc_readv], [cc_write] or [cc_writev]
    gives: the value returned and the [errno] left behind (read only when
    the value is negative). *)
Record sysret : Type := mk_sysret { ret : Z; errno : Z }.

(** The socket as the code sees it: the results of the calls still to
    come.  A call consumes the head, so a function has touched the socket
    exactly when it hands back a shorter script. *)
Definition socket : Type := list sysret.

(** Result of an I/O function: the value returned, the connection as it was
    left, and the rest of the script. *)
Definition io_result : Type := option (Z * conn * socket).

(** The four functions below follow [src/cc_nio.c] statement by statement.
    Their [ASSERT]s ([nbyte > 0], and [recv_ready] or [send_ready] set) are
    no part of them: an assertion changes nothing when it holds, and the
    statements that depend on one carry it as a hypothesis.  The buffer is
    not modelled, only the number of bytes moved. *)

Fixpoint conn_recv (c : conn) (nbyte : Z) (sock : socket) : io_result :=
  match sock with
  | [] => None
  | r :: sock' =>
      let n := ret r in
      if 0 <? n then
        let c1 := if n <? ssize_of_size nbyte
                  then set_recv_ready c false else c in
        Some (n, set_recv_nbyte c1 (size_wrap (recv_nbyte c1 + n)), sock')
      else if n =? 0 then
        Some (n, set_state (set_recv_ready c false) CONN_EOF, sock')
      else if errno r =? EINTR then
        conn_recv c nbyte sock'
      else if (errno r =? EAGAIN) || (errno r =? EWOULDBLOCK) then
        Some (CC_EAGAIN, set_recv_ready c false, sock')
      else
        Some (CC_ERROR, set_err (set_recv_ready c false) (errno r), sock')
  end.

Fixpoint conn_recvv (c : conn) (nbyte : Z) (sock : socket) : io_result :=
  match sock with
  | [] => None
  | r :: sock' =>
      let n := ret r in
      if 0 <? n then
        let c1 := if n <? ssize_of_size nbyte
                  then set_recv_ready c false else c in
        Some (n, set_recv_nbyte c1 (size_wrap (recv_nbyte c1 + n)), sock')
      else if n =? 0 then
        Some (0, set_recv_ready c false, sock')
      else if errno r =? EINTR then
        conn_recvv c nbyte sock'
      else if (errno r =? EAGAIN) || (errno r =? EWOULDBLOCK) then
        Some (CC_EAGAIN, set_recv_ready c false, sock')
      else
        Some (CC_ERROR, set_err (set_recv_ready c false) (errno r), sock')
  end.

Fixpoint conn_send (c : conn) (nbyte : Z) (sock : socket) : io_result :=
  match sock with
  | [] => None
  | r :: sock' =>
      let n := ret r in
      if 0 <? n then
        let c1 := if n <? ssize_of_size nbyte
                  then set_send_ready c false else c in
        Some (n, set_send_nbyte c1 (size_wrap (send_nbyte c1 + n)), sock')
      else if n =? 0 then
        Some (0, set_send_ready c false, sock')
      else if errno r =? EINTR then
        conn_send c nbyte sock'
      else if (errno r =? EAGAIN) || (errno r =? EWOULDBLOCK) then
        Some (CC_EAGAIN, set_send_ready c false, sock')
      else
        Some (CC_ERROR, set_err (set_send_ready c false) (errno r), sock')
  end.

Fixpoint conn_sendv (c : conn) (nbyte : Z) (sock : socket) : io_result :=
  match sock with
  | [] => None
  | r :: sock' =>
      let n := ret r in
      if 0 <? n then
        let c1 := if n <? ssize_of_size nbyte
                  then set_send_ready c false else c in
        Some (n, set_send_nbyte c1 (size_wrap (send_nbyte c1 + n)), sock')
      else if n =? 0 then
        Some (0, set_send_ready c false, sock')
      else if errno r =? EINTR then
        conn_sendv c nbyte sock'
      else if (errno r =? EAGAIN) || (errno r =? EWOULDBLOCK) then
        Some (CC_EAGAIN, set_send_ready c false, sock')
      else
        Some (CC_ERROR, set_err (set_send_ready c false) (errno r), sock')
  end.

(** A call interrupted by a signal. *)
Definition interrupted (r : sysret) : Prop := ret r < 0 /\ errno r = EINTR.

(** Any other call: it transferred something, met the end of the data, or
    failed with another error. *)
Definition settled (r : sysret) : Prop := 0 <= ret r \/ errno r <> EINTR.

(** A call that failed because nothing could be transferred. *)
Definition would_block (r : sysret) : Prop :=
  ret r < 0 /\ errno r <> EINTR /\ (errno r = EAGAIN \/ errno r = EWOULDBLOCK).

(** A call that failed for any other reason. *)
Definition hard_error (r : sysret) : Prop :=
  ret r < 0 /\ errno r <> EINTR /\ errno r <> EAGAIN /\ errno r <> EWOULDBLOCK.

(** What [read] and [write] do when asked for more than [SSIZE_MAX] bytes:
    POSIX leaves the result to the implementation, and Linux, which tests
    the count as an [ssize_t], fails the call. *)
Definition refuses_oversized (nbyte : Z) (r : sysret) : Prop :=
  SSIZE_MAX < nbyte -> ret r < 0.

End Nio.

(** ** The memory buffer *)

Module Mbuf.

(** Modelled from the spec: [cc_mbuf.h] is not part of the sources.  The
    glossary describes an mbuf as a contiguous buffer with a read cursor
    [rpos] and a write cursor [wpos], with [readable_size = wpos - rpos] and
    [writable_size = capacity - wpos]; cursors and capacity are offsets
    from the start of the buffer. *)
Record mbuf : Type := mk_mbuf { rpos : Z; wpos : Z; capacity : Z }.

(** Both sizes are unsigned quantities ([size_t] in the callers). *)
Definition mbuf_rsize (b : mbuf) : Z := CInt.size_wrap (wpos b - rpos b).
Definition mbuf_wsize (b : mbuf) : Z := CInt.size_wrap (capacity b - wpos b).

Definition set_rpos (b : mbuf) (p : Z) : mbuf :=
  mk_mbuf p (wpos b) (capacity b).
Definition set_wpos (b : mbuf) (p : Z) : mbuf :=
  mk_mbuf (rpos b) p (capacity b).

End Mbuf.

(** ** [cc_stream]: streams *)

Module Stream.
Import CInt Status Nio Mbuf.

(** [src/cc_stream.h] *)
Inductive channel_type : Type :=
| CHANNEL_UNKNOWN
| CHANNEL_TCP
| CHANNEL_TCPLISTEN.

(** [struct stream] without its handler.  [channel] points to the
    connection; the connection is held in the record and written back after
    each call that changes it. *)
Record stream : Type := mk_stream {
  owner : Z;
  type : channel_type;
  channel : conn;
  rbuf : mbuf;
  wbuf : mbuf;
  data : Z;
  s_err : Z
}.

Definition set_channel (s : stream) (c : conn) : stream :=
  mk_stream (owner s) (type s) c (rbuf s) (wbuf s) (data s) (s_err s).
Definition set_rbuf (s : stream) (b : mbuf) : stream :=
  mk_stream (owner s) (type s) (channel s) b (wbuf s) (data s) (s_err s).
Definition set_wbuf (s : stream) (b : mbuf) : stream :=
  mk_stream (owner s) (type s) (channel s) (rbuf s) b (data s) (s_err s).

(** [data_handler_t]: a hook receives the stream and a byte count and may
    change the stream (its buffers, its connection). *)
Definition data_handler_t : Type := stream -> Z -> stream.

(** [stream_handler_t], the four data hooks; [None] is the [NULL] pointer.
    [stream_read] and [stream_write] load [stream->handler] once, before
    the first hook runs, so the handler is an argument of its own. *)
Record stream_handler_t : Type := mk_handler {
  pre_read : option data_handler_t;
  post_read : option data_handler_t;
  pre_write : option data_handler_t;
  post_write : option data_handler_t
}.

Definition stream_result : Type := option (Z * stream * socket).

(** [stream->rbuf->wpos += k;] and [stream->wbuf->rpos += k;] *)
Definition advance_wpos (s : stream) (k : Z) : stream :=
  set_rbuf s (set_wpos (rbuf s) (wpos (rbuf s) + k)).
Definition advance_rpos (s : stream) (k : Z) : stream :=
  set_wbuf s (set_rpos (wbuf s) (rpos (wbuf s) + k)).

(** [if (hook != NULL) hook(stream, nbyte);] *)
Definition call_hook (hook : option data_handler_t) (s : stream) (nbyte : Z)
  : stream :=
  match hook with
  | Some f => f s nbyte
  | None => s
  end.

(** [stream_read], [src/cc_stream.c].  In [n == nbyte] the count [n] is
    positive, so its conversion to [size_t] keeps its value.  The [default]
    case of the switch leaves [n] at 0 and the status at [CC_ERROR]. *)
Definition stream_read (handler : stream_handler_t) (s : stream) (nbyte : Z)
           (sock : socket) : stream_result :=
  let s := call_hook (pre_read handler) s nbyte in
  let capacity := mbuf_wsize (rbuf s) in
  if capacity <? nbyte then Some (CC_ENOMEM, s, sock)
  else
    let received :=
      match type s with
      | CHANNEL_TCP =>
          match conn_recv (channel s) nbyte sock with
          | None => None
          | Some (n, c, sock') =>
              let status :=
                if n <? 0 then
                  if n =? CC_EAGAIN then CC_OK else CC_ERROR
                else if n =? 0 then CC_ERDHUP
                else if n =? nbyte then CC_ERETRY
                else CC_OK in
              Some (status, n, set_channel s c, sock')
          end
      | _ => Some (CC_ERROR, 0, s, sock)
      end in
    match received with
    | None => None
    | Some (status, n, s, sock') =>
        let s := advance_wpos s (if 0 <? n then n else 0) in
        let s := if 0 <? n then call_hook (post_read handler) s n else s in
        Some (status, s, sock')
    end.

(** [stream_write], [src/cc_stream.c].  In [n < content] the count [n] is
    not negative, so its conversion to [size_t] keeps its value. *)
Definition stream_write (handler : stream_handler_t) (s : stream)
           (nbyte : Z) (sock : socket) : stream_result :=
  let s := call_hook (pre_write handler) s nbyte in
  let content := mbuf_rsize (wbuf s) in
  if content =? 0 then Some (CC_EEMPTY, s, sock)
  else
    (* [inl]: an early [return] out of the switch; [inr]: control reaches
       the code after the switch with [status] and [n]. *)
    let sent :=
      match type s with
      | CHANNEL_TCP =>
          match conn_send (channel s) content sock with
          | None => None
          | Some (n, c, sock') =>
              let s := set_channel s c in
              if n <? 0 then
                if n =? CC_EAGAIN then Some (inl CC_EAGAIN, s, sock')
                else Some (inl CC_ERROR, s, sock')
              else
                let status := if n <? content then CC_ERETRY else CC_OK in
                Some (inr (status, n), s, sock')
          end
      | _ => Some (inr (CC_ERROR, 0), s, sock)
      end in
    match sent with
    | None => None
    | Some (inl status, s, sock') => Some (status, s, sock')
    | Some (inr (status, n), s, sock') =>
        let s := advance_rpos s (if 0 <? n then n else 0) in
        let s := if 0 <? n then call_hook (post_write handler) s n else s in
        Some (status, s, sock')
    end.

End Stream.

(** ** [cc_epoll]: the event loop *)

Module Event.
Import Status.

(** [include/cc_event.h] *)
Definition EVENT_READ : Z := 0x0000ff.
Definition EVENT_WRITE : Z := 0x00ff00.
Definition EVENT_ERR : Z := 0xff0000.

(** [<sys/epoll.h>] on Linux. *)
Definition EPOLLIN : Z := 0x001.
Definition EPOLLOUT : Z := 0x004.
Definition EPOLLERR : Z := 0x008.
Definition EPOLLHUP : Z := 0x010.
Definition EPOLLRDHUP : Z := 0x2000.

(** [struct epoll_event]: the platform's bits and the user data. *)
Record epoll_event : Type := mk_epoll_event { events : Z; data_ptr : Z }.

(** What one call of [epoll_wait] gives: the value returned, the [errno]
    left behind, and the records it stored at the front of the array. *)
Record epoll_ret : Type := mk_epoll_ret {
  nreturned : Z;
  ep_errno : Z;
  stored : list epoll_event
}.

(** The kernel's readiness object: the results of the waits to come. *)
Definition kernel : Type := list epoll_ret.

Section WithUserState.

(** The state the dispatch callback works on. *)
Variable U : Type.

(** [event_cb_t]: called with the user data and the abstract mask. *)
Definition event_cb_t : Type := Z -> Z -> U -> U.

(** [struct event_base] *)
Record event_base : Type := mk_event_base {
  ep : Z;
  event : list epoll_event;
  nevent : Z;
  cb : option event_cb_t
}.

Definition set_event (evb : event_base) (arr : list epoll_event)
  : event_base :=
  mk_event_base (ep evb) arr (nevent evb) (cb evb).

(** The array after [epoll_wait] stored [new] at its front. *)
Definition store_front (new old : list epoll_event) : list epoll_event :=
  new ++ skipn (length new) old.

(** The body of the [for] loop up to the callback: the abstract mask of
    one readiness record. *)
Definition event_mask (ev : epoll_event) : Z :=
  let events0 := 0 in
  let events1 :=
    if negb (Z.land (events ev) (Z.lor EPOLLERR EPOLLHUP) =? 0)
    then Z.lor events0 EVENT_ERR else events0 in
  let events2 :=
    if negb (Z.land (events ev) (Z.lor EPOLLIN EPOLLRDHUP) =? 0)
    then Z.lor events1 EVENT_READ else events1 in
  let events3 :=
    if negb (Z.land (events ev) EPOLLOUT =? 0)
    then Z.lor events2 EVENT_WRITE else events2 in
  events3.

(** [for (i = ...; i < nreturned; i++)], with [todo] iterations left. *)
Fixpoint dispatch (callback : option event_cb_t)
         (ev_arr : list epoll_event) (i : nat) (todo : nat) (u : U) : U :=
  match todo with
  | O => u
  | S todo' =>
      let ev := nth i ev_arr (mk_epoll_event 0 0) in
      let mask := event_mask ev in
      let u' := match callback with
                | Some f => f (data_ptr ev) mask u
                | None => u
                end in
      dispatch callback ev_arr (S i) todo' u'
  end.

Definition wait_result : Type := option (Z * event_base * U * kernel).

Fixpoint event_wait (evb : event_base) (timeout : Z) (k : kernel) (u : U)
  : wait_result :=
  match k with
  | [] => None
  | r :: k' =>
      let n := nreturned r in
      if 0 <? n then
        let ev_arr := store_front (stored r) (event evb) in
        let u' := dispatch (cb evb) ev_arr 0 (Z.to_nat n) u in
        Some (n, set_event evb ev_arr, u', k')
      else if n =? 0 then
        if timeout =? -1 then Some (-1, evb, u, k')
        else Some (0, evb, u, k')
      else if ep_errno r =? EINTR then
        event_wait evb timeout k' u
      else
        Some (-1, evb, u, k')
  end.

(** The calls made by [dispatch], in order: user data and mask. *)
Fixpoint dispatched (ev_arr : list epoll_event) (i : nat) (todo : nat)
  : list (Z * Z) :=
  match todo with
  | O => []
  | S todo' =>
      let ev := nth i ev_arr (mk_epoll_event 0 0) in
      (data_ptr ev, event_mask ev) :: dispatched ev_arr (S i) todo'
  end.

(** Running a list of calls of the callback. *)
Definition run_calls (f : event_cb_t) (calls : list (Z * Z)) (u : U) : U :=
  fold_left (fun acc c => f (fst c) (snd c) acc) calls u.

End WithUserState.

Arguments mk_event_base {U}.
Arguments ep {U}.
Arguments event {U}.
Arguments nevent {U}.
Arguments cb {U}.
Arguments set_event {U}.
Arguments dispatch {U}.
Arguments event_wait {U}.
Arguments run_calls {U}.

(** An [epoll_wait] interrupted by a signal. *)
Definition interrupted (r : epoll_ret) : Prop :=
  nreturned r < 0 /\ ep_errno r = EINTR.

(** A word that carries every bit of a group ([EVENT_READ] is eight bits,
    a platform flag is one), and a word that carries none of them. *)
Definition has (mask group : Z) : Prop := Z.land mask group = group.
Definition lacks (mask group : Z) : Prop := Z.land mask group = 0.

End Event.

(** ** C strings and the library functions the option module calls *)

Module Libc.
Import CInt.
Local Open Scope nat_scope.

(** A [char *]: the bytes it points to.  The string ends at the first NUL
    or, when there is none, where the list ends (the terminator is then
    implicit). *)
Definition NUL : ascii := Ascii.zero.

Definition is_nul (c : ascii) : bool := (nat_of_ascii c =? 0).

Fixpoint strlen (s : list ascii) : nat :=
  match s with
  | [] => 0
  | c :: s' => if is_nul c then 0 else S (strlen s')
  end.

(** [s[i]]; only read for [i <= strlen s], where it is the character of
    the string or its terminator. *)
Definition char_at (s : list ascii) (i : nat) : ascii := nth i s NUL.

(** The characters of the string, without the terminator. *)
Definition chars (s : list ascii) : list ascii := firstn (strlen s) s.

(** [isspace] in the C locale: space, and [\t \n \v \f \r]. *)
Definition isspace (c : ascii) : bool :=
  let n := nat_of_ascii c in
  (n =? 32) || ((9 <=? n) && (n <=? 13)).

(** [cc_strcmp(a, b) == 0] *)
Definition str_eqb (a b : list ascii) : bool :=
  if list_eq_dec ascii_dec (chars a) (chars b) then true else false.

(** The value of a character as a digit, in any base up to 36. *)
Definition digit_val (c : ascii) : option Z :=
  let n := nat_of_ascii c in
  if (48 <=? n) && (n <=? 57) then Some (Z.of_nat (n - 48))
  else if (97 <=? n) && (n <=? 122) then Some (Z.of_nat (n - 97 + 10))
  else if (65 <=? n) && (n <=? 90) then Some (Z.of_nat (n - 65 + 10))
  else None.

Definition is_digit_in (base : Z) (c : ascii) : bool :=
  match digit_val c with
  | Some d => (d <? base)%Z
  | None => false
  end.

(** Leading white space: how many characters to skip. *)
Fixpoint span_space (s : list ascii) : nat :=
  match s with
  | [] => 0
  | c :: s' => if isspace c then S (span_space s') else 0
  end.

(** The longest run of digits of [base] at the front of [s]: its exact
    value, continuing from [acc], and its length. *)
Fixpoint span_digits (base : Z) (s : list ascii) (acc : Z) : Z * nat :=
  match s with
  | [] => (acc, 0)
  | c :: s' =>
      match digit_val c with
      | Some d =>
          if (d <? base)%Z then
            let '(v, n) := span_digits base s' (acc * base + d)%Z in
            (v, S n)
          else (acc, 0)
      | None => (acc, 0)
      end
  end.

(** [strtoumax(nptr, &endptr, 0)] of ISO C: the value returned and
    [endptr - nptr].  White space, an optional sign, then a number whose
    base follows its prefix ([0x] or [0X] before a hexadecimal digit: 16; a
    leading [0]: 8; otherwise 10).  Without any digit the value is 0 and
    [endptr] is [nptr]; a number above [UINTMAX_MAX] gives [UINTMAX_MAX];
    a minus sign negates the value in the unsigned type. *)
Definition strtoumax (nptr : list ascii) : Z * nat :=
  let ws := span_space nptr in
  let s1 := skipn ws nptr in
  let '(neg, sg) :=
    match s1 with
    | c :: _ => if (nat_of_ascii c =? 45) then (true, 1)
                else if (nat_of_ascii c =? 43) then (false, 1)
                else (false, 0)
    | [] => (false, 0)
    end in
  let s2 := skipn sg s1 in
  let '(base, px) :=
    match s2 with
    | z :: x :: h :: _ =>
        if (nat_of_ascii z =? 48)
           && ((nat_of_ascii x =? 120) || (nat_of_ascii x =? 88))
           && is_digit_in 16 h
        then (16%Z, 2)
        else if (nat_of_ascii z =? 48) then (8%Z, 0) else (10%Z, 0)
    | z :: _ => if (nat_of_ascii z =? 48) then (8%Z, 0) else (10%Z, 0)
    | [] => (10%Z, 0)
    end in
  let s3 := skipn px s2 in
  let '(v, nd) := span_digits base s3 0%Z in
  if nd =? 0 then (0%Z, 0)
  else
    let consumed := ws + sg + px + nd in
    if (UINTMAX_MAX <? v)%Z then (UINTMAX_MAX, consumed)
    else if neg then (((SIZE_MOD - v) mod SIZE_MOD)%Z, consumed)
    else (v, consumed).

(** Decimal numerals: a digit [1 .. 9] followed by digits, and the number
    such a string of digits denotes, read from the left with [acc] the
    number denoted so far. *)
Definition is_decimal (c : ascii) : bool :=
  (48 <=? nat_of_ascii c) && (nat_of_ascii c <=? 57).

Fixpoint decimal_value (ds : list ascii) (acc : Z) : Z :=
  match ds with
  | [] => acc
  | c :: ds' => decimal_value ds' (acc * 10 + Z.of_nat (nat_of_ascii c - 48))%Z
  end.

Definition decimal_numeral (s : list ascii) : Prop :=
  Forall (fun c => is_decimal c = true) s
  /\ exists c s', s = c :: s' /\ nat_of_ascii c <> 48.

(** Characters [a .. b-1] of a line. *)
Definition seg (l : list ascii) (a b : nat) : list ascii :=
  firstn (b - a) (skipn a l).

(** A Rocq string literal as a C string. *)
Definition cstr (s : string) : list ascii := list_ascii_of_string s.

End Libc.

(** ** [cc_option]: options *)

Module Opt.
Import CInt Status Libc.
Local Open Scope nat_scope.

(** Modelled from the spec: the three limits of [cc_option.h], which is
    not part of the sources; section 6 gives names of up to 31 characters,
    lines of at most 1023 and values of at most 255 after trimming. *)
Definition OPTNAME_MAXLEN : nat := 31.
Definition OPTLINE_MAXLEN : nat := 1023.
Definition OPTVAL_MAXLEN : nat := 255.

(** [option_type_str] lists the types in this order. *)
Inductive option_type : Type :=
| OPTION_TYPE_BOOL
| OPTION_TYPE_UINT
| OPTION_TYPE_STR.

(** A [char *] as a function is given it: [NULL], or an address together
    with the string found there when the call is made. *)
Inductive char_ptr : Type :=
| NULL_ptr
| ptr (a : Z) (s : list ascii).

(** The pointer itself, which is what an assignment keeps: [None] is
    [NULL].  What is found at the address later is for whoever owns the
    storage to say. *)
Definition address (p : char_ptr) : option Z :=
  match p with
  | NULL_ptr => None
  | ptr a _ => Some a
  end.

(** The union [val], tagged by the member last written; [vstr] is a
    pointer. *)
Inductive option_val : Type :=
| vbool (b : bool)
| vuint (u : Z)
| vstr (p : option Z).

(** [struct option].  [name] and [description] are only read, as strings;
    [default_val_str] is handed to [option_set] as it is, and may be
    [NULL]. *)
Record cc_option : Type := mk_option {
  name : list ascii;
  set : bool;
  type : option_type;
  default_val_str : char_ptr;
  description : list ascii;
  val : option_val
}.

(** [opt->set = true; opt->val.<member> = v;] *)
Definition store (opt : cc_option) (v : option_val) : cc_option :=
  mk_option (name opt) true (type opt) (default_val_str opt)
            (description opt) v.

(** [_option_parse_bool] and [_option_parse_uint] read the string that
    [val_str] designates. *)
Definition _option_parse_bool (opt : cc_option) (val_str : list ascii)
  : Z * cc_option :=
  if (strlen val_str =? 3)
     && (if list_eq_dec ascii_dec (firstn 3 val_str) (cstr "yes"%string)
         then true else false)
  then (CC_OK, store opt (vbool true))
  else if (strlen val_str =? 2)
          && (if list_eq_dec ascii_dec (firstn 2 val_str) (cstr "no"%string)
              then true else false)
  then (CC_OK, store opt (vbool false))
  else (CC_ERROR, opt).

Definition _option_parse_uint (opt : cc_option) (val_str : list ascii)
  : Z * cc_option :=
  let '(v, endptr) := strtoumax val_str in
  if (v =? UINTMAX_MAX)%Z then (CC_ERROR, opt)
  else if endptr <? strlen val_str then (CC_ERROR, opt)
  else (CC_OK, store opt (vuint v)).

(** [if (val_str != NULL) opt->set = true; opt->val.vstr = val_str;]: the
    pointer is kept, the string is not copied. *)
Definition _option_parse_str (opt : cc_option) (val_str : char_ptr)
  : cc_option :=
  mk_option (name opt)
            (match val_str with
             | NULL_ptr => set opt
             | ptr _ _ => true
             end)
            (type opt) (default_val_str opt) (description opt)
            (vstr (address val_str)).

(** [option_set].  For the two types whose parser reads the string,
    [strlen (NULL)] and [strtoumax (NULL, ...)] have no defined result:
    [None]. *)
Definition option_set (opt : cc_option) (val_str : char_ptr)
  : option (Z * cc_option) :=
  match type opt with
  | OPTION_TYPE_BOOL =>
      match val_str with
      | ptr _ s => Some (_option_parse_bool opt s)
      | NULL_ptr => None
      end
  | OPTION_TYPE_UINT =>
      match val_str with
      | ptr _ s => Some (_option_parse_uint opt s)
      | NULL_ptr => None
      end
  | OPTION_TYPE_STR => Some (CC_OK, _option_parse_str opt val_str)
  end.

Definition _allowed_in_name (c : ascii) : bool :=
  let n := nat_of_ascii c in
  ((97 <=? n) && (n <=? 122)) || (n =? 95) || ((65 <=? n) && (n <=? 90))
  || ((48 <=? n) && (n <=? 57)).

Definition is_colon (c : ascii) : bool := (nat_of_ascii c =? 58).
Definition is_hash (c : ascii) : bool := (nat_of_ascii c =? 35).

(** The loop that copies the name,
    [while ( *p != COLON && (p - line) < llen && (p - line) <= OPTNAME_MAXLEN)],
    with [p] the offset [p - line] and [budget] the number of offsets from
    [p] up to [OPTNAME_MAXLEN], so that the third test fails exactly when
    the budget is used up.  [None]: a character not allowed in a name;
    otherwise the offset at which the loop stopped and the name copied. *)
Fixpoint name_loop (budget : nat) (line : list ascii) (llen : nat)
         (p : nat) (name : list ascii) : option (nat * list ascii) :=
  match budget with
  | O => Some (p, name)
  | S budget' =>
      if negb (is_colon (char_at line p)) && (p <? llen) then
        if _allowed_in_name (char_at line p)
        then name_loop budget' line llen (S p) (name ++ [char_at line p])
        else None
      else Some (p, name)
  end.

(** [while (isspace( *p ) && p < q) p++;] with [gap = q - p]. *)
Fixpoint ltrim (gap : nat) (line : list ascii) (p : nat) : nat :=
  match gap with
  | O => p
  | S gap' => if isspace (char_at line p) then ltrim gap' line (S p) else p
  end.

(** [while (isspace( *q ) && q >= p) q--;] with [room = q + 1 - p]; the
    result is [q + 1], which is never below [p]. *)
Fixpoint rtrim (room : nat) (line : list ascii) (q1 : nat) : nat :=
  match room with
  | O => q1
  | S room' =>
      if isspace (char_at line (q1 - 1)) then rtrim room' line (q1 - 1)
      else q1
  end.

(** [option_parse]: the status returned and the strings left in [name] and
    [val], which hold a result only when the status is [CC_OK]. *)
Definition option_parse (line : list ascii)
  : Z * list ascii * list ascii :=
  let llen := strlen line in
  if (strlen line =? 0) || isspace (char_at line 0)
     || is_hash (char_at line 0)
  then (CC_EEMPTY, [], [])
  else if OPTLINE_MAXLEN <? llen then (CC_ERROR, [], [])
  else
    match name_loop (S OPTNAME_MAXLEN) line llen 0 [] with
    | None => (CC_ERROR, [], [])
    | Some (p, name) =>
        if p =? llen then (CC_ERROR, name, [])
        else if OPTNAME_MAXLEN <? p then (CC_ERROR, name, [])
        else
          let p := S p in
          let q := llen - 1 in
          let p := ltrim (q - p) line p in
          let q1 := rtrim (q + 1 - p) line (q + 1) in
          if q1 <=? p then (CC_ERROR, name, [])
          else
            let vlen := q1 - p in
            if OPTVAL_MAXLEN <? vlen then (CC_ERROR, name, [])
            else (CC_OK, name, firstn vlen (skipn p line))
    end.

Definition space (c : ascii) : Prop := isspace c = true.
Definition name_char (c : ascii) : Prop := _allowed_in_name c = true.

(** The lines that the first test of [option_parse] takes for empty or
    comment lines. *)
Definition skipped_line (line : list ascii) : Prop :=
  strlen line = 0 \/ isspace (char_at line 0) = true
  \/ is_hash (char_at line 0) = true.

(** A line that is empty, consists of white space only, or starts with
    the comment character. *)
Definition comment_line (line : list ascii) : Prop :=
  chars line = [] \/ Forall space (chars line)
  \/ is_hash (hd NUL (chars line)) = true.

(** The grammar of an option line, [name ':' WS* value WS*], with the
    limits on the three lengths: [name] is made of name characters, the
    value is not empty and neither starts nor ends with white space. *)
Definition option_line (line name val : list ascii) : Prop :=
  exists ws1 ws2 : list ascii,
    chars line = name ++ ":"%char :: ws1 ++ val ++ ws2
    /\ Forall name_char name
    /\ length name <= OPTNAME_MAXLEN
    /\ Forall space ws1
    /\ Forall space ws2
    /\ val <> []
    /\ isspace (hd NUL val) = false
    /\ isspace (last val NUL) = false
    /\ length val <= OPTVAL_MAXLEN
    /\ strlen line <= OPTLINE_MAXLEN.

(** The same by offsets: the colon at [n], the value from [p1] up to
    [q1]. *)
Definition option_line_at (line : list ascii) (n p1 q1 : nat) : Prop :=
  n <= OPTNAME_MAXLEN
  /\ n < strlen line
  /\ (forall i, i < n -> name_char (char_at line i))
  /\ is_colon (char_at line n) = true
  /\ S n <= p1
  /\ (forall i, S n <= i < p1 -> space (char_at line i))
  /\ p1 < q1 <= strlen line
  /\ (forall i, q1 <= i < strlen line -> space (char_at line i))
  /\ isspace (char_at line p1) = false
  /\ isspace (char_at line (q1 - 1)) = false
  /\ q1 - p1 <= OPTVAL_MAXLEN
  /\ strlen line <= OPTLINE_MAXLEN.

(** The [for] loop of [option_load_file] that looks the name up: the first
    option of that name is set, with [option_set (opt, valbuf)]; [valbuf]
    is the address of the array and [val] the string it holds.  [None]: no
    option has the name. *)
Fixpoint set_matching (namebuf : list ascii) (valbuf : Z) (val : list ascii)
         (options : list cc_option) : option (Z * list cc_option) :=
  match options with
  | [] => None
  | opt :: rest =>
      if str_eqb namebuf (name opt) then
        match option_set opt (ptr valbuf val) with
        | Some (status, opt') => Some (status, opt' :: rest)
        | None => None (* not reached: [valbuf] is an array, not [NULL] *)
        end
      else
        match set_matching namebuf valbuf val rest with
        | Some (status, rest') => Some (status, opt :: rest')
        | None => None
        end
  end.

(** [option_load_default].  [None]: [option_set] was given a [NULL]
    default for an option whose parser reads the string. *)
Fixpoint option_load_default (options : list cc_option)
  : option (Z * list cc_option) :=
  match options with
  | [] => Some (CC_OK, [])
  | opt :: rest =>
      match option_set opt (default_val_str opt) with
      | None => None
      | Some (status, opt') =>
          if negb (status =? CC_OK)%Z then Some (CC_ERROR, opt' :: rest)
          else
            match option_load_default rest with
            | None => None
            | Some (status', rest') => Some (status', opt' :: rest')
            end
      end
  end.

(** [option_load_file] over the lines that [fgets] returns one after the
    other, and the value [fe] of [ferror] once they are exhausted.
    [valbuf] is the address of the local array of that name, into which
    [option_parse] writes the value of each line. *)
Fixpoint option_load_file (valbuf : Z) (lines : list (list ascii)) (fe : Z)
         (options : list cc_option) : Z * list cc_option :=
  match lines with
  | [] => if (fe =? 0)%Z then (CC_OK, options) else (CC_ERROR, options)
  | linebuf :: lines' =>
      let '(status, namebuf, val) := option_parse linebuf in
      if (status =? CC_EEMPTY)%Z then option_load_file valbuf lines' fe options
      else if negb (status =? CC_OK)%Z then (CC_ERROR, options)
      else
        match set_matching namebuf valbuf val options with
        | None => (CC_ERROR, options)
        | Some (status, options') =>
            if negb (status =? CC_OK)%Z then (CC_ERROR, options')
            else option_load_file valbuf lines' fe options'
        end
  end.

End Opt.

(** ** Concrete values used to exercise the statements *)

Module Samples.
Import CInt Status Nio Mbuf Stream.

(** An established connection on descriptor 7, ready in both directions. *)
Definition live_conn : conn :=
  mk_conn 7 2 0 0 true true true true 0 CONN_CONNECTED 0 0.

(** The same connection after its peer closed, with read readiness
    reported once more by the event loop. *)
Definition eof_conn : conn :=
  mk_conn 7 2 0 0 true true true true 0 CONN_EOF 0 0.

Definition eintr : sysret := mk_sysret (-1) EINTR.
Definition eagain : sysret := mk_sysret (-1) EAGAIN.
Definition econnreset : sysret := mk_sysret (-1) 104.
Definition moved (k : Z) : sysret := mk_sysret k 0.

(** A stream over [live_conn]: an empty read buffer of 64 bytes and a
    write buffer holding 10 bytes. *)
Definition tcp_stream : stream :=
  mk_stream 0 CHANNEL_TCP live_conn (mk_mbuf 0 0 64) (mk_mbuf 0 10 64) 0 0.

Definition eof_stream : stream :=
  mk_stream 0 CHANNEL_TCP eof_conn (mk_mbuf 0 0 64) (mk_mbuf 0 10 64) 0 0.

(** A stream with nothing to send. *)
Definition idle_stream : stream :=
  mk_stream 0 CHANNEL_TCP live_conn (mk_mbuf 0 0 64) (mk_mbuf 0 0 64) 0 0.

Definition no_hooks : stream_handler_t := mk_handler None None None None.

(** Hooks that leave a mark in [data], to tell when they ran. *)
Definition mark (s : stream) (k : Z) : stream :=
  mk_stream (owner s) (Stream.type s) (channel s) (rbuf s) (wbuf s)
            (data s + k) (s_err s).
Definition marking_hooks : stream_handler_t :=
  mk_handler None (Some mark) None (Some mark).

(** A callback that appends what it is given to a log. *)
Definition log_cb : Event.event_cb_t (list (Z * Z)) :=
  fun d m log => log ++ [(d, m)].

(** An event base with four slots and the logging callback. *)
Definition log_evb : Event.event_base (list (Z * Z)) :=
  Event.mk_event_base 3 (repeat (Event.mk_epoll_event 0 0) 4) 4
                      (Some log_cb).

(** The option [tcp_backlog] before any value is loaded. *)
Definition backlog_opt : Opt.cc_option :=
  Opt.mk_option (Libc.cstr "tcp_backlog") false Opt.OPTION_TYPE_UINT
                (Opt.ptr 0x4a10 (Libc.cstr "128"))
                (Libc.cstr "tcp conn backlog limit")
                (Opt.vuint 0).

(** The three options of [test/option/check_option.c], not yet loaded, and
    the lines of its configuration file.  The defaults are string literals,
    each at an address of its own. *)
Definition test_setting : list Opt.cc_option :=
  [Opt.mk_option (Libc.cstr "boolean") false Opt.OPTION_TYPE_BOOL
     (Opt.ptr 0x4a20 (Libc.cstr "yes"))
     (Libc.cstr "it may be true of false") (Opt.vbool false);
   Opt.mk_option (Libc.cstr "string") false Opt.OPTION_TYPE_STR
     (Opt.ptr 0x4a24 (Libc.cstr "foo"))
     (Libc.cstr "it is a sequence of bytes") (Opt.vstr None);
   Opt.mk_option (Libc.cstr "uinteger") false Opt.OPTION_TYPE_UINT
     (Opt.ptr 0x4a28 (Libc.cstr "1"))
     (Libc.cstr "it is a non-negative integer number")
     (Opt.vuint 0)].

(** Where the array [valbuf] of a call of [option_load_file] is. *)
Definition a_valbuf : Z := 0x7ffc1000.

Definition newline : ascii := ascii_of_nat 10.

Definition test_file : list (list ascii) :=
  [Libc.cstr "boolean: no" ++ [newline];
   Libc.cstr "string: bar" ++ [newline];
   Libc.cstr "uinteger: 3" ++ [newline]].

(** A stream with 1000 bytes to send. *)
Definition busy_stream : stream :=
  mk_stream 0 CHANNEL_TCP live_conn (mk_mbuf 0 0 64) (mk_mbuf 0 1000 4096) 0 0.

Definition ep_eintr : Event.epoll_ret := Event.mk_epoll_ret (-1) EINTR [].

(** Two ready descriptors: 11 readable, 12 writable. *)
Definition ep_two : Event.epoll_ret :=
  Event.mk_epoll_ret 2 0 [Event.mk_epoll_event Event.EPOLLIN 11;
                          Event.mk_epoll_event Event.EPOLLOUT 12].

End Samples.

(** ** Resources: descriptors, memory blocks and borrowed buffers *)

Module Resources.

(** What the process holds: the descriptors it has open, the number of
    blocks it has from [cc_alloc] and [cc_calloc], and the number of mbufs
    it has borrowed. *)
Record os : Type := mk_os {
  open_fds : list Z;
  heap_blocks : nat;
  mbufs_out : nat
}.

Fixpoint remove_one (fd : Z) (l : list Z) : list Z :=
  match l with
  | [] => []
  | x :: l' => if x =? fd then l' else x :: remove_one fd l'
  end.

(** A call that returned the descriptor [fd]; [close(fd)]. *)
Definition open_fd (fd : Z) (o : os) : os :=
  mk_os (fd :: open_fds o) (heap_blocks o) (mbufs_out o).
Definition close_fd (fd : Z) (o : os) : os :=
  mk_os (remove_one fd (open_fds o)) (heap_blocks o) (mbufs_out o).

(** A successful [cc_alloc] or [cc_calloc]; [cc_free]. *)
Definition alloc_block (o : os) : os :=
  mk_os (open_fds o) (S (heap_blocks o)) (mbufs_out o).
Definition free_block (o : os) : os :=
  mk_os (open_fds o) (pred (heap_blocks o)) (mbufs_out o).

(** A successful [mbuf_borrow]; [mbuf_return]. *)
Definition borrow_mbuf (o : os) : os :=
  mk_os (open_fds o) (heap_blocks o) (S (mbufs_out o)).
Definition return_mbuf (o : os) : os :=
  mk_os (open_fds o) (heap_blocks o) (pred (mbufs_out o)).

End Resources.

(** ** [cc_epoll]: creating and destroying an event base *)

Module EventBase.
Import Event Resources.

Section WithUserState.

Variable U : Type.

(** [event_base_create], given what [epoll_create] returns ([ep]) and
    whether [cc_calloc] and [cc_alloc] succeed.  [NULL] is [None]. *)
Definition event_base_create (nevent : Z) (cb : option (event_cb_t U))
           (ep : Z) (calloc_ok alloc_ok : bool) (o : os)
  : option (event_base U) * os :=
  if ep <? 0 then (None, o)
  else
    let o := open_fd ep o in
    if negb calloc_ok then (None, close_fd ep o)
    else
      let o := alloc_block o in
      if negb alloc_ok then (None, close_fd ep (free_block o))
      else
        (Some (mk_event_base ep
                 (repeat (mk_epoll_event 0 0) (Z.to_nat nevent)) nevent cb),
         alloc_block o).

(** [event_base_destroy] *)
Definition event_base_destroy (evb : option (event_base U)) (o : os) : os :=
  match evb with
  | None => o
  | Some e => free_block (close_fd (ep e) (free_block o))
  end.

End WithUserState.

Arguments event_base_create {U}.
Arguments event_base_destroy {U}.

End EventBase.

(** ** [cc_stream]: creating and destroying a stream *)

Module StreamLife.
Import Nio Mbuf Stream Resources.

(** [stream_create], given whether [cc_alloc] succeeds and what the two
    calls of [mbuf_borrow] return.  [cc_alloc] does not clear the block:
    [junk] is what it holds, and only [rbuf] and [wbuf] are assigned. *)
Definition stream_create (junk : stream) (alloc_ok : bool)
           (rb wb : option mbuf) (o : os) : option stream * os :=
  if negb alloc_ok then (None, o)
  else
    let o := alloc_block o in
    match rb with
    | None => (None, free_block o)
    | Some r =>
        let o := borrow_mbuf o in
        match wb with
        | None => (None, free_block (return_mbuf o))
        | Some w => (Some (set_wbuf (set_rbuf junk r) w), borrow_mbuf o)
        end
    end.

(** [stream_destroy]; [close] is [stream->handler->close], which works on
    the channel and on a state [U] of its own. *)
Definition stream_destroy {U : Type} (close : conn -> U -> U) (s : stream)
           (u : U) (o : os) : U * os :=
  (close (channel s) u, free_block (return_mbuf (return_mbuf o))).

End StreamLife.

(** ** Predicates used in the further statements *)

Module Wf.
Import CInt Nio Mbuf Libc Opt.

(** A buffer whose cursors are in order and within its capacity. *)
Definition mbuf_ok (b : mbuf) : Prop :=
  0 <= rpos b /\ rpos b <= wpos b /\ wpos b <= capacity b
  /\ capacity b < SIZE_MOD.

(** A call that transfers no more than [nbyte] bytes, as [read] and
    [write] do. *)
Definition within (nbyte : Z) (r : sysret) : Prop := ret r <= nbyte.

(** The platform bits that [event_wait] looks at. *)
Definition watched_bits : Z :=
  Z.lor Event.EPOLLERR
    (Z.lor Event.EPOLLHUP
       (Z.lor Event.EPOLLIN (Z.lor Event.EPOLLRDHUP Event.EPOLLOUT))).

(** Two options that differ at most in [set] and [val]. *)
Definition same_decl (a b : cc_option) : Prop :=
  name a = name b /\ Opt.type a = Opt.type b
  /\ default_val_str a = default_val_str b
  /\ description a = description b.

(** An option once set stays set. *)
Definition keeps_set (a b : cc_option) : Prop :=
  set a = true -> set b = true.

(** The lines that [option_parse] does not skip. *)
Definition kept (line : list ascii) : bool :=
  negb ((strlen line =? 0)%nat || isspace (char_at line 0)
        || is_hash (char_at line 0)).

(** What an option holds apart from a string pointer.  [val.vstr] is the
    pointer that [option_set] was given; for a value read from a file that
    is the line buffer of [option_load_file], so what it designates later
    is not a property of the option. *)
Definition scalars (o : cc_option)
  : list ascii * bool * option_type * option option_val :=
  (name o, set o, Opt.type o,
   match val o with
   | vstr _ => None
   | v => Some v
   end).

(** An option that the lookup of [option_load_file] passes over. *)
Definition no_match (namebuf : list ascii) (o : cc_option) : Prop :=
  str_eqb namebuf (name o) = false.

(** [option_set] on a pointer that is not [NULL], where it always
    returns. *)
Definition set_to (o : cc_option) (a : Z) (s : list ascii)
  : Z * cc_option :=
  match Opt.type o with
  | OPTION_TYPE_BOOL => _option_parse_bool o s
  | OPTION_TYPE_UINT => _option_parse_uint o s
  | OPTION_TYPE_STR => (Status.CC_OK, _option_parse_str o (ptr a s))
  end.

(** An option whose default is a string, and one whose default
    [option_set] accepts. *)
Definition has_default (o : cc_option) : Prop :=
  default_val_str o <> NULL_ptr.

Definition default_ok (o : cc_option) : Prop :=
  exists o', option_set o (default_val_str o) = Some (Status.CC_OK, o').

(** The option after [option_set] was given its default. *)
Definition with_default (o : cc_option) : cc_option :=
  match option_set o (default_val_str o) with
  | Some (_, o') => o'
  | None => o
  end.

(** What [option_load_file] may have done to the value of a string
    option: nothing, or stored the address of its [valbuf]. *)
Definition str_untouched_or_valbuf (valbuf : Z) (o o' : cc_option) : Prop :=
  Opt.type o = OPTION_TYPE_STR ->
  val o' = val o \/ val o' = vstr (Some valbuf).

End Wf.

(** * Properties *)

(** ** The model on the scenarios of the repository and of its description *)

(** [test_load_file] of [test/option/check_option.c]: the defaults, then the
    values of the file.  The string option first holds the address of its
    default, [foo], and then that of [valbuf], where [bar] was when the
    pointer was stored and where the value of the last line, [3], is when
    [option_load_file] returns. *)
Example test_load_file :
  match Opt.option_load_default Samples.test_setting with
  | Some (status, loaded) =>
      status = Status.CC_OK
      /\ map Opt.val loaded
         = [Opt.vbool true; Opt.vstr (Some 0x4a24); Opt.vuint 1]
      /\ fst (Opt.option_load_file Samples.a_valbuf Samples.test_file 0
                                   loaded)
         = Status.CC_OK
      /\ map Opt.val
             (snd (Opt.option_load_file Samples.a_valbuf Samples.test_file 0
                                        loaded))
         = [Opt.vbool false; Opt.vstr (Some Samples.a_valbuf); Opt.vuint 3]
  | None => False
  end.
Proof. vm_compute. repeat split. Qed.

(** A partial send: of the 1000 bytes pending the socket takes 400;
    [stream_write] returns [CC_ERETRY], [wbuf->rpos] is at 400 and
    [send_ready] is cleared. *)
Example partial_send :
  exists s',
    Stream.stream_write Samples.no_hooks Samples.busy_stream 1000
                        [Samples.moved 400]
    = Some (Status.CC_ERETRY, s', [])
    /\ Mbuf.rpos (Stream.wbuf s') = 400
    /\ Nio.send_ready (Stream.channel s') = false
    /\ Nio.send_nbyte (Stream.channel s') = 400.
Proof. eexists. repeat split. Qed.

(** A peer that sends 3 bytes and closes: the first [stream_read] returns
    [CC_OK] with 3 bytes in [rbuf], the next one [CC_ERDHUP]. *)
Example peer_hang_up :
  exists s1 s2,
    Stream.stream_read Samples.no_hooks Samples.tcp_stream 64
                       [Samples.moved 3; Samples.moved 0]
    = Some (Status.CC_OK, s1, [Samples.moved 0])
    /\ Mbuf.mbuf_rsize (Stream.rbuf s1) = 3
    /\ Stream.stream_read Samples.no_hooks
         (Stream.set_channel s1 (Nio.set_recv_ready (Stream.channel s1) true))
         61 [Samples.moved 0]
       = Some (Status.CC_ERDHUP, s2, [])
    /\ Nio.state (Stream.channel s2) = Nio.CONN_EOF.
Proof. eexists _, _. repeat split. Qed.

(** Nothing to send: [CC_EEMPTY], and the script of the socket is whole. *)
Example empty_write :
  Stream.stream_write Samples.no_hooks Samples.idle_stream 10
                      [Samples.moved 10]
  = Some (Status.CC_EEMPTY, Samples.idle_stream, [Samples.moved 10]).
Proof. reflexivity. Qed.

(** ** Connections: retries and single outcomes *)

Section NioFacts.
Import CInt Status Nio.

Lemma interrupted_tests (r : sysret) :
  interrupted r ->
  (0 <? ret r) = false /\ (ret r =? 0) = false /\ (errno r =? EINTR) = true.
Proof.
  intros [Hneg Herr]. repeat split.
  - apply Z.ltb_ge. lia.
  - apply Z.eqb_neq. lia.
  - apply Z.eqb_eq. exact Herr.
Qed.

Ltac retry_step H :=
  destruct (interrupted_tests _ H) as (E1 & E2 & E3);
  cbn [conn_recv conn_recvv conn_send conn_sendv];
  rewrite E1, E2, E3; reflexivity.

Lemma conn_recv_retry c nbyte r sock :
  interrupted r -> conn_recv c nbyte (r :: sock) = conn_recv c nbyte sock.
Proof. intros H. retry_step H. Qed.

Lemma conn_recvv_retry c nbyte r sock :
  interrupted r -> conn_recvv c nbyte (r :: sock) = conn_recvv c nbyte sock.
Proof. intros H. retry_step H. Qed.

Lemma conn_send_retry c nbyte r sock :
  interrupted r -> conn_send c nbyte (r :: sock) = conn_send c nbyte sock.
Proof. intros H. retry_step H. Qed.

Lemma conn_sendv_retry c nbyte r sock :
  interrupted r -> conn_sendv c nbyte (r :: sock) = conn_sendv c nbyte sock.
Proof. intros H. retry_step H. Qed.

(** Any number of interrupted calls is skipped. *)
Lemma conn_recv_skip c nbyte pre sock :
  Forall interrupted pre ->
  conn_recv c nbyte (pre ++ sock) = conn_recv c nbyte sock.
Proof.
  induction 1 as [|r pre Hr _ IH]; [reflexivity|].
  rewrite <- app_comm_cons, conn_recv_retry by assumption. exact IH.
Qed.

Lemma conn_recvv_skip c nbyte pre sock :
  Forall interrupted pre ->
  conn_recvv c nbyte (pre ++ sock) = conn_recvv c nbyte sock.
Proof.
  induction 1 as [|r pre Hr _ IH]; [reflexivity|].
  rewrite <- app_comm_cons, conn_recvv_retry by assumption. exact IH.
Qed.

Lemma conn_send_skip c nbyte pre sock :
  Forall interrupted pre ->
  conn_send c nbyte (pre ++ sock) = conn_send c nbyte sock.
Proof.
  induction 1 as [|r pre Hr _ IH]; [reflexivity|].
  rewrite <- app_comm_cons, conn_send_retry by assumption. exact IH.
Qed.

Lemma conn_sendv_skip c nbyte pre sock :
  Forall interrupted pre ->
  conn_sendv c nbyte (pre ++ sock) = conn_sendv c nbyte sock.
Proof.
  induction 1 as [|r pre Hr _ IH]; [reflexivity|].
  rewrite <- app_comm_cons, conn_sendv_retry by assumption. exact IH.
Qed.

(** The value of [(ssize_t) nbyte] for a size that fits. *)
Lemma ssize_of_size_small nbyte :
  0 <= nbyte <= SSIZE_MAX -> ssize_of_size nbyte = nbyte.
Proof.
  intros H. unfold ssize_of_size, size_wrap, SIZE_MOD, SSIZE_MAX in *.
  rewrite Z.mod_small by lia.
  destruct (nbyte <=? 2 ^ 63 - 1) eqn:E; [reflexivity|].
  apply Z.leb_gt in E. lia.
Qed.

(** The errno tests of the two failure branches. *)
Lemma would_block_tests r :
  would_block r ->
  (0 <? ret r) = false /\ (ret r =? 0) = false /\ (errno r =? EINTR) = false
  /\ ((errno r =? EAGAIN) || (errno r =? EWOULDBLOCK)) = true.
Proof.
  intros (Hneg & Hni & Hag). repeat split.
  - apply Z.ltb_ge. lia.
  - apply Z.eqb_neq. lia.
  - apply Z.eqb_neq. exact Hni.
  - apply orb_true_iff. destruct Hag as [H|H]; [left|right];
      apply Z.eqb_eq; exact H.
Qed.

Lemma hard_error_tests r :
  hard_error r ->
  (0 <? ret r) = false /\ (ret r =? 0) = false /\ (errno r =? EINTR) = false
  /\ ((errno r =? EAGAIN) || (errno r =? EWOULDBLOCK)) = false.
Proof.
  intros (Hneg & Hni & Ha & Hw). repeat split.
  - apply Z.ltb_ge. lia.
  - apply Z.eqb_neq. lia.
  - apply Z.eqb_neq. exact Hni.
  - apply orb_false_iff. split; apply Z.eqb_neq; assumption.
Qed.

(** A settled call is one of four kinds. *)
Lemma settled_cases r :
  settled r ->
  0 < ret r \/ ret r = 0 \/ would_block r \/ hard_error r.
Proof.
  unfold settled, would_block, hard_error. intros H.
  destruct (Z.lt_trichotomy (ret r) 0) as [Hn|[Hz|Hp]]; [|lia|lia].
  destruct H as [H|H]; [lia|].
  destruct (Z.eq_dec (errno r) EAGAIN) as [Ha|Ha]; [tauto|].
  destruct (Z.eq_dec (errno r) EWOULDBLOCK) as [Hw|Hw]; tauto.
Qed.

(** What [conn_recv] does with the first settled call. *)
Lemma conn_recv_bytes c nbyte r sock :
  0 < ret r ->
  conn_recv c nbyte (r :: sock) =
  Some (ret r,
        (let c1 := if ret r <? ssize_of_size nbyte
                   then set_recv_ready c false else c in
         set_recv_nbyte c1 (size_wrap (recv_nbyte c1 + ret r))),
        sock).
Proof.
  intros H. cbn [conn_recv]. apply Z.ltb_lt in H. rewrite H. reflexivity.
Qed.

Lemma conn_recv_zero c nbyte r sock :
  ret r = 0 ->
  conn_recv c nbyte (r :: sock) =
  Some (0, set_state (set_recv_ready c false) CONN_EOF, sock).
Proof. intros H. cbn [conn_recv]. rewrite H. reflexivity. Qed.

Lemma conn_recv_eagain c nbyte r sock :
  would_block r ->
  conn_recv c nbyte (r :: sock) =
  Some (CC_EAGAIN, set_recv_ready c false, sock).
Proof.
  intros H. destruct (would_block_tests _ H) as (E1 & E2 & E3 & E4).
  cbn [conn_recv]. rewrite E1, E2, E3, E4. reflexivity.
Qed.

Lemma conn_recv_error c nbyte r sock :
  hard_error r ->
  conn_recv c nbyte (r :: sock) =
  Some (CC_ERROR, set_err (set_recv_ready c false) (errno r), sock).
Proof.
  intros H. destruct (hard_error_tests _ H) as (E1 & E2 & E3 & E4).
  cbn [conn_recv]. rewrite E1, E2, E3, E4. reflexivity.
Qed.

Lemma conn_send_bytes c nbyte r sock :
  0 < ret r ->
  conn_send c nbyte (r :: sock) =
  Some (ret r,
        (let c1 := if ret r <? ssize_of_size nbyte
                   then set_send_ready c false else c in
         set_send_nbyte c1 (size_wrap (send_nbyte c1 + ret r))),
        sock).
Proof.
  intros H. cbn [conn_send]. apply Z.ltb_lt in H. rewrite H. reflexivity.
Qed.

Lemma conn_send_zero c nbyte r sock :
  ret r = 0 ->
  conn_send c nbyte (r :: sock) = Some (0, set_send_ready c false, sock).
Proof. intros H. cbn [conn_send]. rewrite H. reflexivity. Qed.

Lemma conn_send_eagain c nbyte r sock :
  would_block r ->
  conn_send c nbyte (r :: sock) =
  Some (CC_EAGAIN, set_send_ready c false, sock).
Proof.
  intros H. destruct (would_block_tests _ H) as (E1 & E2 & E3 & E4).
  cbn [conn_send]. rewrite E1, E2, E3, E4. reflexivity.
Qed.

Lemma conn_send_error c nbyte r sock :
  hard_error r ->
  conn_send c nbyte (r :: sock) =
  Some (CC_ERROR, set_err (set_send_ready c false) (errno r), sock).
Proof.
  intros H. destruct (hard_error_tests _ H) as (E1 & E2 & E3 & E4).
  cbn [conn_send]. rewrite E1, E2, E3, E4. reflexivity.
Qed.

(** [conn_recv] returns as soon as a call settles, and what it returns is
    a byte count, zero, or one of the two sentinels. *)
Lemma conn_recv_returns c nbyte pre r sock :
  Forall interrupted pre -> settled r ->
  exists k c',
    conn_recv c nbyte (pre ++ r :: sock) = Some (k, c', sock)
    /\ (0 < k /\ k = ret r \/ k = 0 /\ ret r = 0
        \/ k = CC_EAGAIN /\ would_block r \/ k = CC_ERROR /\ hard_error r).
Proof.
  intros Hpre Hr. rewrite conn_recv_skip by assumption.
  destruct (settled_cases _ Hr) as [H|[H|[H|H]]].
  - rewrite conn_recv_bytes by assumption. eauto 10.
  - rewrite conn_recv_zero by assumption. eauto 10.
  - rewrite conn_recv_eagain by assumption. eauto 10.
  - rewrite conn_recv_error by assumption. eauto 10.
Qed.

Lemma conn_send_returns c nbyte pre r sock :
  Forall interrupted pre -> settled r ->
  exists k c',
    conn_send c nbyte (pre ++ r :: sock) = Some (k, c', sock)
    /\ (0 < k /\ k = ret r \/ k = 0 /\ ret r = 0
        \/ k = CC_EAGAIN /\ would_block r \/ k = CC_ERROR /\ hard_error r).
Proof.
  intros Hpre Hr. rewrite conn_send_skip by assumption.
  destruct (settled_cases _ Hr) as [H|[H|[H|H]]].
  - rewrite conn_send_bytes by assumption. eauto 10.
  - rewrite conn_send_zero by assumption. eauto 10.
  - rewrite conn_send_eagain by assumption. eauto 10.
  - rewrite conn_send_error by assumption. eauto 10.
Qed.

End NioFacts.

(** ** Streams: one call of [stream_read] and [stream_write] *)

Section StreamFacts.
Import CInt Status Nio Mbuf Stream.

Lemma advance_wpos_0 s : advance_wpos s 0 = s.
Proof.
  destruct s as [o t c [rp wp cap] wb d e]. unfold advance_wpos. cbn.
  rewrite Z.add_0_r. reflexivity.
Qed.

Lemma advance_rpos_0 s : advance_rpos s 0 = s.
Proof.
  destruct s as [o t c rb [rp wp cap] d e]. unfold advance_rpos. cbn.
  rewrite Z.add_0_r. reflexivity.
Qed.

(** [stream_read] once the buffer has room and [conn_recv] returned [n]. *)
Lemma stream_read_tcp h s nbyte sock n c sock' :
  let s1 := call_hook (pre_read h) s nbyte in
  Stream.type s1 = CHANNEL_TCP ->
  nbyte <= mbuf_wsize (rbuf s1) ->
  conn_recv (channel s1) nbyte sock = Some (n, c, sock') ->
  stream_read h s nbyte sock =
  Some ((if n <? 0 then if n =? CC_EAGAIN then CC_OK else CC_ERROR
         else if n =? 0 then CC_ERDHUP
         else if n =? nbyte then CC_ERETRY else CC_OK),
        (if 0 <? n
         then call_hook (post_read h) (advance_wpos (set_channel s1 c) n) n
         else set_channel s1 c),
        sock').
Proof.
  intros s1 Ht Hcap Hrecv. unfold stream_read. fold s1.
  apply Z.ltb_ge in Hcap. rewrite Hcap, Ht, Hrecv.
  destruct (0 <? n); [reflexivity|].
  rewrite advance_wpos_0. reflexivity.
Qed.

(** [stream_write] once there is something to send and [conn_send]
    returned [n]. *)
Lemma stream_write_tcp h s nbyte sock n c sock' :
  let s1 := call_hook (pre_write h) s nbyte in
  let content := mbuf_rsize (wbuf s1) in
  Stream.type s1 = CHANNEL_TCP ->
  content <> 0 ->
  conn_send (channel s1) content sock = Some (n, c, sock') ->
  stream_write h s nbyte sock =
  Some ((if n <? 0 then if n =? CC_EAGAIN then CC_EAGAIN else CC_ERROR
         else if n <? content then CC_ERETRY else CC_OK),
        (if 0 <? n
         then call_hook (post_write h) (advance_rpos (set_channel s1 c) n) n
         else set_channel s1 c),
        sock').
Proof.
  intros s1 content Ht Hne Hsend. unfold stream_write. fold s1. fold content.
  apply Z.eqb_neq in Hne. rewrite Hne, Ht, Hsend.
  destruct (n <? 0) eqn:Hneg.
  - assert (E : (0 <? n) = false) by (apply Z.ltb_ge; apply Z.ltb_lt in Hneg; lia).
    rewrite E. destruct (n =? CC_EAGAIN); reflexivity.
  - destruct (0 <? n); [reflexivity|].
    rewrite advance_rpos_0. reflexivity.
Qed.

End StreamFacts.

(** ** Properties of connections and streams *)

Import CInt Status Nio Mbuf Stream Samples.

(** C1, as the code has it.  For a connection with [recv_ready] set, a read
    of 0 bytes (after any number of interrupted calls) makes [conn_recv] set
    the state to [CONN_EOF], clear [recv_ready] and return 0, and the
    [stream_read] that made the call returns [CC_ERDHUP].  [conn_recv] does
    not look at the state: called on a connection whose state is already
    [CONN_EOF] it issues the read again, and it returns 0 (and [stream_read]
    returns [CC_ERDHUP]) exactly when that read gives 0 bytes. *)
Theorem conn_recv_eof_semantics :
  forall (c : conn) (nbyte : Z) (pre : socket) (r : sysret) (sock : socket),
    recv_ready c = true ->
    Forall Nio.interrupted pre ->
    settled r ->
    (ret r = 0 ->
     conn_recv c nbyte (pre ++ r :: sock)
     = Some (0, set_state (set_recv_ready c false) CONN_EOF, sock)
     /\ Nio.state (set_state (set_recv_ready c false) CONN_EOF) = CONN_EOF
     /\ recv_ready (set_state (set_recv_ready c false) CONN_EOF) = false
     /\ (forall h s,
            Stream.type (call_hook (pre_read h) s nbyte) = CHANNEL_TCP ->
            channel (call_hook (pre_read h) s nbyte) = c ->
            nbyte <= mbuf_wsize (rbuf (call_hook (pre_read h) s nbyte)) ->
            stream_read h s nbyte (pre ++ r :: sock)
            = Some (CC_ERDHUP,
                    set_channel (call_hook (pre_read h) s nbyte)
                      (set_state (set_recv_ready c false) CONN_EOF),
                    sock)))
    /\
    (Nio.state c = CONN_EOF ->
     exists k c',
       conn_recv c nbyte (pre ++ r :: sock) = Some (k, c', sock)
       /\ (k = 0 <-> ret r = 0)
       /\ (forall h s,
              Stream.type (call_hook (pre_read h) s nbyte) = CHANNEL_TCP ->
              channel (call_hook (pre_read h) s nbyte) = c ->
              nbyte <= mbuf_wsize (rbuf (call_hook (pre_read h) s nbyte)) ->
              exists status s',
                stream_read h s nbyte (pre ++ r :: sock)
                = Some (status, s', sock)
                /\ (status = CC_ERDHUP <-> ret r = 0))).
Proof.
  intros c nbyte pre r sock _ Hpre Hr. split.
  - intros Hz.
    assert (E : conn_recv c nbyte (pre ++ r :: sock)
                = Some (0, set_state (set_recv_ready c false) CONN_EOF, sock))
      by (rewrite conn_recv_skip by assumption; apply conn_recv_zero, Hz).
    repeat split; [exact E|].
    intros h s Ht Hc Hcap.
    rewrite (stream_read_tcp h s nbyte _ 0 _ sock Ht Hcap)
      by (rewrite Hc; exact E).
    reflexivity.
  - intros _.
    destruct (conn_recv_returns c nbyte pre r sock Hpre Hr)
      as (k & c' & E & Hk).
    exists k, c'. split; [exact E|]. split.
    + unfold CC_EAGAIN, CC_ERROR, would_block, hard_error in Hk. lia.
    + intros h s Ht Hc Hcap.
      rewrite (stream_read_tcp h s nbyte _ k c' sock Ht Hcap)
        by (rewrite Hc; exact E).
      eexists _, _. split; [reflexivity|].
      unfold CC_EAGAIN, CC_ERROR, CC_ERDHUP, CC_ERETRY, CC_OK,
        would_block, hard_error in *.
      destruct Hk as [[Hp ->]|[[-> Hz]|[[-> Hb]|[-> He]]]].
      * assert (E1 : (ret r <? 0) = false) by (apply Z.ltb_ge; lia).
        assert (E2 : (ret r =? 0) = false) by (apply Z.eqb_neq; lia).
        rewrite E1, E2. destruct (ret r =? nbyte); lia.
      * cbn. lia.
      * cbn. lia.
      * cbn. lia.
Qed.

(** The statement above at an end of file met after one interrupted call. *)
Lemma conn_recv_eof_semantics_witness :
  recv_ready eof_conn = true
  /\ Forall Nio.interrupted [eintr]
  /\ settled (moved 0)
  /\ conn_recv eof_conn 64 ([eintr] ++ moved 0 :: [])
     = Some (0, set_state (set_recv_ready eof_conn false) CONN_EOF, []).
Proof.
  assert (H1 : recv_ready eof_conn = true) by reflexivity.
  assert (H2 : Forall Nio.interrupted [eintr]).
  { constructor; [|constructor]. split; [cbn; lia | reflexivity]. }
  assert (H3 : settled (moved 0)) by (left; cbn; lia).
  split; [exact H1|]. split; [exact H2|]. split; [exact H3|].
  exact (proj1 (proj1 (conn_recv_eof_semantics eof_conn 64 [eintr] (moved 0) []
                         H1 H2 H3) eq_refl)).
Defined.

(** C1 as stated fails: on a connection whose state is [CONN_EOF] (and whose
    [recv_ready] is set, as [conn_recv] requires) the read is issued, so the
    socket is touched; when it returns 0 that call is consumed, and when it
    returns 3 bytes [conn_recv] returns 3 and [stream_read] returns [CC_OK],
    not [CC_ERDHUP]. *)
Lemma conn_recv_on_eof_reads_the_socket :
  Nio.state eof_conn = CONN_EOF
  /\ recv_ready eof_conn = true
  /\ conn_recv eof_conn 64 [moved 0; moved 3]
     = Some (0, set_recv_ready eof_conn false, [moved 3])
  /\ conn_recv eof_conn 64 [moved 3]
     = Some (3, set_recv_nbyte (set_recv_ready eof_conn false) 3, [])
  /\ stream_read no_hooks eof_stream 64 [moved 3]
     = Some (CC_OK,
             advance_wpos
               (set_channel eof_stream
                  (set_recv_nbyte (set_recv_ready eof_conn false) 3)) 3,
             []).
Proof. repeat split. Qed.

(** C2, the failing input: on a read of 0 bytes [conn_recv] moves the
    connection to [CONN_EOF], and [conn_recvv] leaves its state as it was. *)
Theorem conn_recvv_zero_read_keeps_state :
  conn_recv live_conn 64 [moved 0]
  = Some (0, set_state (set_recv_ready live_conn false) CONN_EOF, [])
  /\ conn_recvv live_conn 64 [moved 0]
     = Some (0, set_recv_ready live_conn false, [])
  /\ Nio.state (set_state (set_recv_ready live_conn false) CONN_EOF) = CONN_EOF
  /\ Nio.state (set_recv_ready live_conn false) = CONN_CONNECTED.
Proof. repeat split. Qed.

(** [conn_sendv] is [conn_send] on every script. *)
Lemma conn_sendv_is_conn_send :
  forall (c : conn) (nbyte : Z) (sock : socket),
    conn_sendv c nbyte sock = conn_send c nbyte sock.
Proof.
  intros c nbyte sock. induction sock as [|r sock IH]; [reflexivity|].
  cbn [conn_sendv conn_send]. rewrite IH. reflexivity.
Qed.

(** [conn_recvv] differs from [conn_recv] only in the state it leaves after a
    read of 0 bytes: same value returned, same script left, and the same
    connection but for [state] in that one case, where [conn_recv] has moved
    to [CONN_EOF]; [conn_recvv] never changes [state]. *)
Lemma conn_recvv_up_to_eof :
  forall (c : conn) (nbyte : Z) (sock : socket),
    match conn_recv c nbyte sock, conn_recvv c nbyte sock with
    | Some (k, c1, s1), Some (k', c2, s2) =>
        k = k' /\ s1 = s2
        /\ Nio.state c2 = Nio.state c
        /\ (k <> 0 -> c1 = c2)
        /\ (k = 0 -> c1 = set_state c2 CONN_EOF /\ Nio.state c1 = CONN_EOF)
    | None, None => True
    | _, _ => False
    end.
Proof.
  intros c nbyte sock. induction sock as [|r sock IH]; [exact I|].
  cbn [conn_recv conn_recvv].
  destruct (0 <? ret r) eqn:Hp.
  - apply Z.ltb_lt in Hp.
    destruct (ret r <? ssize_of_size nbyte);
      repeat split; intros; lia || reflexivity.
  - destruct (ret r =? 0) eqn:Hz.
    + apply Z.eqb_eq in Hz. rewrite Hz.
      repeat split; intros; try reflexivity; lia.
    + destruct (errno r =? EINTR); [exact IH|].
      destruct ((errno r =? EAGAIN) || (errno r =? EWOULDBLOCK));
        repeat split; intros; try reflexivity;
        unfold CC_EAGAIN, CC_ERROR in *; lia.
Qed.

(** C3.  With [recv_ready] set, a read of [k] bytes with [0 < k < nbyte],
    or one that fails with [EAGAIN] or [EWOULDBLOCK], leaves [recv_ready]
    cleared, and a read of exactly [nbyte] bytes ([nbyte > 0], as
    [conn_recv] asserts) leaves it set; likewise for [conn_send] and
    [send_ready].  The test for a short transfer is made on
    [(ssize_t) nbyte]: the statement is about the calls that the system
    answers, which refuses a count above [SSIZE_MAX]. *)
Theorem readiness_bookkeeping :
  forall (c : conn) (nbyte : Z) (pre : socket) (r : sysret) (sock : socket),
    Forall Nio.interrupted pre ->
    refuses_oversized nbyte r ->
    (recv_ready c = true ->
     (0 < ret r < nbyte ->
      exists c',
        conn_recv c nbyte (pre ++ r :: sock) = Some (ret r, c', sock)
        /\ recv_ready c' = false)
     /\ (would_block r ->
         exists c',
           conn_recv c nbyte (pre ++ r :: sock) = Some (CC_EAGAIN, c', sock)
           /\ recv_ready c' = false)
     /\ (ret r = nbyte -> 0 < nbyte ->
         exists c',
           conn_recv c nbyte (pre ++ r :: sock) = Some (nbyte, c', sock)
           /\ recv_ready c' = true))
    /\
    (send_ready c = true ->
     (0 < ret r < nbyte ->
      exists c',
        conn_send c nbyte (pre ++ r :: sock) = Some (ret r, c', sock)
        /\ send_ready c' = false)
     /\ (would_block r ->
         exists c',
           conn_send c nbyte (pre ++ r :: sock) = Some (CC_EAGAIN, c', sock)
           /\ send_ready c' = false)
     /\ (ret r = nbyte -> 0 < nbyte ->
         exists c',
           conn_send c nbyte (pre ++ r :: sock) = Some (nbyte, c', sock)
           /\ send_ready c' = true)).
Proof.
  intros c nbyte pre r sock Hpre Hsys.
  assert (Hfull : ret r = nbyte -> 0 < nbyte ->
                  (ret r <? ssize_of_size nbyte) = false).
  { intros Hk Hn. apply Z.ltb_ge. rewrite Hk.
    unfold ssize_of_size, size_wrap, SIZE_MOD, SSIZE_MAX.
    pose proof (Z.mod_pos_bound nbyte (2 ^ 64) ltac:(lia)) as Hb.
    pose proof (Z.mod_le nbyte (2 ^ 64) ltac:(lia) ltac:(lia)) as Hle.
    destruct (nbyte mod 2 ^ 64 <=? 2 ^ 63 - 1); lia. }
  assert (Hshort : 0 < ret r < nbyte ->
                   (ret r <? ssize_of_size nbyte) = true).
  { intros Hk.
    assert (Hn : nbyte <= SSIZE_MAX).
    { destruct (Z.le_gt_cases nbyte SSIZE_MAX) as [H|H]; [exact H|].
      unfold refuses_oversized in Hsys. specialize (Hsys H). lia. }
    rewrite ssize_of_size_small by lia. apply Z.ltb_lt. lia. }
  split; intros Hready; (split; [|split]).
  - intros Hk. rewrite conn_recv_skip by assumption.
    rewrite conn_recv_bytes by lia. rewrite (Hshort Hk).
    eexists. split; reflexivity.
  - intros Hb. rewrite conn_recv_skip by assumption.
    rewrite conn_recv_eagain by assumption. eexists. split; reflexivity.
  - intros Hk Hn. rewrite conn_recv_skip by assumption.
    rewrite conn_recv_bytes by lia. rewrite (Hfull Hk Hn), Hk.
    eexists. split; [reflexivity|]. exact Hready.
  - intros Hk. rewrite conn_send_skip by assumption.
    rewrite conn_send_bytes by lia. rewrite (Hshort Hk).
    eexists. split; reflexivity.
  - intros Hb. rewrite conn_send_skip by assumption.
    rewrite conn_send_eagain by assumption. eexists. split; reflexivity.
  - intros Hk Hn. rewrite conn_send_skip by assumption.
    rewrite conn_send_bytes by lia. rewrite (Hfull Hk Hn), Hk.
    eexists. split; [reflexivity|]. exact Hready.
Qed.

(** The statement above for a request of 64 bytes answered, after one
    interrupted call, by 10 bytes. *)
Lemma readiness_bookkeeping_witness :
  Forall Nio.interrupted [eintr]
  /\ refuses_oversized 64 (moved 10)
  /\ recv_ready live_conn = true
  /\ 0 < ret (moved 10) < 64
  /\ exists c',
       conn_recv live_conn 64 ([eintr] ++ moved 10 :: [])
       = Some (ret (moved 10), c', [])
       /\ recv_ready c' = false.
Proof.
  assert (H0 : refuses_oversized 64 (moved 10))
    by (unfold refuses_oversized, SSIZE_MAX; cbn; lia).
  assert (H1 : Forall Nio.interrupted [eintr]).
  { constructor; [|constructor]. split; [cbn; lia | reflexivity]. }
  assert (H2 : recv_ready live_conn = true) by reflexivity.
  assert (H3 : 0 < ret (moved 10) < 64) by (cbn; lia).
  split; [exact H1|]. split; [exact H0|]. split; [exact H2|].
  split; [exact H3|].
  exact (proj1 (proj1 (readiness_bookkeeping live_conn 64 [eintr] (moved 10) []
                         H1 H0) H2) H3).
Defined.

(** C10.  When the write reports 0 bytes, [conn_send] clears [send_ready] and
    returns 0, leaving [state], [err] and [send_nbyte] as they were; and
    [stream_write] on a TCP stream with a non-empty [wbuf] returns
    [CC_ERETRY], leaves the stream as the [pre_write] hook left it but for
    the connection ([wbuf->rpos] in particular), and does not call
    [post_write]. *)
Theorem zero_byte_write :
  forall (c : conn) (nbyte : Z) (pre : socket) (r : sysret) (sock : socket),
    Forall Nio.interrupted pre ->
    ret r = 0 ->
    conn_send c nbyte (pre ++ r :: sock)
    = Some (0, set_send_ready c false, sock)
    /\ send_ready (set_send_ready c false) = false
    /\ Nio.state (set_send_ready c false) = Nio.state c
    /\ err (set_send_ready c false) = err c
    /\ send_nbyte (set_send_ready c false) = send_nbyte c
    /\ (forall h s n,
           Stream.type (call_hook (pre_write h) s n) = CHANNEL_TCP ->
           channel (call_hook (pre_write h) s n) = c ->
           mbuf_rsize (wbuf (call_hook (pre_write h) s n)) <> 0 ->
           stream_write h s n (pre ++ r :: sock)
           = Some (CC_ERETRY,
                   set_channel (call_hook (pre_write h) s n)
                     (set_send_ready c false),
                   sock)
           /\ wbuf (set_channel (call_hook (pre_write h) s n)
                      (set_send_ready c false))
              = wbuf (call_hook (pre_write h) s n)).
Proof.
  intros c nbyte pre r sock Hpre Hz.
  assert (E : forall n, conn_send c n (pre ++ r :: sock)
                        = Some (0, set_send_ready c false, sock))
    by (intros n; rewrite conn_send_skip by assumption;
        apply conn_send_zero, Hz).
  split; [apply E|]. do 4 (split; [reflexivity|]).
  intros h s n Ht Hc Hne. split; [|reflexivity].
  rewrite (stream_write_tcp h s n _ 0 (set_send_ready c false) sock Ht Hne)
    by (rewrite Hc; apply E).
  cbn [Z.ltb Z.compare].
  assert (Hpos : 0 < mbuf_rsize (wbuf (call_hook (pre_write h) s n))).
  { unfold mbuf_rsize, size_wrap, SIZE_MOD in *.
    pose proof (Z.mod_pos_bound
                  (wpos (wbuf (call_hook (pre_write h) s n))
                   - rpos (wbuf (call_hook (pre_write h) s n))) (2 ^ 64)).
    lia. }
  apply Z.ltb_lt in Hpos. rewrite Hpos. reflexivity.
Qed.

(** The statement above for a write of 0 bytes after one interrupted call,
    with a [post_write] hook in place. *)
Lemma zero_byte_write_witness :
  Forall Nio.interrupted [eintr]
  /\ ret (moved 0) = 0
  /\ stream_write marking_hooks tcp_stream 10 ([eintr] ++ moved 0 :: [])
     = Some (CC_ERETRY, set_channel tcp_stream (set_send_ready live_conn false),
             []).
Proof.
  assert (H1 : Forall Nio.interrupted [eintr]).
  { constructor; [|constructor]. split; [cbn; lia | reflexivity]. }
  split; [exact H1|]. split; [reflexivity|].
  refine (proj1 (proj2 (proj2 (proj2 (proj2 (proj2
            (zero_byte_write live_conn 0 [eintr] (moved 0) [] H1 eq_refl)))))
            marking_hooks tcp_stream 10 eq_refl eq_refl _)).
  vm_compute. discriminate.
Defined.

(** C4.  [stream_read] on a TCP stream, with [s1] the stream as the
    [pre_read] hook leaves it.  When the writable size of [rbuf] is below
    [nbyte] it returns [CC_ENOMEM] and the connection and the socket are
    untouched.  Otherwise [conn_recv] is called for [nbyte] bytes and, with
    [k] its result, the status is [CC_OK] for the [CC_EAGAIN] sentinel,
    [CC_ERROR] for the [CC_ERROR] sentinel, [CC_ERDHUP] for 0, [CC_ERETRY]
    for [nbyte] (a positive size, as [conn_recv] requires) and [CC_OK] for
    [0 < k < nbyte]; when [k > 0], [rbuf->wpos] is advanced by [k] and then
    [post_read] is called with [k] if present, and when [k <= 0] neither
    happens. *)
Theorem stream_read_status :
  forall (h : stream_handler_t) (s : stream) (nbyte : Z),
    Stream.type (call_hook (pre_read h) s nbyte) = CHANNEL_TCP ->
    (forall sock,
        mbuf_wsize (rbuf (call_hook (pre_read h) s nbyte)) < nbyte ->
        stream_read h s nbyte sock
        = Some (CC_ENOMEM, call_hook (pre_read h) s nbyte, sock))
    /\
    (forall pre r sock,
        nbyte <= mbuf_wsize (rbuf (call_hook (pre_read h) s nbyte)) ->
        Forall Nio.interrupted pre ->
        settled r ->
        exists k c' status,
          conn_recv (channel (call_hook (pre_read h) s nbyte)) nbyte
                    (pre ++ r :: sock)
          = Some (k, c', sock)
          /\ stream_read h s nbyte (pre ++ r :: sock)
             = Some (status,
                     (if 0 <? k
                      then call_hook (post_read h)
                             (advance_wpos
                                (set_channel (call_hook (pre_read h) s nbyte)
                                             c') k) k
                      else set_channel (call_hook (pre_read h) s nbyte) c'),
                     sock)
          /\ (k = CC_EAGAIN -> status = CC_OK)
          /\ (k = CC_ERROR -> status = CC_ERROR)
          /\ (k = 0 -> status = CC_ERDHUP)
          /\ (k = nbyte -> 0 < nbyte -> status = CC_ERETRY)
          /\ (0 < k < nbyte -> status = CC_OK)
          /\ wpos (rbuf (advance_wpos
                           (set_channel (call_hook (pre_read h) s nbyte) c')
                           k))
             = wpos (rbuf (call_hook (pre_read h) s nbyte)) + k).
Proof.
  intros h s nbyte Ht. split.
  - intros sock Hcap. unfold stream_read.
    apply Z.ltb_lt in Hcap. rewrite Hcap. reflexivity.
  - intros pre r sock Hcap Hpre Hr.
    destruct (conn_recv_returns (channel (call_hook (pre_read h) s nbyte))
                nbyte pre r sock Hpre Hr) as (k & c' & E & Hk).
    exists k, c'. eexists. split; [exact E|].
    split; [exact (stream_read_tcp h s nbyte _ k c' sock Ht Hcap E)|].
    unfold CC_EAGAIN, CC_ERROR, CC_OK, CC_ERDHUP, CC_ERETRY in *.
    assert (Hcases : k = -2 \/ k = -1 \/ k = 0 \/ 0 < k) by lia.
    clear Hk E.
    repeat match goal with |- _ /\ _ => split end;
      try reflexivity; intros Hk'.
    + subst k. reflexivity.
    + subst k. reflexivity.
    + subst k. reflexivity.
    + intros Hn. subst k.
      assert (E1 : (nbyte <? 0) = false) by (apply Z.ltb_ge; lia).
      assert (E2 : (nbyte =? 0) = false) by (apply Z.eqb_neq; lia).
      rewrite E1, E2, Z.eqb_refl. reflexivity.
    + assert (E1 : (k <? 0) = false) by (apply Z.ltb_ge; lia).
      assert (E2 : (k =? 0) = false) by (apply Z.eqb_neq; lia).
      assert (E3 : (k =? nbyte) = false) by (apply Z.eqb_neq; lia).
      rewrite E1, E2, E3. reflexivity.
Qed.

(** The statement above for a request of 64 bytes on an empty buffer of 64,
    answered with 10 bytes, the [post_read] hook marking the stream. *)
Lemma stream_read_status_witness :
  Stream.type (call_hook (pre_read marking_hooks) tcp_stream 64) = CHANNEL_TCP
  /\ 64 <= mbuf_wsize (rbuf (call_hook (pre_read marking_hooks) tcp_stream 64))
  /\ Forall Nio.interrupted [eintr]
  /\ settled (moved 10)
  /\ exists k c' status,
       conn_recv live_conn 64 ([eintr] ++ moved 10 :: [])
       = Some (k, c', [])
       /\ stream_read marking_hooks tcp_stream 64 ([eintr] ++ moved 10 :: [])
          = Some (status,
                  (if 0 <? k
                   then mark (advance_wpos (set_channel tcp_stream c') k) k
                   else set_channel tcp_stream c'),
                  [])
       /\ (0 < k < 64 -> status = CC_OK).
Proof.
  assert (H0 : Stream.type (call_hook (pre_read marking_hooks) tcp_stream 64)
               = CHANNEL_TCP) by reflexivity.
  assert (H1 : 64 <= mbuf_wsize
                       (rbuf (call_hook (pre_read marking_hooks) tcp_stream 64)))
    by (vm_compute; discriminate).
  assert (H3 : Forall Nio.interrupted [eintr]).
  { constructor; [|constructor]. split; [cbn; lia | reflexivity]. }
  assert (H4 : settled (moved 10)) by (left; cbn; lia).
  split; [exact H0|]. split; [exact H1|].
  split; [exact H3|]. split; [exact H4|].
  destruct (proj2 (stream_read_status marking_hooks tcp_stream 64 H0)
              [eintr] (moved 10) [] H1 H3 H4)
    as (k & c' & status & E1 & E2 & _ & _ & _ & _ & E3 & _).
  exists k, c', status. split; [exact E1|]. split; [exact E2|]. exact E3.
Defined.

(** C5.  [stream_write] on a TCP stream, with [s1] the stream as the
    [pre_write] hook leaves it and [content] the readable size of its
    [wbuf].  When [content] is 0 it returns [CC_EEMPTY] and the connection
    and the socket are untouched.  Otherwise [conn_send] is called for
    [content] bytes, whatever [nbyte] is, and with [k] its result the status
    is [CC_EAGAIN] for the [CC_EAGAIN] sentinel, [CC_ERROR] for the
    [CC_ERROR] sentinel, [CC_ERETRY] for [0 <= k < content] and [CC_OK] for
    [k = content]; [wbuf->rpos] is advanced by [max(k, 0)], and then
    [post_write] is called with [k] if it is present and [k > 0]. *)
Theorem stream_write_status :
  forall (h : stream_handler_t) (s : stream) (nbyte : Z),
    Stream.type (call_hook (pre_write h) s nbyte) = CHANNEL_TCP ->
    (forall sock,
        mbuf_rsize (wbuf (call_hook (pre_write h) s nbyte)) = 0 ->
        stream_write h s nbyte sock
        = Some (CC_EEMPTY, call_hook (pre_write h) s nbyte, sock))
    /\
    (forall pre r sock,
        mbuf_rsize (wbuf (call_hook (pre_write h) s nbyte)) <> 0 ->
        Forall Nio.interrupted pre ->
        settled r ->
        exists k c' status,
          conn_send (channel (call_hook (pre_write h) s nbyte))
                    (mbuf_rsize (wbuf (call_hook (pre_write h) s nbyte)))
                    (pre ++ r :: sock)
          = Some (k, c', sock)
          /\ stream_write h s nbyte (pre ++ r :: sock)
             = Some (status,
                     (if 0 <? k
                      then call_hook (post_write h)
                             (advance_rpos
                                (set_channel (call_hook (pre_write h) s nbyte)
                                             c') (Z.max k 0)) k
                      else advance_rpos
                             (set_channel (call_hook (pre_write h) s nbyte) c')
                             (Z.max k 0)),
                     sock)
          /\ (k = CC_EAGAIN -> status = CC_EAGAIN)
          /\ (k = CC_ERROR -> status = CC_ERROR)
          /\ (0 <= k < mbuf_rsize (wbuf (call_hook (pre_write h) s nbyte)) ->
              status = CC_ERETRY)
          /\ (k = mbuf_rsize (wbuf (call_hook (pre_write h) s nbyte)) ->
              status = CC_OK)
          /\ rpos (wbuf (advance_rpos
                           (set_channel (call_hook (pre_write h) s nbyte) c')
                           (Z.max k 0)))
             = rpos (wbuf (call_hook (pre_write h) s nbyte)) + Z.max k 0).
Proof.
  intros h s nbyte Ht. split.
  - intros sock Hz. unfold stream_write. rewrite Hz. reflexivity.
  - intros pre r sock Hne Hpre Hr.
    set (s1 := call_hook (pre_write h) s nbyte) in *.
    set (content := mbuf_rsize (wbuf s1)) in *.
    assert (Hpos : 0 < content).
    { subst content. unfold mbuf_rsize, size_wrap, SIZE_MOD in *.
      pose proof (Z.mod_pos_bound (wpos (wbuf s1) - rpos (wbuf s1)) (2 ^ 64)).
      lia. }
    destruct (conn_send_returns (channel s1) content pre r sock Hpre Hr)
      as (k & c' & E & Hk).
    exists k, c'. eexists. split; [exact E|].
    split.
    { rewrite (stream_write_tcp h s nbyte _ k c' sock Ht Hne E).
      fold s1. fold content.
      destruct (0 <? k) eqn:Hk0.
      - apply Z.ltb_lt in Hk0. rewrite Z.max_l by lia. reflexivity.
      - apply Z.ltb_ge in Hk0. rewrite Z.max_r by lia.
        rewrite advance_rpos_0. reflexivity. }
    unfold CC_EAGAIN, CC_ERROR, CC_OK, CC_ERETRY in *.
    assert (Hcases : k = -2 \/ k = -1 \/ k = 0 \/ 0 < k) by lia.
    clear Hk E.
    repeat match goal with |- _ /\ _ => split end;
      try reflexivity; intros Hk'.
    + subst k. reflexivity.
    + subst k. reflexivity.
    + assert (E1 : (k <? 0) = false) by (apply Z.ltb_ge; lia).
      assert (E2 : (k <? content) = true) by (apply Z.ltb_lt; lia).
      rewrite E1, E2. reflexivity.
    + assert (E1 : (k <? 0) = false) by (apply Z.ltb_ge; lia).
      rewrite E1, Hk', Z.ltb_irrefl. reflexivity.
Qed.

(** The statement above for a stream holding 10 bytes of which the socket
    takes 4, the caller having asked for 1. *)
Lemma stream_write_status_witness :
  Stream.type (call_hook (pre_write marking_hooks) tcp_stream 1) = CHANNEL_TCP
  /\ mbuf_rsize (wbuf (call_hook (pre_write marking_hooks) tcp_stream 1)) <> 0
  /\ Forall Nio.interrupted [eintr]
  /\ settled (moved 4)
  /\ exists k c' status,
       conn_send live_conn 10 ([eintr] ++ moved 4 :: []) = Some (k, c', [])
       /\ (0 <= k < 10 -> status = CC_ERETRY)
       /\ stream_write marking_hooks tcp_stream 1 ([eintr] ++ moved 4 :: [])
          = Some (status,
                  (if 0 <? k
                   then mark (advance_rpos (set_channel tcp_stream c')
                                           (Z.max k 0)) k
                   else advance_rpos (set_channel tcp_stream c') (Z.max k 0)),
                  []).
Proof.
  assert (H0 : Stream.type (call_hook (pre_write marking_hooks) tcp_stream 1)
               = CHANNEL_TCP) by reflexivity.
  assert (H1 : mbuf_rsize
                 (wbuf (call_hook (pre_write marking_hooks) tcp_stream 1)) <> 0)
    by (vm_compute; discriminate).
  assert (H3 : Forall Nio.interrupted [eintr]).
  { constructor; [|constructor]. split; [cbn; lia | reflexivity]. }
  assert (H4 : settled (moved 4)) by (left; cbn; lia).
  split; [exact H0|]. split; [exact H1|].
  split; [exact H3|]. split; [exact H4|].
  destruct (proj2 (stream_write_status marking_hooks tcp_stream 1 H0)
              [eintr] (moved 4) [] H1 H3 H4)
    as (k & c' & status & E1 & E2 & _ & _ & E3 & _).
  exists k, c', status. split; [exact E1|]. split; [exact E3|]. exact E2.
Defined.

(** ** The event loop *)

Section EventFacts.
Import Status Event.

Lemma land_lor_nonzero a b c :
  Z.land a (Z.lor b c) <> 0 <-> Z.land a b <> 0 \/ Z.land a c <> 0.
Proof.
  rewrite Z.land_lor_distr_r.
  pose proof (Z.lor_eq_0_iff (Z.land a b) (Z.land a c)) as H.
  destruct (Z.eq_dec (Z.land a b) 0), (Z.eq_dec (Z.land a c) 0); tauto.
Qed.

(** The mask as a function of the three tests. *)
Lemma event_mask_by_tests ev :
  event_mask ev =
  Z.lor (Z.lor (if negb (Z.land (events ev) (Z.lor EPOLLERR EPOLLHUP) =? 0)
                then EVENT_ERR else 0)
               (if negb (Z.land (events ev) (Z.lor EPOLLIN EPOLLRDHUP) =? 0)
                then EVENT_READ else 0))
        (if negb (Z.land (events ev) EPOLLOUT =? 0) then EVENT_WRITE else 0).
Proof.
  unfold event_mask.
  destruct (negb (Z.land (events ev) (Z.lor EPOLLERR EPOLLHUP) =? 0)),
    (negb (Z.land (events ev) (Z.lor EPOLLIN EPOLLRDHUP) =? 0)),
    (negb (Z.land (events ev) EPOLLOUT =? 0)); reflexivity.
Qed.

Lemma negb_eqb_0 z : negb (z =? 0) = true <-> z <> 0.
Proof.
  destruct (z =? 0) eqn:E; cbn.
  - apply Z.eqb_eq in E. split; [discriminate | contradiction].
  - apply Z.eqb_neq in E. tauto.
Qed.

Section WithUserState.
Variable U : Type.

(** With a callback in place, [dispatch] runs the calls that
    [dispatched] lists. *)
Lemma dispatch_runs (f : event_cb_t U) ev_arr todo :
  forall i u,
    dispatch (Some f) ev_arr i todo u
    = run_calls f (dispatched ev_arr i todo) u.
Proof.
  induction todo as [|todo IH]; intros i u; [reflexivity|].
  cbn [dispatch dispatched]. rewrite IH. reflexivity.
Qed.

(** Without one, it does nothing. *)
Lemma dispatch_no_callback ev_arr todo :
  forall i (u : U), dispatch None ev_arr i todo u = u.
Proof.
  induction todo as [|todo IH]; intros i u; [reflexivity|].
  cbn [dispatch]. apply IH.
Qed.

Lemma dispatched_length ev_arr todo :
  forall i, length (dispatched ev_arr i todo) = todo.
Proof.
  induction todo as [|todo IH]; intros i; [reflexivity|].
  cbn [dispatched length]. rewrite IH. reflexivity.
Qed.

Lemma event_wait_retry (evb : event_base U) timeout r k u :
  Event.interrupted r ->
  event_wait evb timeout (r :: k) u = event_wait evb timeout k u.
Proof.
  intros [Hneg Herr]. cbn [event_wait].
  assert (E1 : (0 <? nreturned r) = false) by (apply Z.ltb_ge; lia).
  assert (E2 : (nreturned r =? 0) = false) by (apply Z.eqb_neq; lia).
  apply Z.eqb_eq in Herr. rewrite E1, E2, Herr. reflexivity.
Qed.

Lemma event_wait_skip (evb : event_base U) timeout pre k u :
  Forall Event.interrupted pre ->
  event_wait evb timeout (pre ++ k) u = event_wait evb timeout k u.
Proof.
  induction 1 as [|r pre Hr _ IH]; [reflexivity|].
  rewrite <- app_comm_cons, event_wait_retry by assumption. exact IH.
Qed.

End WithUserState.

End EventFacts.

Import Event.

(** A flag of one bit is either carried or not. *)
Lemma one_bit a k :
  0 <= k ->
  (Z.land a (2 ^ k) = 2 ^ k \/ Z.land a (2 ^ k) = 0) /\ 2 ^ k <> 0.
Proof.
  intros Hk. split; [|apply Z.pow_nonzero; lia].
  destruct (Z.testbit a k) eqn:E; [left | right]; apply Z.bits_inj';
    intros n Hn; rewrite Z.land_spec, ?Z.bits_0, Z.pow2_bits_eqb by exact Hk;
    destruct (Z.eqb_spec k n) as [->|_];
    rewrite ?E, ?andb_false_r; reflexivity.
Qed.

Lemma has_one_bit a k :
  0 <= k -> (has a (2 ^ k) <-> Z.land a (2 ^ k) <> 0).
Proof.
  intros Hk. unfold has. destruct (one_bit a k Hk) as [[H|H] Hnz].
  - split; [intros _; rewrite H; exact Hnz | intros _; exact H].
  - split; intros H1; [rewrite H in H1; symmetry in H1|]; contradiction.
Qed.

Lemma bool_by_iff (a b : bool) : (a = true <-> b = true) -> a = b.
Proof. destruct a, b; intros [H1 H2]; auto; symmetry; auto. Qed.

(** A constant equation against a condition that is known to hold or
    known to fail. *)
Ltac flag_case T :=
  split; intros H;
  first [ reflexivity
        | discriminate H
        | apply T; reflexivity
        | apply T in H; discriminate H
        | intros Ha; apply T in Ha; discriminate Ha
        | exfalso; apply H, T; reflexivity ].

(** The tests of the dispatch loop, by the flags reported. *)
Lemma test_err a :
  negb (Z.land a (Z.lor EPOLLERR EPOLLHUP) =? 0) = true
  <-> has a EPOLLERR \/ has a EPOLLHUP.
Proof.
  rewrite negb_eqb_0, land_lor_nonzero.
  change EPOLLERR with (2 ^ 3). change EPOLLHUP with (2 ^ 4).
  rewrite !has_one_bit by lia. reflexivity.
Qed.

Lemma test_read a :
  negb (Z.land a (Z.lor EPOLLIN EPOLLRDHUP) =? 0) = true
  <-> has a EPOLLIN \/ has a EPOLLRDHUP.
Proof.
  rewrite negb_eqb_0, land_lor_nonzero.
  change EPOLLIN with (2 ^ 0). change EPOLLRDHUP with (2 ^ 13).
  rewrite !has_one_bit by lia. reflexivity.
Qed.

Lemma test_write a :
  negb (Z.land a EPOLLOUT =? 0) = true <-> has a EPOLLOUT.
Proof.
  rewrite negb_eqb_0. change EPOLLOUT with (2 ^ 2).
  rewrite has_one_bit by lia. reflexivity.
Qed.

(** C6.  The mask that [event_wait] hands to the callback for a readiness
    record carries the whole of [EVENT_ERR] when the record has [EPOLLERR]
    or [EPOLLHUP] and none of it otherwise, the whole of [EVENT_READ] when
    the record has [EPOLLIN] or [EPOLLRDHUP] and none of it otherwise, the
    whole of [EVENT_WRITE] when the record has [EPOLLOUT] and none of it
    otherwise, and no bit outside these three groups: it is the union of
    the groups reported, whichever way the three questions are answered.
    One turn of the dispatch loop calls the callback with the record's
    user data and that mask. *)
Theorem event_mask_translation :
  forall ev : epoll_event,
    (has (event_mask ev) EVENT_ERR
     <-> has (events ev) EPOLLERR \/ has (events ev) EPOLLHUP)
    /\ (lacks (event_mask ev) EVENT_ERR
        <-> ~ (has (events ev) EPOLLERR \/ has (events ev) EPOLLHUP))
    /\ (has (event_mask ev) EVENT_READ
        <-> has (events ev) EPOLLIN \/ has (events ev) EPOLLRDHUP)
    /\ (lacks (event_mask ev) EVENT_READ
        <-> ~ (has (events ev) EPOLLIN \/ has (events ev) EPOLLRDHUP))
    /\ (has (event_mask ev) EVENT_WRITE <-> has (events ev) EPOLLOUT)
    /\ (lacks (event_mask ev) EVENT_WRITE <-> ~ has (events ev) EPOLLOUT)
    /\ Z.land (event_mask ev)
              (Z.lnot (Z.lor EVENT_ERR (Z.lor EVENT_READ EVENT_WRITE))) = 0
    /\ (forall e r w : bool,
           (e = true
            <-> has (events ev) EPOLLERR \/ has (events ev) EPOLLHUP) ->
           (r = true
            <-> has (events ev) EPOLLIN \/ has (events ev) EPOLLRDHUP) ->
           (w = true <-> has (events ev) EPOLLOUT) ->
           event_mask ev
           = Z.lor (Z.lor (if e then EVENT_ERR else 0)
                          (if r then EVENT_READ else 0))
                   (if w then EVENT_WRITE else 0))
    /\ (forall (U : Type) (f : event_cb_t U) (ev_arr : list epoll_event)
               (i : nat) (u : U),
           nth i ev_arr (mk_epoll_event 0 0) = ev ->
           dispatch (Some f) ev_arr i 1 u = f (data_ptr ev) (event_mask ev) u).
Proof.
  intros ev.
  pose proof (test_err (events ev)) as Te.
  pose proof (test_read (events ev)) as Tr.
  pose proof (test_write (events ev)) as Tw.
  pose proof (event_mask_by_tests ev) as Hm.
  assert (Hvalue : forall e r w : bool,
             (e = true
              <-> has (events ev) EPOLLERR \/ has (events ev) EPOLLHUP) ->
             (r = true
              <-> has (events ev) EPOLLIN \/ has (events ev) EPOLLRDHUP) ->
             (w = true <-> has (events ev) EPOLLOUT) ->
             event_mask ev
             = Z.lor (Z.lor (if e then EVENT_ERR else 0)
                            (if r then EVENT_READ else 0))
                     (if w then EVENT_WRITE else 0)).
  { intros e r w He Hr Hw. rewrite Hm.
    rewrite <- Te in He. rewrite <- Tr in Hr. rewrite <- Tw in Hw.
    rewrite (bool_by_iff _ _ He), (bool_by_iff _ _ Hr), (bool_by_iff _ _ Hw).
    reflexivity. }
  assert (Hcall : forall (U : Type) (f : event_cb_t U) ev_arr i (u : U),
             nth i ev_arr (mk_epoll_event 0 0) = ev ->
             dispatch (Some f) ev_arr i 1 u
             = f (data_ptr ev) (event_mask ev) u)
    by (intros U f ev_arr i u <-; reflexivity).
  repeat match goal with |- _ /\ _ => split end;
    [..| exact Hvalue | exact Hcall];
    rewrite Hm;
    match goal with
    | |- has _ _ <-> _ => unfold has at 1
    | |- lacks _ _ <-> _ => unfold lacks
    | |- _ => idtac
    end;
    destruct (negb (Z.land (events ev) (Z.lor EPOLLERR EPOLLHUP) =? 0)),
      (negb (Z.land (events ev) (Z.lor EPOLLIN EPOLLRDHUP) =? 0)),
      (negb (Z.land (events ev) EPOLLOUT =? 0));
    try reflexivity; cbn;
    first [ flag_case Te | flag_case Tr | flag_case Tw ].
Qed.

(** The statement above for a record with [EPOLLIN] and [EPOLLHUP]: the
    callback, which records what it is given, receives the user data and the
    [EVENT_ERR] and [EVENT_READ] groups. *)
Lemma event_mask_translation_witness :
  nth 0%nat [mk_epoll_event (Z.lor EPOLLIN EPOLLHUP) 42] (mk_epoll_event 0 0)
  = mk_epoll_event (Z.lor EPOLLIN EPOLLHUP) 42
  /\ dispatch (Some (fun d m log => (d, m) :: log))
              [mk_epoll_event (Z.lor EPOLLIN EPOLLHUP) 42] 0 1 []
     = [(42, Z.lor EVENT_ERR EVENT_READ)].
Proof.
  split; [reflexivity|].
  destruct (event_mask_translation
              (mk_epoll_event (Z.lor EPOLLIN EPOLLHUP) 42))
    as (_ & _ & _ & _ & _ & _ & _ & _ & Hcall).
  exact (Hcall (list (Z * Z))%type (fun d m log => (d, m) :: log)
               [mk_epoll_event (Z.lor EPOLLIN EPOLLHUP) 42] 0%nat []
               eq_refl).
Defined.

(** C7.  [event_wait] skips every [epoll_wait] that fails with [EINTR] and
    answers with the first one that does not: the number of records when it
    is positive, one turn of the dispatch loop having been made for each of
    them (one call of the callback each, in the order of the records, when
    there is a callback, and nothing when there is none); 0 when
    there is no record and the timeout is not -1; -1 when there is no record
    and the timeout is -1; and -1 on any other failure. *)
Theorem event_wait_return_value :
  forall (U : Type) (evb : event_base U) (timeout : Z) (pre : kernel)
         (r : epoll_ret) (k : kernel) (u : U),
    Forall Event.interrupted pre ->
    (0 < nreturned r ->
     event_wait evb timeout (pre ++ r :: k) u
     = Some (nreturned r,
             set_event evb (store_front (stored r) (event evb)),
             dispatch (cb evb) (store_front (stored r) (event evb)) 0
                      (Z.to_nat (nreturned r)) u,
             k)
     /\ Z.of_nat (length (dispatched (store_front (stored r) (event evb)) 0
                                     (Z.to_nat (nreturned r))))
        = nreturned r
     /\ (forall f, cb evb = Some f ->
            dispatch (cb evb) (store_front (stored r) (event evb)) 0
                     (Z.to_nat (nreturned r)) u
            = run_calls f
                (dispatched (store_front (stored r) (event evb)) 0
                            (Z.to_nat (nreturned r))) u)
     /\ (cb evb = None ->
         dispatch (cb evb) (store_front (stored r) (event evb)) 0
                  (Z.to_nat (nreturned r)) u
         = u))
    /\ (nreturned r = 0 -> 0 <= timeout ->
        event_wait evb timeout (pre ++ r :: k) u = Some (0, evb, u, k))
    /\ (nreturned r = 0 -> timeout = -1 ->
        event_wait evb timeout (pre ++ r :: k) u = Some (-1, evb, u, k))
    /\ (nreturned r < 0 -> ep_errno r <> EINTR ->
        event_wait evb timeout (pre ++ r :: k) u = Some (-1, evb, u, k))
    /\ (Event.interrupted r ->
        event_wait evb timeout (pre ++ r :: k) u = event_wait evb timeout k u).
Proof.
  intros U evb timeout pre r k u Hpre.
  rewrite event_wait_skip by assumption.
  repeat match goal with |- _ /\ _ => split end.
  - intros Hpos. split; [|split; [|split]].
    + cbn [event_wait]. apply Z.ltb_lt in Hpos. rewrite Hpos. reflexivity.
    + rewrite dispatched_length. lia.
    + intros f Hf. rewrite Hf. apply dispatch_runs.
    + intros Hf. rewrite Hf. apply dispatch_no_callback.
  - intros Hz Ht. cbn [event_wait]. rewrite Hz. cbn.
    assert (E : (timeout =? -1) = false) by (apply Z.eqb_neq; lia).
    rewrite E. reflexivity.
  - intros Hz Ht. cbn [event_wait]. rewrite Hz, Ht. reflexivity.
  - intros Hneg Herr. cbn [event_wait].
    assert (E1 : (0 <? nreturned r) = false) by (apply Z.ltb_ge; lia).
    assert (E2 : (nreturned r =? 0) = false) by (apply Z.eqb_neq; lia).
    apply Z.eqb_neq in Herr. rewrite E1, E2, Herr. reflexivity.
  - intros Hi. apply event_wait_retry. exact Hi.
Qed.

(** The statement above for an indefinite wait interrupted once and then
    answered with two records: 2 is returned and the callback has run
    twice, once per record and in their order. *)
Lemma event_wait_return_value_witness :
  Forall Event.interrupted [ep_eintr]
  /\ 0 < nreturned ep_two
  /\ event_wait log_evb (-1) ([ep_eintr] ++ ep_two :: []) []
     = Some (2,
             set_event log_evb
               [mk_epoll_event EPOLLIN 11; mk_epoll_event EPOLLOUT 12;
                mk_epoll_event 0 0; mk_epoll_event 0 0],
             [(11, EVENT_READ); (12, EVENT_WRITE)],
             []).
Proof.
  assert (H1 : Forall Event.interrupted [ep_eintr]).
  { constructor; [|constructor]. split; [cbn; lia | reflexivity]. }
  assert (H2 : 0 < nreturned ep_two) by (cbn; lia).
  split; [exact H1|]. split; [exact H2|].
  exact (proj1 (proj1 (event_wait_return_value (list (Z * Z))%type log_evb (-1)
                         [ep_eintr] ep_two [] [] H1) H2)).
Defined.

(** ** The option parser *)

Section OptFacts.
Import CInt Status Libc Opt.
Local Open Scope nat_scope.

Lemma seg_nil l a : seg l a a = [].
Proof. unfold seg. rewrite Nat.sub_diag. reflexivity. Qed.

Lemma firstn_plus (m n : nat) (l : list ascii) :
  firstn (m + n) l = firstn m l ++ firstn n (skipn m l).
Proof.
  revert l. induction m as [|m IH]; intros l; [reflexivity|].
  destruct l as [|x l]; [cbn; rewrite firstn_nil; reflexivity|].
  cbn [Nat.add firstn skipn app]. rewrite IH. reflexivity.
Qed.

Lemma seg_split l a b c :
  a <= b -> b <= c -> seg l a c = seg l a b ++ seg l b c.
Proof.
  intros Hab Hbc. unfold seg.
  replace (c - a) with ((b - a) + (c - b)) by lia.
  rewrite firstn_plus, skipn_skipn.
  replace (b - a + a) with b by lia. reflexivity.
Qed.

Lemma seg_one l a :
  a < length l -> seg l a (S a) = [nth a l NUL].
Proof.
  intros H. unfold seg. replace (S a - a) with 1 by lia.
  revert a H. induction l as [|x l IH]; intros a H; [cbn in H; lia|].
  destruct a as [|a]; [reflexivity|].
  cbn [skipn nth]. apply IH. cbn in H. lia.
Qed.

Lemma seg_snoc l a b :
  a <= b -> b < length l -> seg l a (S b) = seg l a b ++ [nth b l NUL].
Proof.
  intros Hab Hb. rewrite (seg_split l a b (S b)) by lia.
  rewrite seg_one by assumption. reflexivity.
Qed.

Lemma seg_cons l a b :
  a < b -> a < length l -> seg l a b = nth a l NUL :: seg l (S a) b.
Proof.
  intros Hab Ha. rewrite (seg_split l a (S a) b) by lia.
  rewrite seg_one by assumption. reflexivity.
Qed.

Lemma seg_length l a b :
  a <= b -> b <= length l -> length (seg l a b) = b - a.
Proof.
  intros Hab Hb. unfold seg. rewrite length_firstn, length_skipn. lia.
Qed.

Lemma seg_Forall (P : ascii -> Prop) l a b :
  b <= length l ->
  (forall i, a <= i < b -> P (nth i l NUL)) ->
  Forall P (seg l a b).
Proof.
  intros Hb H. remember (b - a) as n eqn:En.
  revert a En H. induction n as [|n IH]; intros a En H.
  - unfold seg. rewrite <- En. constructor.
  - rewrite seg_cons by lia. constructor; [apply H; lia|].
    apply IH; [lia|]. intros i Hi. apply H. lia.
Qed.

Lemma seg_nth l a b i :
  b <= length l -> a + i < b -> nth i (seg l a b) NUL = nth (a + i) l NUL.
Proof.
  intros Hb Hi. unfold seg.
  rewrite nth_firstn.
  assert (E : (i <? b - a) = true) by (apply Nat.ltb_lt; lia).
  rewrite E. rewrite nth_skipn. reflexivity.
Qed.

(** The string is the segment up to its length. *)
Lemma chars_seg l : chars l = seg l 0 (strlen l).
Proof. unfold chars, seg. rewrite Nat.sub_0_r. reflexivity. Qed.

Lemma strlen_le l : strlen l <= length l.
Proof.
  induction l as [|c l IH]; [reflexivity|].
  cbn [strlen length]. destruct (is_nul c); lia.
Qed.

(** Before its length a string has no NUL; at its length it has one. *)
Lemma strlen_not_nul l i :
  i < strlen l -> is_nul (char_at l i) = false.
Proof.
  revert i. induction l as [|c l IH]; intros i Hi; [cbn in Hi; lia|].
  cbn [strlen] in Hi. destruct (is_nul c) eqn:Ec; [lia|].
  destruct i as [|i]; [exact Ec|]. apply IH. lia.
Qed.

Lemma strlen_nul l : is_nul (char_at l (strlen l)) = true.
Proof.
  induction l as [|c l IH]; [reflexivity|].
  cbn [strlen]. destruct (is_nul c) eqn:Ec; [exact Ec|]. exact IH.
Qed.

(** The length of a list without NUL. *)
Lemma strlen_no_nul l :
  Forall (fun c => is_nul c = false) l -> strlen l = length l.
Proof.
  induction 1 as [|c l Hc _ IH]; [reflexivity|].
  cbn [strlen length]. rewrite Hc, IH. reflexivity.
Qed.

Lemma chars_no_nul l : Forall (fun c => is_nul c = false) (chars l).
Proof.
  rewrite chars_seg. apply seg_Forall; [apply strlen_le|].
  intros i Hi. apply strlen_not_nul. lia.
Qed.

Lemma chars_length l : length (chars l) = strlen l.
Proof.
  rewrite chars_seg, seg_length; [lia | lia | apply strlen_le].
Qed.

End OptFacts.

Section OptLoops.
Import CInt Status Libc Opt.
Local Open Scope nat_scope.

Variable line : list ascii.

(** *** The loop that copies the name *)

Lemma name_loop_inv budget :
  forall llen p acc p' name',
    llen <= length line ->
    name_loop budget line llen p acc = Some (p', name') ->
    exists n,
      p' = p + n /\ n <= budget
      /\ (forall i, i < n ->
            name_char (char_at line (p + i))
            /\ is_colon (char_at line (p + i)) = false
            /\ p + i < llen)
      /\ (n = budget \/ is_colon (char_at line (p + n)) = true
          \/ llen <= p + n)
      /\ name' = acc ++ seg line p (p + n).
Proof.
  induction budget as [|budget IH]; intros llen p acc p' name' Hlen H.
  - cbn in H. inversion H; subst. exists 0.
    rewrite Nat.add_0_r, seg_nil, app_nil_r.
    repeat split; intros; lia.
  - cbn [name_loop] in H.
    destruct (is_colon (char_at line p)) eqn:Ec; cbn [negb andb] in H.
    { inversion H; subst. exists 0.
      rewrite Nat.add_0_r, seg_nil, app_nil_r.
      repeat split; intros; try lia; try tauto. }
    destruct (p <? llen) eqn:Ep.
    2:{ inversion H; subst. exists 0. apply Nat.ltb_ge in Ep.
        rewrite Nat.add_0_r, seg_nil, app_nil_r.
        repeat split; intros; try lia; try tauto. }
    apply Nat.ltb_lt in Ep.
    destruct (_allowed_in_name (char_at line p)) eqn:Ea; [|discriminate].
    destruct (IH llen (S p) _ p' name' Hlen H)
      as (n & Hp' & Hn & Hall & Hstop & Hname).
    exists (S n). split; [lia|]. split; [lia|]. split; [|split].
    + intros i Hi. destruct i as [|i].
      * rewrite Nat.add_0_r. repeat split; assumption.
      * replace (p + S i) with (S p + i) by lia. apply Hall. lia.
    + replace (p + S n) with (S p + n) by lia.
      destruct Hstop as [->|Hstop]; [left; reflexivity | right; exact Hstop].
    + rewrite Hname, <- app_assoc. f_equal.
      replace (p + S n) with (S p + n) by lia.
      rewrite (seg_cons line p (S p + n)) by lia. reflexivity.
Qed.

Lemma name_loop_run n :
  forall budget llen p acc,
    llen <= length line ->
    n <= budget ->
    (forall i, i < n ->
       name_char (char_at line (p + i))
       /\ is_colon (char_at line (p + i)) = false
       /\ p + i < llen) ->
    (n = budget \/ is_colon (char_at line (p + n)) = true
     \/ llen <= p + n) ->
    name_loop budget line llen p acc
    = Some (p + n, acc ++ seg line p (p + n)).
Proof.
  induction n as [|n IH]; intros budget llen p acc Hlen Hn Hall Hstop.
  - rewrite Nat.add_0_r in *. rewrite seg_nil, app_nil_r.
    destruct budget as [|budget]; [reflexivity|].
    cbn [name_loop].
    destruct Hstop as [H|[H|H]]; [lia | rewrite H; reflexivity |].
    apply Nat.ltb_ge in H. rewrite H, andb_false_r. reflexivity.
  - destruct budget as [|budget]; [lia|].
    cbn [name_loop].
    destruct (Hall 0 ltac:(lia)) as (Ha & Hc & Hl).
    rewrite Nat.add_0_r in Ha, Hc, Hl.
    apply Nat.ltb_lt in Hl. rewrite Hc, Hl. cbn [negb andb].
    unfold name_char in Ha. rewrite Ha. apply Nat.ltb_lt in Hl.
    rewrite (IH budget llen (S p)); [| assumption | lia | | ].
    + replace (S p + n) with (p + S n) by lia.
      rewrite <- app_assoc. do 2 f_equal.
      rewrite (seg_cons line p (p + S n)) by lia. reflexivity.
    + intros i Hi. replace (S p + i) with (p + S i) by lia.
      apply Hall. lia.
    + replace (S p + n) with (p + S n) by lia.
      destruct Hstop as [H|H]; [left; lia | right; exact H].
Qed.

(** *** The two loops that trim the value *)

Lemma ltrim_inv gap :
  forall p,
  exists n,
    ltrim gap line p = p + n /\ n <= gap
    /\ (forall i, i < n -> space (char_at line (p + i)))
    /\ (n = gap \/ isspace (char_at line (p + n)) = false).
Proof.
  induction gap as [|gap IH]; intros p.
  - exists 0. cbn. repeat split; intros; lia.
  - cbn [ltrim]. destruct (isspace (char_at line p)) eqn:Es.
    + destruct (IH (S p)) as (n & E & Hn & Hall & Hstop).
      exists (S n). split; [lia|]. split; [lia|]. split.
      * intros i Hi. destruct i as [|i].
        -- rewrite Nat.add_0_r. exact Es.
        -- replace (p + S i) with (S p + i) by lia. apply Hall. lia.
      * replace (p + S n) with (S p + n) by lia.
        destruct Hstop as [->|H]; [left; reflexivity | right; exact H].
    + exists 0. rewrite Nat.add_0_r.
      repeat split; intros; try lia; try (right; exact Es).
Qed.

Lemma ltrim_run n :
  forall gap p,
    n <= gap ->
    (forall i, i < n -> space (char_at line (p + i))) ->
    (n = gap \/ isspace (char_at line (p + n)) = false) ->
    ltrim gap line p = p + n.
Proof.
  induction n as [|n IH]; intros gap p Hn Hall Hstop.
  - rewrite Nat.add_0_r in *. destruct gap as [|gap]; [reflexivity|].
    cbn [ltrim]. destruct Hstop as [H|H]; [lia|]. rewrite H. reflexivity.
  - destruct gap as [|gap]; [lia|]. cbn [ltrim].
    pose proof (Hall 0 ltac:(lia)) as H0. rewrite Nat.add_0_r in H0.
    unfold space in H0. rewrite H0.
    rewrite (IH gap (S p)); [lia | lia | |].
    + intros i Hi. replace (S p + i) with (p + S i) by lia.
      apply Hall. lia.
    + replace (S p + n) with (p + S n) by lia.
      destruct Hstop as [H|H]; [left; lia | right; exact H].
Qed.

Lemma rtrim_inv room :
  forall q1,
    room <= q1 ->
    exists n,
      rtrim room line q1 = q1 - n /\ n <= room
      /\ (forall i, i < n -> space (char_at line (q1 - 1 - i)))
      /\ (n = room \/ isspace (char_at line (q1 - n - 1)) = false).
Proof.
  induction room as [|room IH]; intros q1 Hq.
  - exists 0. cbn. repeat split; intros; lia.
  - cbn [rtrim]. destruct (isspace (char_at line (q1 - 1))) eqn:Es.
    + destruct (IH (q1 - 1) ltac:(lia)) as (n & E & Hn & Hall & Hstop).
      exists (S n). split; [lia|]. split; [lia|]. split.
      * intros i Hi. destruct i as [|i].
        -- rewrite Nat.sub_0_r. exact Es.
        -- replace (q1 - 1 - S i) with (q1 - 1 - 1 - i) by lia.
           apply Hall. lia.
      * replace (q1 - S n - 1) with (q1 - 1 - n - 1) by lia.
        destruct Hstop as [->|H]; [left; reflexivity | right; exact H].
    + exists 0. rewrite !Nat.sub_0_r.
      repeat split; intros; try lia; try (right; exact Es).
Qed.

Lemma rtrim_run n :
  forall room q1,
    room <= q1 ->
    n <= room ->
    (forall i, i < n -> space (char_at line (q1 - 1 - i))) ->
    (n = room \/ isspace (char_at line (q1 - n - 1)) = false) ->
    rtrim room line q1 = q1 - n.
Proof.
  induction n as [|n IH]; intros room q1 Hq Hn Hall Hstop.
  - rewrite !Nat.sub_0_r in *. destruct room as [|room]; [reflexivity|].
    cbn [rtrim]. destruct Hstop as [H|H]; [lia|]. rewrite H. reflexivity.
  - destruct room as [|room]; [lia|]. cbn [rtrim].
    pose proof (Hall 0 ltac:(lia)) as H0. rewrite Nat.sub_0_r in H0.
    unfold space in H0. rewrite H0.
    rewrite (IH room (q1 - 1)); [lia | lia | lia | |].
    + intros i Hi. replace (q1 - 1 - 1 - i) with (q1 - 1 - S i) by lia.
      apply Hall. lia.
    + replace (q1 - 1 - n - 1) with (q1 - S n - 1) by lia.
      destruct Hstop as [H|H]; [left; lia | right; exact H].
Qed.

End OptLoops.

Section OptParse.
Import CInt Status Libc Opt.
Local Open Scope nat_scope.

(** *** Character classes *)

Ltac class_cases :=
  unfold name_char, space, _allowed_in_name, isspace, is_colon, is_hash,
    is_nul;
  intros;
  repeat match goal with
         | H : context [Nat.eqb ?a ?b] |- _ => destruct (Nat.eqb_spec a b)
         | H : context [Nat.leb ?a ?b] |- _ => destruct (Nat.leb_spec a b)
         | |- context [Nat.eqb ?a ?b] => destruct (Nat.eqb_spec a b)
         | |- context [Nat.leb ?a ?b] => destruct (Nat.leb_spec a b)
         end;
  cbn in *; try reflexivity; try discriminate; try lia.

Lemma name_char_not_colon c : name_char c -> is_colon c = false.
Proof. class_cases. Qed.

Lemma name_char_not_space c : name_char c -> isspace c = false.
Proof. class_cases. Qed.

Lemma name_char_not_hash c : name_char c -> is_hash c = false.
Proof. class_cases. Qed.

Lemma colon_not_space c : is_colon c = true -> isspace c = false.
Proof. class_cases. Qed.

Lemma colon_not_hash c : is_colon c = true -> is_hash c = false.
Proof. class_cases. Qed.

Lemma space_not_nul c : isspace c = true -> is_nul c = false.
Proof. class_cases. Qed.

Lemma hash_not_nul c : is_hash c = true -> is_nul c = false.
Proof. class_cases. Qed.

Lemma is_colon_eq c : is_colon c = true <-> c = ":"%char.
Proof.
  unfold is_colon. split.
  - intros H. apply Nat.eqb_eq in H.
    rewrite <- (ascii_nat_embedding c), H. reflexivity.
  - intros ->. reflexivity.
Qed.

(** *** The first test *)

Lemma skip_test line :
  (strlen line =? 0) || isspace (char_at line 0) || is_hash (char_at line 0)
  = true
  <-> skipped_line line.
Proof.
  unfold skipped_line. rewrite !orb_true_iff, Nat.eqb_eq. tauto.
Qed.

Lemma option_line_at_not_skipped line n p1 q1 :
  option_line_at line n p1 q1 ->
  (strlen line =? 0) || isspace (char_at line 0) || is_hash (char_at line 0)
  = false.
Proof.
  intros (Hn & Hlt & Hname & Hcolon & _).
  assert (E0 : (strlen line =? 0) = false) by (apply Nat.eqb_neq; lia).
  rewrite E0. cbn [orb]. destruct n as [|n].
  - rewrite (colon_not_space _ Hcolon), (colon_not_hash _ Hcolon).
    reflexivity.
  - pose proof (Hname 0 ltac:(lia)) as H0.
    rewrite (name_char_not_space _ H0), (name_char_not_hash _ H0).
    reflexivity.
Qed.

(** *** [option_parse] succeeds exactly on the lines of the grammar *)

Lemma option_parse_ok_at line name val :
  option_parse line = (CC_OK, name, val)
  <-> exists n p1 q1,
        option_line_at line n p1 q1
        /\ name = seg line 0 n /\ val = seg line p1 q1.
Proof.
  pose proof (strlen_le line) as Hlen. split.
  - unfold option_parse.
    destruct ((strlen line =? 0) || isspace (char_at line 0)
              || is_hash (char_at line 0)) eqn:Eskip; [discriminate|].
    apply orb_false_iff in Eskip. destruct Eskip as [Eskip _].
    apply orb_false_iff in Eskip. destruct Eskip as [E0 _].
    apply Nat.eqb_neq in E0.
    destruct (OPTLINE_MAXLEN <? strlen line) eqn:Elong; [discriminate|].
    apply Nat.ltb_ge in Elong.
    destruct (name_loop (S OPTNAME_MAXLEN) line (strlen line) 0 [])
      as [[p nm]|] eqn:Eloop; [|discriminate].
    destruct (name_loop_inv line _ _ _ _ _ _ Hlen Eloop)
      as (n & Hp & Hn & Hall & Hstop & Hnm).
    cbn [Nat.add] in Hp, Hall, Hstop, Hnm. cbn [app] in Hnm. subst p nm.
    destruct (n =? strlen line) eqn:Eend; [discriminate|].
    apply Nat.eqb_neq in Eend.
    destruct (OPTNAME_MAXLEN <? n) eqn:Ebig; [discriminate|].
    apply Nat.ltb_ge in Ebig.
    assert (Hnl : n < strlen line).
    { destruct n as [|n]; [lia|].
      pose proof (Hall n ltac:(lia)) as (_ & _ & H). lia. }
    assert (Hcolon : is_colon (char_at line n) = true).
    { destruct Hstop as [H|[H|H]]; [lia | exact H | lia]. }
    destruct (ltrim_inv line (strlen line - 1 - S n) (S n))
      as (m1 & E1 & Hm1 & Hsp1 & Hstop1).
    rewrite E1. remember (S n + m1) as p1 eqn:Hp1d.
    replace (strlen line - 1 + 1) with (strlen line) by lia.
    destruct (rtrim_inv line (strlen line - p1) (strlen line) ltac:(lia))
      as (m2 & E2 & Hm2 & Hsp2 & Hstop2).
    rewrite E2. remember (strlen line - m2) as q1 eqn:Hq1d.
    destruct (q1 <=? p1) eqn:Eempty; [discriminate|].
    apply Nat.leb_gt in Eempty.
    destruct (OPTVAL_MAXLEN <? q1 - p1) eqn:Eval; [discriminate|].
    apply Nat.ltb_ge in Eval.
    intros H. inversion H; subst name val. clear H.
    exists n, p1, q1. split; [|split; reflexivity].
    unfold option_line_at.
    repeat match goal with |- _ /\ _ => split end;
      try assumption; try lia.
    + intros i Hi. apply (Hall i Hi).
    + intros i Hi. replace i with (S n + (i - S n)) by lia.
      apply Hsp1. lia.
    + intros i Hi.
      replace i with (strlen line - 1 - (strlen line - 1 - i)) by lia.
      apply Hsp2. lia.
    + destruct Hstop1 as [Hg|Hns]; [|exact Hns].
      assert (Hp1 : p1 = strlen line - 1) by lia.
      assert (Hm20 : m2 = 0) by lia.
      destruct Hstop2 as [Hr|Hns]; [lia|].
      replace p1 with (q1 - 1) by lia. exact Hns.
    + destruct Hstop2 as [Hr|Hns]; [lia|exact Hns].
  - intros (n & p1 & q1 & Hat & -> & ->).
    pose proof (option_line_at_not_skipped _ _ _ _ Hat) as Eskip.
    destruct Hat as (Hn & Hnl & Hname & Hcolon & Hp1 & Hsp1 & Hq1 & Hsp2
                     & Hns1 & Hns2 & Hvl & Hll).
    unfold option_parse. rewrite Eskip.
    assert (Elong : (OPTLINE_MAXLEN <? strlen line) = false)
      by (apply Nat.ltb_ge; lia).
    rewrite Elong.
    rewrite (name_loop_run line n (S OPTNAME_MAXLEN) (strlen line) 0 []);
      [| assumption | lia | | right; left; exact Hcolon].
    2:{ intros i Hi. cbn [Nat.add]. split; [apply Hname; exact Hi|].
        split; [apply name_char_not_colon, Hname; exact Hi | lia]. }
    cbn [Nat.add app].
    assert (Eend : (n =? strlen line) = false) by (apply Nat.eqb_neq; lia).
    assert (Ebig : (OPTNAME_MAXLEN <? n) = false) by (apply Nat.ltb_ge; lia).
    rewrite Eend, Ebig.
    rewrite (ltrim_run line (p1 - S n)); [| lia | | right].
    2:{ intros i Hi. apply Hsp1. lia. }
    2:{ replace (S n + (p1 - S n)) with p1 by lia. exact Hns1. }
    replace (S n + (p1 - S n)) with p1 by lia.
    replace (strlen line - 1 + 1) with (strlen line) by lia.
    rewrite (rtrim_run line (strlen line - q1)); [| lia | lia | | right].
    2:{ intros i Hi. apply Hsp2. lia. }
    2:{ replace (strlen line - (strlen line - q1) - 1) with (q1 - 1) by lia.
        exact Hns2. }
    replace (strlen line - (strlen line - q1)) with q1 by lia.
    assert (Eempty : (q1 <=? p1) = false) by (apply Nat.leb_gt; lia).
    assert (Eval : (OPTVAL_MAXLEN <? q1 - p1) = false)
      by (apply Nat.ltb_ge; lia).
    rewrite Eempty, Eval. reflexivity.
Qed.

End OptParse.

Section OptGrammar.
Import CInt Status Libc Opt.
Local Open Scope nat_scope.

Lemma char_at_chars l i :
  i < strlen l -> char_at l i = nth i (chars l) NUL.
Proof.
  intros Hi. unfold char_at, chars. rewrite nth_firstn.
  apply Nat.ltb_lt in Hi. rewrite Hi. reflexivity.
Qed.

Lemma seg_chars l a b :
  b <= strlen l -> seg l a b = seg (chars l) a b.
Proof.
  intros Hb. unfold seg, chars.
  rewrite !firstn_skipn_comm, firstn_firstn.
  destruct (Nat.le_gt_cases a b) as [Hab|Hab].
  - replace (Init.Nat.min (a + (b - a)) (strlen l)) with (a + (b - a))
      by lia. reflexivity.
  - replace (b - a) with 0 by lia. rewrite Nat.add_0_r.
    rewrite !skipn_all2; [reflexivity | |];
      rewrite length_firstn; lia.
Qed.

Lemma seg_app_mid (x y z : list ascii) :
  seg (x ++ y ++ z) (length x) (length x + length y) = y.
Proof.
  unfold seg. replace (length x + length y - length x) with (length y) by lia.
  rewrite skipn_app, skipn_all, Nat.sub_diag. cbn [skipn app].
  rewrite firstn_app, firstn_all, Nat.sub_diag. cbn [firstn].
  apply app_nil_r.
Qed.

Lemma seg_app_front (x z : list ascii) :
  seg (x ++ z) 0 (length x) = x.
Proof. apply (seg_app_mid [] x z). Qed.

Lemma hd_seg l a b :
  a < b -> b <= length l -> hd NUL (seg l a b) = nth a l NUL.
Proof. intros Hab Hb. rewrite seg_cons by lia. reflexivity. Qed.

Lemma last_seg l a b :
  a < b -> b <= length l -> last (seg l a b) NUL = nth (b - 1) l NUL.
Proof.
  intros Hab Hb. replace b with (S (b - 1)) at 1 by lia.
  rewrite seg_snoc by lia. apply last_last.
Qed.

Lemma last_is_nth (l : list ascii) :
  l <> [] -> last l NUL = nth (length l - 1) l NUL.
Proof.
  intros Hne. destruct (exists_last Hne) as (l' & x & ->).
  rewrite last_last, length_app. cbn [length].
  replace (length l' + 1 - 1) with (length l' + 0) by lia.
  rewrite app_nth2_plus. reflexivity.
Qed.

Lemma hd_is_nth (l : list ascii) : hd NUL l = nth 0 l NUL.
Proof. destruct l; reflexivity. Qed.

Lemma Forall_nth_at (P : ascii -> Prop) (l : list ascii) i :
  Forall P l -> i < length l -> P (nth i l NUL).
Proof. intros H Hi. apply (proj1 (Forall_nth P l) H i NUL Hi). Qed.

(** The grammar, by decomposition of the line and by offsets. *)
Lemma option_line_positions line name val :
  option_line line name val
  <-> exists n p1 q1,
        option_line_at line n p1 q1
        /\ name = seg line 0 n /\ val = seg line p1 q1.
Proof.
  pose proof (strlen_le line) as Hle.
  pose proof (chars_length line) as Hcl.
  split.
  - intros (ws1 & ws2 & Hdec & Hname & Hnl & Hws1 & Hws2 & Hne & Hhd & Hlast
            & Hvl & Hll).
    assert (Hlen : strlen line
                   = length name + 1 + length ws1 + length val + length ws2).
    { rewrite <- Hcl, Hdec, length_app. cbn [length].
      rewrite !length_app. lia. }
    assert (Hval : 0 < length val) by (destruct val; [congruence | cbn; lia]).
    assert (Hnth : forall i, i < strlen line ->
               char_at line i
               = nth i (name ++ [":"%char] ++ ws1 ++ val ++ ws2) NUL).
    { intros i Hi. rewrite char_at_chars by assumption. rewrite Hdec.
      reflexivity. }
    exists (length name), (length name + 1 + length ws1),
      (length name + 1 + length ws1 + length val).
    split; [|split].
    + unfold option_line_at.
      repeat match goal with |- _ /\ _ => split end; try lia.
      * intros i Hi. rewrite Hnth by lia. rewrite app_nth1 by assumption.
        apply Forall_nth_at; assumption.
      * rewrite Hnth by lia.
        replace (length name) with (length name + 0) at 1 by lia.
        rewrite app_nth2_plus. reflexivity.
      * intros i Hi. rewrite Hnth by lia.
        replace i with (length name + (1 + (i - S (length name)))) by lia.
        rewrite app_nth2_plus.
        change 1 with (length [":"%char]) at 1.
        rewrite app_nth2_plus, app_nth1 by lia.
        apply Forall_nth_at; [assumption | lia].
      * intros i Hi. rewrite Hnth by lia.
        replace i with
          (length name
           + (1 + (length ws1
                   + (length val
                      + (i - (length name + 1 + length ws1 + length val))))))
          by lia.
        rewrite app_nth2_plus.
        change 1 with (length [":"%char]) at 1.
        rewrite !app_nth2_plus.
        apply Forall_nth_at; [assumption | lia].
      * rewrite Hnth by lia.
        replace (length name + 1 + length ws1)
          with (length name + (1 + (length ws1 + 0))) by lia.
        rewrite app_nth2_plus.
        change 1 with (length [":"%char]) at 1.
        rewrite !app_nth2_plus, app_nth1 by lia.
        rewrite <- hd_is_nth. exact Hhd.
      * rewrite Hnth by lia.
        replace (length name + 1 + length ws1 + length val - 1)
          with (length name + (1 + (length ws1 + (length val - 1)))) by lia.
        rewrite app_nth2_plus.
        change 1 with (length [":"%char]) at 1.
        rewrite !app_nth2_plus, app_nth1 by lia.
        rewrite <- last_is_nth by assumption. exact Hlast.
    + rewrite seg_chars by lia. rewrite Hdec. symmetry.
      apply seg_app_front.
    + rewrite seg_chars by lia. rewrite Hdec.
      replace (name ++ ":"%char :: ws1 ++ val ++ ws2)
        with ((name ++ ":"%char :: ws1) ++ val ++ ws2)
        by (rewrite <- app_assoc; reflexivity).
      replace (length name + 1 + length ws1)
        with (length (name ++ ":"%char :: ws1))
        by (rewrite length_app; cbn [length]; lia).
      symmetry. apply seg_app_mid.
  - intros (n & p1 & q1 & Hat & -> & ->).
    destruct Hat as (Hn & Hnl & Hname & Hcolon & Hp1 & Hsp1 & Hq1 & Hsp2
                     & Hns1 & Hns2 & Hvl & Hll).
    exists (seg line (S n) p1), (seg line q1 (strlen line)).
    repeat match goal with |- _ /\ _ => split end.
    + rewrite chars_seg.
      rewrite (seg_split line 0 n (strlen line)) by lia. f_equal.
      rewrite (seg_cons line n (strlen line)) by lia.
      apply is_colon_eq in Hcolon. unfold char_at in Hcolon.
      rewrite Hcolon. f_equal.
      rewrite (seg_split line (S n) p1 (strlen line)) by lia. f_equal.
      apply seg_split; lia.
    + apply seg_Forall; [lia|]. intros i Hi. apply Hname. lia.
    + rewrite seg_length by lia. lia.
    + apply seg_Forall; [lia|]. intros i Hi. apply Hsp1. lia.
    + apply seg_Forall; [lia|]. intros i Hi. apply Hsp2. lia.
    + intros E. apply (f_equal (@length ascii)) in E.
      rewrite seg_length in E by lia. cbn in E. lia.
    + rewrite hd_seg by lia. exact Hns1.
    + rewrite last_seg by lia. exact Hns2.
    + rewrite seg_length by lia. exact Hvl.
    + exact Hll.
Qed.

(** [option_parse] returns [CC_OK] with [name] and [val] exactly on the
    lines that the grammar splits into [name] and [val]. *)
Lemma option_parse_ok line name val :
  option_parse line = (CC_OK, name, val) <-> option_line line name val.
Proof.
  rewrite option_parse_ok_at, option_line_positions. reflexivity.
Qed.

End OptGrammar.

(** ** [strtoumax] on decimal numerals *)

Section Decimal.
Import CInt Status Libc Opt.
Local Open Scope nat_scope.

Lemma is_decimal_digit c :
  is_decimal c = true ->
  digit_val c = Some (Z.of_nat (nat_of_ascii c - 48))
  /\ (Z.of_nat (nat_of_ascii c - 48) <? 10)%Z = true
  /\ isspace c = false /\ is_nul c = false
  /\ (nat_of_ascii c =? 45) = false /\ (nat_of_ascii c =? 43) = false.
Proof.
  unfold is_decimal, digit_val, isspace, is_nul. intros H.
  apply andb_true_iff in H. destruct H as [H1 H2]. rewrite H1, H2.
  apply Nat.leb_le in H1. apply Nat.leb_le in H2. cbn [andb].
  repeat split.
  - apply Z.ltb_lt. lia.
  - destruct (Nat.eqb_spec (nat_of_ascii c) 32); [lia|].
    destruct (Nat.leb_spec 9 (nat_of_ascii c)); [|reflexivity].
    destruct (Nat.leb_spec (nat_of_ascii c) 13); [lia|reflexivity].
  - apply Nat.eqb_neq. lia.
  - apply Nat.eqb_neq. lia.
  - apply Nat.eqb_neq. lia.
Qed.

Lemma span_digits_decimal ds :
  forall acc,
    Forall (fun c => is_decimal c = true) ds ->
    span_digits 10 ds acc = (decimal_value ds acc, length ds).
Proof.
  induction ds as [|c ds IH]; intros acc H; [reflexivity|].
  inversion H as [|c' ds' Hc Hds]; subst.
  destruct (is_decimal_digit c Hc) as (Hd & Hlt & _).
  cbn [span_digits decimal_value length]. rewrite Hd, Hlt, IH by assumption.
  reflexivity.
Qed.

Lemma decimal_strlen s :
  Forall (fun c => is_decimal c = true) s -> strlen s = length s.
Proof.
  intros H. apply strlen_no_nul.
  eapply Forall_impl; [|exact H]. intros c Hc.
  apply (is_decimal_digit c Hc).
Qed.

Lemma strtoumax_decimal s :
  decimal_numeral s ->
  strtoumax s
  = ((if (UINTMAX_MAX <? decimal_value s 0)%Z
      then UINTMAX_MAX else decimal_value s 0),
     length s)
  /\ strlen s = length s.
Proof.
  intros (Hall & c & s' & -> & Hnz).
  split; [|apply decimal_strlen; exact Hall].
  pose proof (span_digits_decimal (c :: s') 0%Z Hall) as Hspan.
  inversion Hall as [|c0 l0 Hc Hs']; subst.
  destruct (is_decimal_digit c Hc) as (_ & _ & Hsp & _ & Hm & Hp).
  apply Nat.eqb_neq in Hnz.
  unfold strtoumax. cbn [span_space]. rewrite Hsp. cbn [skipn].
  rewrite Hm, Hp. cbn [skipn].
  assert (Hbase :
            match c :: s' with
            | z :: x :: h :: _ =>
                if (nat_of_ascii z =? 48)
                   && ((nat_of_ascii x =? 120) || (nat_of_ascii x =? 88))
                   && is_digit_in 16 h
                then (16%Z, 2)
                else if nat_of_ascii z =? 48 then (8%Z, 0) else (10%Z, 0)
            | [z] | [z; _] =>
                if nat_of_ascii z =? 48 then (8%Z, 0) else (10%Z, 0)
            | [] => (10%Z, 0)
            end = (10%Z, 0)).
  { destruct s' as [|x [|h t]]; rewrite Hnz; reflexivity. }
  rewrite Hbase. cbn [skipn]. rewrite Hspan. cbn [length Nat.eqb Nat.add].
  destruct (UINTMAX_MAX <? decimal_value (c :: s') 0)%Z; reflexivity.
Qed.

End Decimal.

(** ** Properties of the option module *)

Import Libc Opt.

Lemma option_parse_status (line : list ascii) :
  (fst (fst (option_parse line)) = CC_EEMPTY /\ skipped_line line)
  \/ (~ skipped_line line
      /\ (fst (fst (option_parse line)) = CC_OK
          \/ fst (fst (option_parse line)) = CC_ERROR)).
Proof.
  unfold option_parse.
  destruct ((strlen line =? 0)%nat || isspace (char_at line 0)
            || is_hash (char_at line 0)) eqn:Eskip.
  - left. split; [reflexivity|]. apply skip_test. exact Eskip.
  - right. split.
    + intros H. apply skip_test in H. congruence.
    + destruct (OPTLINE_MAXLEN <? strlen line)%nat; [right; reflexivity|].
      destruct (name_loop (S OPTNAME_MAXLEN) line (strlen line) 0 [])
        as [[p nm]|]; [|right; reflexivity].
      destruct (p =? strlen line)%nat; [right; reflexivity|].
      destruct (OPTNAME_MAXLEN <? p)%nat; [right; reflexivity|].
      match goal with
      | |- context [if ?b then _ else _] =>
          destruct b; [right; reflexivity|]
      end.
      match goal with
      | |- context [if ?b then _ else _] =>
          destruct b; [right; reflexivity | left; reflexivity]
      end.
Qed.

Lemma comment_line_skipped (line : list ascii) :
  comment_line line -> skipped_line line.
Proof.
  unfold comment_line, skipped_line.
  pose proof (chars_length line) as Hcl.
  destruct (Nat.eq_dec (strlen line) 0) as [Hz|Hnz]; [tauto|].
  assert (Hc : char_at line 0 = hd NUL (chars line)).
  { rewrite char_at_chars by lia. symmetry. apply hd_is_nth. }
  intros [H|[H|H]].
  - rewrite H in Hcl. cbn in Hcl. lia.
  - right. left. rewrite Hc.
    destruct (chars line) as [|c l]; [cbn in Hcl; lia|].
    inversion H; subst. assumption.
  - right. right. rewrite Hc. exact H.
Qed.

(** C8, as the code has it.  [option_parse] returns [CC_EEMPTY] exactly for
    the lines that are empty or whose first character is white space or
    ['#']; every empty, white-space-only or ['#'] line is one of them, and
    [option_load_file] goes on to the next line without setting an option.
    It returns [CC_OK], with the name and the value, exactly for the lines
    of the form [name ':' WS* value WS*] within the limits on the lengths,
    the value being trimmed of white space on both sides; any other line
    that is not skipped gives [CC_ERROR]. *)
Theorem option_parse_classification :
  forall line : list ascii,
    (fst (fst (option_parse line)) = CC_EEMPTY <-> skipped_line line)
    /\ (comment_line line -> skipped_line line)
    /\ (skipped_line line ->
        forall valbuf rest fe options,
          option_load_file valbuf (line :: rest) fe options
          = option_load_file valbuf rest fe options)
    /\ (forall name val,
           option_parse line = (CC_OK, name, val)
           <-> option_line line name val)
    /\ (~ skipped_line line ->
        fst (fst (option_parse line)) = CC_OK
        \/ fst (fst (option_parse line)) = CC_ERROR).
Proof.
  intros line.
  assert (Ha : fst (fst (option_parse line)) = CC_EEMPTY <-> skipped_line line).
  { destruct (option_parse_status line) as [[E Hs]|[Hs [E|E]]];
      rewrite E; unfold CC_EEMPTY, CC_OK, CC_ERROR;
      split; intros H; try reflexivity; try assumption;
      try discriminate; contradiction. }
  split; [exact Ha|]. split; [apply comment_line_skipped|].
  split; [|split].
  - intros Hs valbuf rest fe options. apply Ha in Hs.
    cbn [option_load_file].
    destruct (option_parse line) as [[status nm] v]. cbn in Hs.
    rewrite Hs. reflexivity.
  - intros name val. apply option_parse_ok.
  - intros Hs. destruct (option_parse_status line) as [[_ H]|[_ H]];
      [contradiction | exact H].
Qed.

(** C8 as stated fails: a line that starts with white space and goes on with
    an option is neither empty, nor white space only, nor a ['#'] line, and
    [option_parse] still returns [CC_EEMPTY] for it, where the same line
    without the leading blank sets option [a] to [1]. *)
Lemma indented_option_is_skipped :
  ~ comment_line (cstr " a: 1")
  /\ option_parse (cstr " a: 1") = (CC_EEMPTY, [], [])
  /\ option_parse (cstr "a: 1") = (CC_OK, cstr "a", cstr "1").
Proof.
  split; [|split; reflexivity].
  intros [H|[H|H]].
  - discriminate H.
  - vm_compute in H. inversion H as [|c l _ Hrest]; subst.
    inversion Hrest as [|c' l' Ha _]; subst. discriminate Ha.
  - discriminate H.
Qed.

(** C9.  For an option of type [OPTION_TYPE_UINT] and a string,
    [option_set] returns [CC_ERROR] and leaves the option as it was, its
    value and its [set] flag included, whenever [strtoumax] gives
    [UINTMAX_MAX] for the string; whenever [strtoumax] gives a value below
    [UINTMAX_MAX] and consumes the whole string it returns [CC_OK] and the
    option then has that value in [val.vuint], has [set] true, and is
    otherwise as it was.  In particular, of the decimal numerals, the one
    that denotes [UINTMAX_MAX] is refused although it is no overflow, every
    one that denotes a smaller number is stored with that number, and every
    one that denotes a larger number is refused. *)
Theorem option_set_uint_max :
  forall (opt : cc_option) (a : Z) (val_str : list ascii),
    Opt.type opt = OPTION_TYPE_UINT ->
    (fst (strtoumax val_str) = UINTMAX_MAX ->
     option_set opt (ptr a val_str) = Some (CC_ERROR, opt))
    /\ ((fst (strtoumax val_str) < UINTMAX_MAX)%Z ->
        (strlen val_str <= snd (strtoumax val_str))%nat ->
        exists opt',
          option_set opt (ptr a val_str) = Some (CC_OK, opt')
          /\ val opt' = vuint (fst (strtoumax val_str))
          /\ Opt.set opt' = true
          /\ Wf.same_decl opt opt')
    /\ (decimal_numeral val_str ->
        (decimal_value val_str 0 = UINTMAX_MAX ->
         option_set opt (ptr a val_str) = Some (CC_ERROR, opt))
        /\ ((decimal_value val_str 0 < UINTMAX_MAX)%Z ->
            exists opt',
              option_set opt (ptr a val_str) = Some (CC_OK, opt')
              /\ val opt' = vuint (decimal_value val_str 0)
              /\ Opt.set opt' = true
              /\ Wf.same_decl opt opt')
        /\ ((UINTMAX_MAX < decimal_value val_str 0)%Z ->
            option_set opt (ptr a val_str) = Some (CC_ERROR, opt)))
    /\ decimal_numeral (cstr "18446744073709551615")
    /\ decimal_value (cstr "18446744073709551615") 0 = UINTMAX_MAX.
Proof.
  intros opt a val_str Ht.
  assert (Hmax : fst (strtoumax val_str) = UINTMAX_MAX ->
                 option_set opt (ptr a val_str) = Some (CC_ERROR, opt)).
  { intros H. unfold option_set, _option_parse_uint. rewrite Ht.
    destruct (strtoumax val_str) as [v e]. cbn [fst] in H.
    rewrite H, Z.eqb_refl. reflexivity. }
  assert (Hlow : (fst (strtoumax val_str) < UINTMAX_MAX)%Z ->
                 (strlen val_str <= snd (strtoumax val_str))%nat ->
                 exists opt',
                   option_set opt (ptr a val_str) = Some (CC_OK, opt')
                   /\ val opt' = vuint (fst (strtoumax val_str))
                   /\ Opt.set opt' = true
                   /\ Wf.same_decl opt opt').
  { intros Hlt Hall. unfold option_set, _option_parse_uint. rewrite Ht.
    destruct (strtoumax val_str) as [v e]. cbn [fst snd] in Hlt, Hall |- *.
    assert (E1 : (v =? UINTMAX_MAX)%Z = false) by (apply Z.eqb_neq; lia).
    assert (E2 : (e <? strlen val_str)%nat = false)
      by (apply Nat.ltb_ge; exact Hall).
    rewrite E1, E2. eexists. split; [reflexivity|]. repeat split. }
  split; [exact Hmax|]. split; [exact Hlow|]. split; [|split].
  - intros Hnum. destruct (strtoumax_decimal val_str Hnum) as [E Elen].
    rewrite E in Hmax, Hlow. cbn [fst snd] in Hmax, Hlow.
    rewrite Elen in Hlow. split; [|split].
    + intros Hv. apply Hmax. rewrite Hv, Z.ltb_irrefl. reflexivity.
    + intros Hv.
      assert (E1 : (UINTMAX_MAX <? decimal_value val_str 0)%Z = false)
        by (apply Z.ltb_ge; lia).
      rewrite E1 in Hlow. apply Hlow; [exact Hv | apply Nat.le_refl].
    + intros Hv. apply Z.ltb_lt in Hv. rewrite Hv in Hmax.
      apply Hmax. reflexivity.
  - split; [repeat constructor|].
    eexists _, _. split; [reflexivity|]. cbn. discriminate.
  - vm_compute. reflexivity.
Qed.

(** The statement above on a comment line, which [option_load_file] passes
    over, and on the first line of a configuration file. *)
Lemma option_parse_classification_witness :
  skipped_line (cstr "# listen queue")
  /\ option_load_file a_valbuf [cstr "# listen queue"] 0 [backlog_opt]
     = option_load_file a_valbuf [] 0 [backlog_opt]
  /\ option_line (cstr "tcp_backlog: 256") (cstr "tcp_backlog") (cstr "256").
Proof.
  assert (H1 : skipped_line (cstr "# listen queue"))
    by (right; right; reflexivity).
  split; [exact H1|]. split.
  - exact (proj1 (proj2 (proj2
             (option_parse_classification (cstr "# listen queue"))))
             H1 a_valbuf [] 0%Z [backlog_opt]).
  - exact (proj1 (proj1 (proj2 (proj2 (proj2
             (option_parse_classification (cstr "tcp_backlog: 256")))))
             (cstr "tcp_backlog") (cstr "256")) eq_refl).
Defined.

(** The statement above on the numeral just below [UINTMAX_MAX], which is
    stored. *)
Lemma option_set_uint_max_witness :
  Opt.type backlog_opt = OPTION_TYPE_UINT
  /\ (fst (strtoumax (cstr "18446744073709551614")) < UINTMAX_MAX)%Z
  /\ (strlen (cstr "18446744073709551614")
      <= snd (strtoumax (cstr "18446744073709551614")))%nat
  /\ exists opt',
       option_set backlog_opt (ptr a_valbuf (cstr "18446744073709551614"))
       = Some (CC_OK, opt')
       /\ val opt' = vuint (fst (strtoumax (cstr "18446744073709551614")))
       /\ Opt.set opt' = true
       /\ Wf.same_decl backlog_opt opt'.
Proof.
  assert (H1 : Opt.type backlog_opt = OPTION_TYPE_UINT) by reflexivity.
  assert (H2 : (fst (strtoumax (cstr "18446744073709551614")) < UINTMAX_MAX)%Z)
    by (vm_compute; reflexivity).
  assert (H3 : (strlen (cstr "18446744073709551614")
                <= snd (strtoumax (cstr "18446744073709551614")))%nat)
    by (vm_compute; lia).
  split; [exact H1|]. split; [exact H2|]. split; [exact H3|].
  exact (proj1 (proj2 (option_set_uint_max backlog_opt a_valbuf
                         (cstr "18446744073709551614") H1)) H2 H3).
Defined.

(** ** Interrupted calls at the stream layer *)

(** Calls that fail with [EINTR] before the one that settles leave no trace
    at the stream layer: whenever [stream_read] or [stream_write] on a TCP
    stream gets as far as the socket, it gives the status, the stream and the
    remaining script that it gives without the interrupted calls. *)
Lemma stream_eintr_transparent :
  forall (h : stream_handler_t) (s : stream) (nbyte : Z) (pre sock : socket),
    Forall Nio.interrupted pre ->
    (Stream.type (call_hook (pre_read h) s nbyte) = CHANNEL_TCP ->
     nbyte <= mbuf_wsize (rbuf (call_hook (pre_read h) s nbyte)) ->
     stream_read h s nbyte (pre ++ sock) = stream_read h s nbyte sock)
    /\ (Stream.type (call_hook (pre_write h) s nbyte) = CHANNEL_TCP ->
        mbuf_rsize (wbuf (call_hook (pre_write h) s nbyte)) <> 0 ->
        stream_write h s nbyte (pre ++ sock) = stream_write h s nbyte sock).
Proof.
  intros h s nbyte pre sock Hpre. split.
  - intros Ht Hcap. unfold stream_read. apply Z.ltb_ge in Hcap.
    rewrite Hcap, Ht, conn_recv_skip by assumption. reflexivity.
  - intros Ht Hne. unfold stream_write. apply Z.eqb_neq in Hne.
    rewrite Hne, Ht, conn_send_skip by assumption. reflexivity.
Qed.

(** The statement above for a read of 5 bytes after two interrupted calls. *)
Lemma stream_eintr_transparent_witness :
  Forall Nio.interrupted [eintr; eintr]
  /\ Stream.type (call_hook (pre_read no_hooks) tcp_stream 64) = CHANNEL_TCP
  /\ 64 <= mbuf_wsize (rbuf (call_hook (pre_read no_hooks) tcp_stream 64))
  /\ stream_read no_hooks tcp_stream 64 ([eintr; eintr] ++ [moved 5])
     = stream_read no_hooks tcp_stream 64 [moved 5].
Proof.
  assert (H1 : Forall Nio.interrupted [eintr; eintr]).
  { repeat constructor; cbn; lia. }
  assert (H2 : Stream.type (call_hook (pre_read no_hooks) tcp_stream 64)
               = CHANNEL_TCP) by reflexivity.
  assert (H3 : 64 <= mbuf_wsize
                       (rbuf (call_hook (pre_read no_hooks) tcp_stream 64)))
    by (vm_compute; discriminate).
  split; [exact H1|]. split; [exact H2|]. split; [exact H3|].
  exact (proj1 (stream_eintr_transparent no_hooks tcp_stream 64 [eintr; eintr]
                  [moved 5] H1) H2 H3).
Defined.

(** * Further properties *)

(** ** Connections: what a call changes and what it leaves alone *)

Import Wf.

(** [conn_recv] changes nothing but [recv_ready], [recv_nbyte], [state] and
    [err]: the byte counter grows by the count returned (modulo the width of
    [size_t]) and otherwise keeps its value, the state changes only on a
    return of 0, to [CONN_EOF], and [err] changes only on [CC_ERROR]; the
    value returned is a count, 0 or one of the two sentinels. *)
Lemma conn_recv_frame :
  forall (c : conn) (nbyte : Z) (sock : socket) (k : Z) (c' : conn)
         (sock' : socket),
    conn_recv c nbyte sock = Some (k, c', sock') ->
    sd c' = sd c /\ family c' = family c /\ mode c' = mode c
    /\ flags c' = flags c /\ recv_active c' = recv_active c
    /\ send_active c' = send_active c
    /\ send_ready c' = send_ready c /\ send_nbyte c' = send_nbyte c
    /\ recv_nbyte c'
       = (if 0 <? k then size_wrap (recv_nbyte c + k) else recv_nbyte c)
    /\ Nio.state c' = (if k =? 0 then CONN_EOF else Nio.state c)
    /\ (k <> CC_ERROR -> err c' = err c)
    /\ (k = CC_ERROR \/ k = CC_EAGAIN \/ 0 <= k).
Proof.
  intros c nbyte sock. induction sock as [|r sock IH]; intros k c' sock' H;
    [discriminate|].
  cbn [conn_recv] in H.
  destruct (0 <? ret r) eqn:Hp.
  - inversion H; subst. rewrite Hp. apply Z.ltb_lt in Hp.
    assert (E : (ret r =? 0) = false) by (apply Z.eqb_neq; lia). rewrite E.
    destruct (ret r <? ssize_of_size nbyte); cbn;
      repeat split; intros; try reflexivity; lia.
  - destruct (ret r =? 0) eqn:Hz.
    + apply Z.eqb_eq in Hz. inversion H; subst. rewrite Hz. cbn.
      repeat split; intros; try reflexivity; lia.
    + destruct (errno r =? EINTR); [exact (IH _ _ _ H)|].
      destruct ((errno r =? EAGAIN) || (errno r =? EWOULDBLOCK));
        inversion H; subst; cbn;
        repeat split; intros; try reflexivity;
        unfold CC_ERROR, CC_EAGAIN in *; try lia; congruence.
Qed.

Lemma conn_recv_frame_witness :
  conn_recv live_conn 64 [eintr; moved 10] 
  = Some (10, set_recv_nbyte (set_recv_ready live_conn false) 10, [])
  /\ send_ready (set_recv_nbyte (set_recv_ready live_conn false) 10)
     = send_ready live_conn
  /\ recv_nbyte (set_recv_nbyte (set_recv_ready live_conn false) 10)
     = (if 0 <? 10 then size_wrap (recv_nbyte live_conn + 10)
        else recv_nbyte live_conn).
Proof.
  assert (H : conn_recv live_conn 64 [eintr; moved 10]
              = Some (10, set_recv_nbyte (set_recv_ready live_conn false) 10,
                      [])) by reflexivity.
  split; [exact H|].
  destruct (conn_recv_frame _ _ _ _ _ _ H)
    as (_ & _ & _ & _ & _ & _ & H1 & _ & H2 & _).
  split; [exact H1 | exact H2].
Defined.

(** [conn_send] changes nothing but [send_ready], [send_nbyte] and [err]; in
    particular it never changes the state of the connection and never
    touches the receive side. *)
Lemma conn_send_frame :
  forall (c : conn) (nbyte : Z) (sock : socket) (k : Z) (c' : conn)
         (sock' : socket),
    conn_send c nbyte sock = Some (k, c', sock') ->
    sd c' = sd c /\ family c' = family c /\ mode c' = mode c
    /\ flags c' = flags c /\ recv_active c' = recv_active c
    /\ send_active c' = send_active c
    /\ recv_ready c' = recv_ready c /\ recv_nbyte c' = recv_nbyte c
    /\ Nio.state c' = Nio.state c
    /\ send_nbyte c'
       = (if 0 <? k then size_wrap (send_nbyte c + k) else send_nbyte c)
    /\ (k <> CC_ERROR -> err c' = err c)
    /\ (k = CC_ERROR \/ k = CC_EAGAIN \/ 0 <= k).
Proof.
  intros c nbyte sock. induction sock as [|r sock IH]; intros k c' sock' H;
    [discriminate|].
  cbn [conn_send] in H.
  destruct (0 <? ret r) eqn:Hp.
  - inversion H; subst. rewrite Hp. apply Z.ltb_lt in Hp.
    destruct (ret r <? ssize_of_size nbyte); cbn;
      repeat split; intros; try reflexivity; lia.
  - destruct (ret r =? 0) eqn:Hz.
    + inversion H; subst. cbn.
      repeat split; intros; try reflexivity; lia.
    + destruct (errno r =? EINTR); [exact (IH _ _ _ H)|].
      destruct ((errno r =? EAGAIN) || (errno r =? EWOULDBLOCK));
        inversion H; subst; cbn;
        repeat split; intros; try reflexivity;
        unfold CC_ERROR, CC_EAGAIN in *; try lia; congruence.
Qed.

Lemma conn_send_frame_witness :
  conn_send eof_conn 64 [eintr; econnreset]
  = Some (CC_ERROR, set_err (set_send_ready eof_conn false) 104, [])
  /\ Nio.state (set_err (set_send_ready eof_conn false) 104)
     = Nio.state eof_conn
  /\ recv_ready (set_err (set_send_ready eof_conn false) 104)
     = recv_ready eof_conn.
Proof.
  assert (H : conn_send eof_conn 64 [eintr; econnreset]
              = Some (CC_ERROR, set_err (set_send_ready eof_conn false) 104,
                      [])) by reflexivity.
  split; [exact H|].
  destruct (conn_send_frame _ _ _ _ _ _ H)
    as (_ & _ & _ & _ & _ & _ & H1 & _ & H2 & _).
  split; [exact H2 | exact H1].
Defined.

(** A readiness flag is never set by the I/O functions, and for a size that
    fits an [ssize_t] it survives a call only when the call moved at least
    the [nbyte] bytes asked for. *)
Lemma ready_only_after_full_transfer :
  forall (c : conn) (nbyte : Z) (sock : socket) (k : Z) (c' : conn)
         (sock' : socket),
    0 <= nbyte <= SSIZE_MAX ->
    (conn_recv c nbyte sock = Some (k, c', sock') ->
     recv_ready c' = true -> recv_ready c = true /\ 0 < k /\ nbyte <= k)
    /\ (conn_send c nbyte sock = Some (k, c', sock') ->
        send_ready c' = true -> send_ready c = true /\ 0 < k /\ nbyte <= k).
Proof.
  intros c nbyte sock k c' sock' Hn.
  assert (Hs : ssize_of_size nbyte = nbyte)
    by (apply ssize_of_size_small; exact Hn).
  split; revert k c' sock'; induction sock as [|r sock IH];
    intros k c' sock' H Hready; try discriminate.
  - cbn [conn_recv] in H. rewrite Hs in H.
    destruct (0 <? ret r) eqn:Hp.
    + apply Z.ltb_lt in Hp. inversion H; subst. clear H.
      destruct (ret r <? nbyte) eqn:Hlt; cbn in Hready; [discriminate|].
      apply Z.ltb_ge in Hlt. repeat split; [exact Hready | lia | lia].
    + destruct (ret r =? 0); [inversion H; subst; discriminate Hready|].
      destruct (errno r =? EINTR); [exact (IH _ _ _ H Hready)|].
      destruct ((errno r =? EAGAIN) || (errno r =? EWOULDBLOCK));
        inversion H; subst; discriminate Hready.
  - cbn [conn_send] in H. rewrite Hs in H.
    destruct (0 <? ret r) eqn:Hp.
    + apply Z.ltb_lt in Hp. inversion H; subst. clear H.
      destruct (ret r <? nbyte) eqn:Hlt; cbn in Hready; [discriminate|].
      apply Z.ltb_ge in Hlt. repeat split; [exact Hready | lia | lia].
    + destruct (ret r =? 0); [inversion H; subst; discriminate Hready|].
      destruct (errno r =? EINTR); [exact (IH _ _ _ H Hready)|].
      destruct ((errno r =? EAGAIN) || (errno r =? EWOULDBLOCK));
        inversion H; subst; discriminate Hready.
Qed.

Lemma ready_only_after_full_transfer_witness :
  0 <= 64 <= SSIZE_MAX
  /\ conn_recv live_conn 64 [eintr; moved 64]
     = Some (64, set_recv_nbyte live_conn 64, [])
  /\ recv_ready (set_recv_nbyte live_conn 64) = true
  /\ (recv_ready live_conn = true /\ 0 < 64 /\ 64 <= 64).
Proof.
  assert (H0 : 0 <= 64 <= SSIZE_MAX) by (unfold SSIZE_MAX; lia).
  assert (H1 : conn_recv live_conn 64 [eintr; moved 64]
               = Some (64, set_recv_nbyte live_conn 64, [])) by reflexivity.
  assert (H2 : recv_ready (set_recv_nbyte live_conn 64) = true)
    by reflexivity.
  split; [exact H0|]. split; [exact H1|]. split; [exact H2|].
  exact (proj1 (ready_only_after_full_transfer live_conn 64
                  [eintr; moved 64] 64 (set_recv_nbyte live_conn 64) [] H0)
           H1 H2).
Defined.

(** ** Streams: every way out of [stream_read] and [stream_write] *)

Section StreamCases.

Lemma mbuf_wsize_ok b : mbuf_ok b -> mbuf_wsize b = capacity b - wpos b.
Proof.
  unfold mbuf_ok, mbuf_wsize, size_wrap, SIZE_MOD. intros H.
  apply Z.mod_small. lia.
Qed.

Lemma mbuf_rsize_ok b : mbuf_ok b -> mbuf_rsize b = wpos b - rpos b.
Proof.
  unfold mbuf_ok, mbuf_rsize, size_wrap, SIZE_MOD. intros H.
  apply Z.mod_small. lia.
Qed.

(** A count returned by [conn_recv] or [conn_send] is the value of one of
    the calls of the script. *)
Lemma conn_recv_count c nbyte sock k c' sock' :
  conn_recv c nbyte sock = Some (k, c', sock') -> 0 < k ->
  exists r, In r sock /\ ret r = k.
Proof.
  revert k c' sock'. induction sock as [|r sock IH]; intros k c' sock' H Hk;
    [discriminate|].
  cbn [conn_recv] in H.
  destruct (0 <? ret r).
  - inversion H; subst. exists r. split; [left; reflexivity | reflexivity].
  - destruct (ret r =? 0) eqn:E0;
      [apply Z.eqb_eq in E0; inversion H; subst; lia|].
    destruct (errno r =? EINTR).
    + destruct (IH _ _ _ H Hk) as (r' & Hin & E).
      exists r'. split; [right; exact Hin | exact E].
    + destruct ((errno r =? EAGAIN) || (errno r =? EWOULDBLOCK));
        inversion H; subst; unfold CC_EAGAIN, CC_ERROR in Hk; lia.
Qed.

Lemma conn_send_count c nbyte sock k c' sock' :
  conn_send c nbyte sock = Some (k, c', sock') -> 0 < k ->
  exists r, In r sock /\ ret r = k.
Proof.
  revert k c' sock'. induction sock as [|r sock IH]; intros k c' sock' H Hk;
    [discriminate|].
  cbn [conn_send] in H.
  destruct (0 <? ret r).
  - inversion H; subst. exists r. split; [left; reflexivity | reflexivity].
  - destruct (ret r =? 0) eqn:E0;
      [apply Z.eqb_eq in E0; inversion H; subst; lia|].
    destruct (errno r =? EINTR).
    + destruct (IH _ _ _ H Hk) as (r' & Hin & E).
      exists r'. split; [right; exact Hin | exact E].
    + destruct ((errno r =? EAGAIN) || (errno r =? EWOULDBLOCK));
        inversion H; subst; unfold CC_EAGAIN, CC_ERROR in Hk; lia.
Qed.

(** The byte counters after a call. *)
Lemma conn_recv_counter c nbyte sock k c' sock' :
  conn_recv c nbyte sock = Some (k, c', sock') ->
  recv_nbyte c'
  = (if 0 <? k then size_wrap (recv_nbyte c + k) else recv_nbyte c).
Proof.
  revert k c' sock'. induction sock as [|r sock IH]; intros k c' sock' H;
    [discriminate|].
  cbn [conn_recv] in H.
  destruct (0 <? ret r) eqn:Hp.
  - inversion H; subst. rewrite Hp.
    destruct (ret r <? ssize_of_size nbyte); reflexivity.
  - destruct (ret r =? 0) eqn:Hz.
    + inversion H; subst. rewrite Hp. reflexivity.
    + destruct (errno r =? EINTR); [exact (IH _ _ _ H)|].
      destruct ((errno r =? EAGAIN) || (errno r =? EWOULDBLOCK));
        inversion H; subst; reflexivity.
Qed.

Lemma conn_send_counter c nbyte sock k c' sock' :
  conn_send c nbyte sock = Some (k, c', sock') ->
  send_nbyte c'
  = (if 0 <? k then size_wrap (send_nbyte c + k) else send_nbyte c).
Proof.
  revert k c' sock'. induction sock as [|r sock IH]; intros k c' sock' H;
    [discriminate|].
  cbn [conn_send] in H.
  destruct (0 <? ret r) eqn:Hp.
  - inversion H; subst. rewrite Hp.
    destruct (ret r <? ssize_of_size nbyte); reflexivity.
  - destruct (ret r =? 0) eqn:Hz.
    + inversion H; subst. reflexivity.
    + destruct (errno r =? EINTR); [exact (IH _ _ _ H)|].
      destruct ((errno r =? EAGAIN) || (errno r =? EWOULDBLOCK));
        inversion H; subst; reflexivity.
Qed.

(** The readiness flags after a call, for a size that fits an
    [ssize_t]. *)
Lemma conn_recv_ready_after c nbyte sock k c' sock' :
  0 <= nbyte <= SSIZE_MAX ->
  conn_recv c nbyte sock = Some (k, c', sock') ->
  recv_ready c'
  = (if (0 <? k) && (nbyte <=? k) then recv_ready c else false).
Proof.
  intros Hn. rewrite <- (ssize_of_size_small nbyte Hn) at 2.
  revert k c' sock'. induction sock as [|r sock IH]; intros k c' sock' H;
    [discriminate|].
  cbn [conn_recv] in H.
  destruct (0 <? ret r) eqn:Hp.
  - inversion H; subst. rewrite Hp. cbn [andb].
    rewrite Z.leb_antisym.
    destruct (ret r <? ssize_of_size nbyte); reflexivity.
  - destruct (ret r =? 0) eqn:Hz.
    + inversion H; subst. rewrite Hp. reflexivity.
    + destruct (errno r =? EINTR); [exact (IH _ _ _ H)|].
      destruct ((errno r =? EAGAIN) || (errno r =? EWOULDBLOCK));
        inversion H; subst; reflexivity.
Qed.

Lemma conn_send_ready_after c nbyte sock k c' sock' :
  0 <= nbyte <= SSIZE_MAX ->
  conn_send c nbyte sock = Some (k, c', sock') ->
  send_ready c'
  = (if (0 <? k) && (nbyte <=? k) then send_ready c else false).
Proof.
  intros Hn. rewrite <- (ssize_of_size_small nbyte Hn) at 2.
  revert k c' sock'. induction sock as [|r sock IH]; intros k c' sock' H;
    [discriminate|].
  cbn [conn_send] in H.
  destruct (0 <? ret r) eqn:Hp.
  - inversion H; subst. rewrite Hp. cbn [andb].
    rewrite Z.leb_antisym.
    destruct (ret r <? ssize_of_size nbyte); reflexivity.
  - destruct (ret r =? 0) eqn:Hz.
    + inversion H; subst. reflexivity.
    + destruct (errno r =? EINTR); [exact (IH _ _ _ H)|].
      destruct ((errno r =? EAGAIN) || (errno r =? EWOULDBLOCK));
        inversion H; subst; reflexivity.
Qed.

(** What [conn_recv] and [conn_send] return. *)
Lemma conn_recv_value c nbyte sock k c' sock' :
  conn_recv c nbyte sock = Some (k, c', sock') ->
  k = CC_ERROR \/ k = CC_EAGAIN \/ 0 <= k.
Proof.
  revert k c' sock'. induction sock as [|r sock IH]; intros k c' sock' H;
    [discriminate|].
  cbn [conn_recv] in H.
  destruct (0 <? ret r) eqn:Hp.
  - apply Z.ltb_lt in Hp. inversion H; subst. lia.
  - destruct (ret r =? 0) eqn:Hz.
    + apply Z.eqb_eq in Hz. inversion H; subst. lia.
    + destruct (errno r =? EINTR); [exact (IH _ _ _ H)|].
      destruct ((errno r =? EAGAIN) || (errno r =? EWOULDBLOCK));
        inversion H; subst; tauto.
Qed.

Lemma conn_send_value c nbyte sock k c' sock' :
  conn_send c nbyte sock = Some (k, c', sock') ->
  k = CC_ERROR \/ k = CC_EAGAIN \/ 0 <= k.
Proof.
  revert k c' sock'. induction sock as [|r sock IH]; intros k c' sock' H;
    [discriminate|].
  cbn [conn_send] in H.
  destruct (0 <? ret r) eqn:Hp.
  - apply Z.ltb_lt in Hp. inversion H; subst. lia.
  - destruct (ret r =? 0) eqn:Hz.
    + inversion H; subst. lia.
    + destruct (errno r =? EINTR); [exact (IH _ _ _ H)|].
      destruct ((errno r =? EAGAIN) || (errno r =? EWOULDBLOCK));
        inversion H; subst; tauto.
Qed.

(** The state of the connection after a call. *)
Lemma conn_recv_state c nbyte sock k c' sock' :
  conn_recv c nbyte sock = Some (k, c', sock') ->
  Nio.state c' = (if k =? 0 then CONN_EOF else Nio.state c).
Proof.
  revert k c' sock'. induction sock as [|r sock IH]; intros k c' sock' H;
    [discriminate|].
  cbn [conn_recv] in H.
  destruct (0 <? ret r) eqn:Hp.
  - apply Z.ltb_lt in Hp. inversion H; subst.
    replace (ret r =? 0) with false by (symmetry; apply Z.eqb_neq; lia).
    destruct (ret r <? ssize_of_size nbyte); reflexivity.
  - destruct (ret r =? 0) eqn:Hz.
    + inversion H; subst. rewrite Hz. reflexivity.
    + destruct (errno r =? EINTR); [exact (IH _ _ _ H)|].
      destruct ((errno r =? EAGAIN) || (errno r =? EWOULDBLOCK));
        inversion H; subst; reflexivity.
Qed.

Lemma conn_send_state c nbyte sock k c' sock' :
  conn_send c nbyte sock = Some (k, c', sock') ->
  Nio.state c' = Nio.state c.
Proof.
  revert k c' sock'. induction sock as [|r sock IH]; intros k c' sock' H;
    [discriminate|].
  cbn [conn_send] in H.
  destruct (0 <? ret r) eqn:Hp.
  - inversion H; subst.
    destruct (ret r <? ssize_of_size nbyte); reflexivity.
  - destruct (ret r =? 0) eqn:Hz.
    + inversion H; subst. reflexivity.
    + destruct (errno r =? EINTR); [exact (IH _ _ _ H)|].
      destruct ((errno r =? EAGAIN) || (errno r =? EWOULDBLOCK));
        inversion H; subst; reflexivity.
Qed.

Lemma within_count nbyte sock r k :
  Forall (within nbyte) sock -> In r sock -> ret r = k -> k <= nbyte.
Proof.
  intros Hall Hin <-. exact (proj1 (Forall_forall _ _) Hall r Hin).
Qed.

(** The three ways out of [stream_read]. *)
Lemma stream_read_inv h s nbyte sock st s' sock' :
  stream_read h s nbyte sock = Some (st, s', sock') ->
  (mbuf_wsize (rbuf (call_hook (pre_read h) s nbyte)) < nbyte
   /\ st = CC_ENOMEM /\ s' = call_hook (pre_read h) s nbyte /\ sock' = sock)
  \/ (nbyte <= mbuf_wsize (rbuf (call_hook (pre_read h) s nbyte))
      /\ Stream.type (call_hook (pre_read h) s nbyte) <> CHANNEL_TCP
      /\ st = CC_ERROR /\ s' = call_hook (pre_read h) s nbyte
      /\ sock' = sock)
  \/ (nbyte <= mbuf_wsize (rbuf (call_hook (pre_read h) s nbyte))
      /\ Stream.type (call_hook (pre_read h) s nbyte) = CHANNEL_TCP
      /\ exists k c',
           conn_recv (channel (call_hook (pre_read h) s nbyte)) nbyte sock
           = Some (k, c', sock')
           /\ st = (if k <? 0 then if k =? CC_EAGAIN then CC_OK else CC_ERROR
                    else if k =? 0 then CC_ERDHUP
                    else if k =? nbyte then CC_ERETRY else CC_OK)
           /\ s' = (if 0 <? k
                    then call_hook (post_read h)
                           (advance_wpos
                              (set_channel (call_hook (pre_read h) s nbyte)
                                           c') k) k
                    else set_channel (call_hook (pre_read h) s nbyte) c')).
Proof.
  intros H.
  destruct (Z.lt_ge_cases (mbuf_wsize (rbuf (call_hook (pre_read h) s nbyte)))
              nbyte) as [Hcap|Hcap].
  - left. unfold stream_read in H. pose proof Hcap as Hc.
    apply Z.ltb_lt in Hc. rewrite Hc in H. inversion H; subst. tauto.
  - right.
    destruct (Stream.type (call_hook (pre_read h) s nbyte)) eqn:Ht.
    + left. unfold stream_read in H. pose proof Hcap as Hc.
      apply Z.ltb_ge in Hc. rewrite Hc, Ht in H. cbn in H.
      rewrite advance_wpos_0 in H. inversion H; subst.
      repeat split; try reflexivity; try assumption. discriminate.
    + right. split; [exact Hcap|]. split; [reflexivity|].
      destruct (conn_recv (channel (call_hook (pre_read h) s nbyte)) nbyte
                          sock) as [[[k c'] sk]|] eqn:E.
      * rewrite (stream_read_tcp h s nbyte sock k c' sk Ht Hcap E) in H.
        inversion H; subst. exists k, c'. repeat split; reflexivity.
      * unfold stream_read in H. pose proof Hcap as Hc.
        apply Z.ltb_ge in Hc. rewrite Hc, Ht, E in H. discriminate.
    + left. unfold stream_read in H. pose proof Hcap as Hc.
      apply Z.ltb_ge in Hc. rewrite Hc, Ht in H. cbn in H.
      rewrite advance_wpos_0 in H. inversion H; subst.
      repeat split; try reflexivity; try assumption. discriminate.
Qed.

(** The three ways out of [stream_write]. *)
Lemma stream_write_inv h s nbyte sock st s' sock' :
  stream_write h s nbyte sock = Some (st, s', sock') ->
  (mbuf_rsize (wbuf (call_hook (pre_write h) s nbyte)) = 0
   /\ st = CC_EEMPTY /\ s' = call_hook (pre_write h) s nbyte /\ sock' = sock)
  \/ (mbuf_rsize (wbuf (call_hook (pre_write h) s nbyte)) <> 0
      /\ Stream.type (call_hook (pre_write h) s nbyte) <> CHANNEL_TCP
      /\ st = CC_ERROR /\ s' = call_hook (pre_write h) s nbyte
      /\ sock' = sock)
  \/ (mbuf_rsize (wbuf (call_hook (pre_write h) s nbyte)) <> 0
      /\ Stream.type (call_hook (pre_write h) s nbyte) = CHANNEL_TCP
      /\ exists k c',
           conn_send (channel (call_hook (pre_write h) s nbyte))
                     (mbuf_rsize (wbuf (call_hook (pre_write h) s nbyte)))
                     sock
           = Some (k, c', sock')
           /\ st = (if k <? 0
                    then if k =? CC_EAGAIN then CC_EAGAIN else CC_ERROR
                    else if k <? mbuf_rsize
                                   (wbuf (call_hook (pre_write h) s nbyte))
                         then CC_ERETRY else CC_OK)
           /\ s' = (if 0 <? k
                    then call_hook (post_write h)
                           (advance_rpos
                              (set_channel (call_hook (pre_write h) s nbyte)
                                           c') k) k
                    else set_channel (call_hook (pre_write h) s nbyte) c')).
Proof.
  intros H.
  destruct (Z.eq_dec (mbuf_rsize (wbuf (call_hook (pre_write h) s nbyte))) 0)
    as [Hz|Hnz].
  - left. unfold stream_write in H. rewrite Hz in H. cbn in H.
    inversion H; subst. tauto.
  - right. pose proof Hnz as Hc. apply Z.eqb_neq in Hc.
    destruct (Stream.type (call_hook (pre_write h) s nbyte)) eqn:Ht.
    + left. unfold stream_write in H. rewrite Hc, Ht in H. cbn in H.
      rewrite advance_rpos_0 in H. inversion H; subst.
      repeat split; try reflexivity; try assumption. discriminate.
    + right. split; [exact Hnz|]. split; [reflexivity|].
      destruct (conn_send (channel (call_hook (pre_write h) s nbyte))
                  (mbuf_rsize (wbuf (call_hook (pre_write h) s nbyte))) sock)
        as [[[k c'] sk]|] eqn:E.
      * rewrite (stream_write_tcp h s nbyte sock k c' sk Ht Hnz E) in H.
        inversion H; subst. exists k, c'. repeat split; reflexivity.
      * unfold stream_write in H. rewrite Hc, Ht, E in H. discriminate.
    + left. unfold stream_write in H. rewrite Hc, Ht in H. cbn in H.
      rewrite advance_rpos_0 in H. inversion H; subst.
      repeat split; try reflexivity; try assumption. discriminate.
Qed.

End StreamCases.

(** [stream_read] returns [CC_OK], [CC_ERROR], [CC_ENOMEM], [CC_ERETRY] or
    [CC_ERDHUP], never [CC_EAGAIN] or [CC_EEMPTY]: a read that would block
    is reported as [CC_OK]; [stream_write] returns [CC_OK], [CC_ERROR],
    [CC_EAGAIN], [CC_EEMPTY] or [CC_ERETRY], never [CC_ENOMEM] or
    [CC_ERDHUP]. *)
Lemma stream_status_ranges :
  forall (h : stream_handler_t) (s : stream) (nbyte : Z) (sock : socket)
         (st : Z) (s' : stream) (sock' : socket),
    (stream_read h s nbyte sock = Some (st, s', sock') ->
     st = CC_OK \/ st = CC_ERROR \/ st = CC_ENOMEM \/ st = CC_ERETRY
     \/ st = CC_ERDHUP)
    /\ (stream_write h s nbyte sock = Some (st, s', sock') ->
        st = CC_OK \/ st = CC_ERROR \/ st = CC_EAGAIN \/ st = CC_EEMPTY
        \/ st = CC_ERETRY).
Proof.
  intros h s nbyte sock st s' sock'. split; intros H.
  - destruct (stream_read_inv _ _ _ _ _ _ _ H)
      as [(_ & -> & _)|[(_ & _ & -> & _)|(_ & _ & k & c' & _ & -> & _)]];
      try tauto.
    destruct (k <? 0); [destruct (k =? CC_EAGAIN); tauto|].
    destruct (k =? 0); [tauto|]. destruct (k =? nbyte); tauto.
  - destruct (stream_write_inv _ _ _ _ _ _ _ H)
      as [(_ & -> & _)|[(_ & _ & -> & _)|(_ & _ & k & c' & _ & -> & _)]];
      try tauto.
    destruct (k <? 0); [destruct (k =? CC_EAGAIN); tauto|].
    destruct (k <? _); tauto.
Qed.

Lemma stream_status_ranges_witness :
  stream_read no_hooks tcp_stream 64 [eagain]
  = Some (CC_OK, set_channel tcp_stream (set_recv_ready live_conn false), [])
  /\ (CC_OK = CC_OK \/ CC_OK = CC_ERROR \/ CC_OK = CC_ENOMEM
      \/ CC_OK = CC_ERETRY \/ CC_OK = CC_ERDHUP).
Proof.
  assert (H : stream_read no_hooks tcp_stream 64 [eagain]
              = Some (CC_OK,
                      set_channel tcp_stream (set_recv_ready live_conn false),
                      [])) by reflexivity.
  split; [exact H|].
  exact (proj1 (stream_status_ranges no_hooks tcp_stream 64 [eagain] CC_OK _ [])
           H).
Defined.

(** ** Streams: the buffers *)

(** [stream_read] keeps [rbuf] well formed when the socket hands over no
    more than it was asked for: only [wpos] moves, forward and by at most
    [nbyte], never past the capacity; the bytes counted on the connection
    are the bytes [wpos] moved by; [CC_ERETRY] means the whole request was
    buffered, and [CC_ERDHUP], [CC_ERROR] and [CC_ENOMEM] mean nothing
    was.  [wbuf] is not touched. *)
Lemma stream_read_buffer :
  forall (h : stream_handler_t) (s : stream) (nbyte : Z) (sock : socket)
         (st : Z) (s' : stream) (sock' : socket),
    let s1 := call_hook (pre_read h) s nbyte in
    post_read h = None ->
    mbuf_ok (rbuf s1) ->
    Forall (within nbyte) sock ->
    stream_read h s nbyte sock = Some (st, s', sock') ->
    mbuf_ok (rbuf s')
    /\ rpos (rbuf s') = rpos (rbuf s1)
    /\ capacity (rbuf s') = capacity (rbuf s1)
    /\ wbuf s' = wbuf s1
    /\ wpos (rbuf s1) <= wpos (rbuf s') <= wpos (rbuf s1) + Z.max 0 nbyte
    /\ recv_nbyte (channel s')
       = (if wpos (rbuf s1) <? wpos (rbuf s')
          then size_wrap (recv_nbyte (channel s1)
                          + (wpos (rbuf s') - wpos (rbuf s1)))
          else recv_nbyte (channel s1))
    /\ (st = CC_ERETRY -> wpos (rbuf s') = wpos (rbuf s1) + nbyte)
    /\ (st = CC_ERDHUP \/ st = CC_ERROR \/ st = CC_ENOMEM ->
        wpos (rbuf s') = wpos (rbuf s1)).
Proof.
  intros h s nbyte sock st s' sock'. cbv zeta. intros Hpost Hok Hall H.
  pose proof (stream_read_inv _ _ _ _ _ _ _ H) as Hinv. clear H.
  remember (call_hook (pre_read h) s nbyte) as s1 eqn:Es1. clear Es1.
  pose proof Hok as (Hr & Hrw & Hwc & Hcm).
  pose proof Hcm as Hcm0. unfold SIZE_MOD in Hcm. cbn in Hcm.
  destruct Hinv
    as [(_ & -> & -> & _)
       |[(_ & _ & -> & -> & _)
        |(Hcap & _ & k & c' & Hrecv & -> & ->)]].
  - rewrite Z.ltb_irrefl. unfold CC_ENOMEM, CC_ERETRY.
    repeat split; try assumption; try reflexivity; try lia.
  - rewrite Z.ltb_irrefl. unfold CC_ERROR, CC_ERETRY.
    repeat split; try assumption; try reflexivity; try lia.
  - rewrite (mbuf_wsize_ok _ Hok) in Hcap.
    pose proof (conn_recv_counter _ _ _ _ _ _ Hrecv) as Hn.
    pose proof (conn_recv_value _ _ _ _ _ _ Hrecv) as Hk.
    rewrite Hpost. cbn [call_hook].
    destruct (0 <? k) eqn:Epos.
    + pose proof Epos as Epos'. apply Z.ltb_lt in Epos.
      destruct (conn_recv_count _ _ _ _ _ _ Hrecv Epos) as (r & Hin & Hret).
      pose proof (within_count _ _ _ _ Hall Hin Hret) as Hle.
      cbn.
      replace (wpos (rbuf s1) <? wpos (rbuf s1) + k) with true
        by (symmetry; apply Z.ltb_lt; lia).
      replace (wpos (rbuf s1) + k - wpos (rbuf s1)) with k by lia.
      replace (k <? 0) with false by (symmetry; apply Z.ltb_ge; lia).
      replace (k =? 0) with false by (symmetry; apply Z.eqb_neq; lia).
      unfold mbuf_ok. cbn [rbuf wbuf channel set_rbuf set_wbuf set_channel
        advance_wpos advance_rpos rpos wpos capacity set_rpos set_wpos].
      repeat match goal with |- _ /\ _ => split end;
        try reflexivity; try assumption; try lia.
      * destruct (k =? nbyte) eqn:E; [apply Z.eqb_eq in E; lia|].
        unfold CC_OK, CC_ERETRY. discriminate.
      * destruct (k =? nbyte); unfold CC_OK, CC_ERETRY, CC_ERDHUP, CC_ERROR,
          CC_ENOMEM; lia.
    + apply Z.ltb_ge in Epos. cbn.
      rewrite Z.ltb_irrefl.
      repeat match goal with |- _ /\ _ => split end;
        try reflexivity; try assumption; try lia.
      destruct (k <? 0) eqn:Eneg.
      * destruct (k =? CC_EAGAIN); unfold CC_OK, CC_ERROR, CC_ERETRY;
          discriminate.
      * apply Z.ltb_ge in Eneg. assert (k = 0) as -> by lia. cbn.
        unfold CC_ERDHUP, CC_ERETRY. discriminate.
Qed.

Lemma stream_read_buffer_witness :
  exists s',
    post_read no_hooks = None
    /\ mbuf_ok (rbuf tcp_stream)
    /\ Forall (within 64) [moved 20]
    /\ stream_read no_hooks tcp_stream 64 [moved 20] = Some (CC_OK, s', [])
    /\ mbuf_ok (rbuf s')
    /\ wpos (rbuf s') = 20
    /\ recv_nbyte (channel s') = 20.
Proof.
  assert (H1 : post_read no_hooks = None) by reflexivity.
  assert (H2 : mbuf_ok (rbuf (call_hook (pre_read no_hooks) tcp_stream 64)))
    by (unfold mbuf_ok, SIZE_MOD; cbn; lia).
  assert (H3 : Forall (within 64) [moved 20])
    by (repeat constructor; unfold within; cbn; lia).
  destruct (stream_read no_hooks tcp_stream 64 [moved 20])
    as [[[st s'] sk]|] eqn:E; [|discriminate].
  pose proof (stream_read_buffer no_hooks tcp_stream 64 [moved 20] st s' sk
                H1 H2 H3 E) as (Hok & _).
  exists s'. split; [exact H1|]. split; [exact H2|]. split; [exact H3|].
  vm_compute in E. inversion E; subst.
  split; [reflexivity|]. split; [exact Hok|]. split; reflexivity.
Defined.

(** [stream_write] keeps [wbuf] well formed when the socket takes no more
    than it was offered: only [rpos] moves, forward; the bytes counted on
    the connection are the bytes [rpos] moved by; the buffer is empty after
    the call exactly when the status is [CC_OK] or [CC_EEMPTY], and
    [CC_EAGAIN] and [CC_ERROR] mean that nothing was taken out of it.
    [rbuf] is not touched. *)
Lemma stream_write_buffer :
  forall (h : stream_handler_t) (s : stream) (nbyte : Z) (sock : socket)
         (st : Z) (s' : stream) (sock' : socket),
    let s1 := call_hook (pre_write h) s nbyte in
    post_write h = None ->
    mbuf_ok (wbuf s1) ->
    Forall (within (mbuf_rsize (wbuf s1))) sock ->
    stream_write h s nbyte sock = Some (st, s', sock') ->
    mbuf_ok (wbuf s')
    /\ wpos (wbuf s') = wpos (wbuf s1)
    /\ capacity (wbuf s') = capacity (wbuf s1)
    /\ rbuf s' = rbuf s1
    /\ rpos (wbuf s1) <= rpos (wbuf s')
    /\ send_nbyte (channel s')
       = (if rpos (wbuf s1) <? rpos (wbuf s')
          then size_wrap (send_nbyte (channel s1)
                          + (rpos (wbuf s') - rpos (wbuf s1)))
          else send_nbyte (channel s1))
    /\ (mbuf_rsize (wbuf s') = 0 <-> st = CC_OK \/ st = CC_EEMPTY)
    /\ (st = CC_EAGAIN \/ st = CC_ERROR -> rpos (wbuf s') = rpos (wbuf s1)).
Proof.
  intros h s nbyte sock st s' sock'. cbv zeta. intros Hpost Hok Hall H.
  pose proof (stream_write_inv _ _ _ _ _ _ _ H) as Hinv. clear H.
  remember (call_hook (pre_write h) s nbyte) as s1 eqn:Es1. clear Es1.
  pose proof Hok as (Hr & Hrw & Hwc & Hcm).
  pose proof Hcm as Hcm0. unfold SIZE_MOD in Hcm. cbn in Hcm.
  pose proof (mbuf_rsize_ok _ Hok) as Hsize.
  destruct Hinv
    as [(Hz & -> & -> & _)
       |[(Hnz & _ & -> & -> & _)
        |(Hnz & _ & k & c' & Hsend & -> & ->)]].
  - rewrite Z.ltb_irrefl.
    repeat match goal with |- _ /\ _ => split end;
      try reflexivity; try assumption; try lia; tauto.
  - rewrite Z.ltb_irrefl.
    repeat match goal with |- _ /\ _ => split end;
      try reflexivity; try assumption; try lia;
      unfold CC_ERROR, CC_OK, CC_EEMPTY; intros; lia.
  - pose proof (conn_send_counter _ _ _ _ _ _ Hsend) as Hn.
    pose proof (conn_send_value _ _ _ _ _ _ Hsend) as Hk.
    rewrite Hpost. cbn [call_hook].
    rewrite Hsize in *.
    destruct (0 <? k) eqn:Epos.
    + pose proof Epos as Epos'. apply Z.ltb_lt in Epos.
      destruct (conn_send_count _ _ _ _ _ _ Hsend Epos) as (r & Hin & Hret).
      pose proof (within_count _ _ _ _ Hall Hin Hret) as Hle.
      cbn.
      replace (rpos (wbuf s1) <? rpos (wbuf s1) + k) with true
        by (symmetry; apply Z.ltb_lt; lia).
      replace (rpos (wbuf s1) + k - rpos (wbuf s1)) with k by lia.
      replace (k <? 0) with false by (symmetry; apply Z.ltb_ge; lia).
      assert (Hsz : mbuf_rsize (set_rpos (wbuf s1) (rpos (wbuf s1) + k))
                    = wpos (wbuf s1) - rpos (wbuf s1) - k).
      { rewrite mbuf_rsize_ok; [cbn; lia|]. unfold mbuf_ok; cbn. lia. }
      rewrite Hsz.
      unfold mbuf_ok. cbn [rbuf wbuf channel set_rbuf set_wbuf set_channel
        advance_wpos advance_rpos rpos wpos capacity set_rpos set_wpos].
      repeat match goal with |- _ /\ _ => split end;
        try reflexivity; try assumption; try lia.
      * destruct (k <? wpos (wbuf s1) - rpos (wbuf s1)) eqn:E;
          [apply Z.ltb_lt in E | apply Z.ltb_ge in E];
          unfold CC_ERETRY, CC_OK, CC_EEMPTY; split; intros; lia.
      * destruct (k <? wpos (wbuf s1) - rpos (wbuf s1));
          unfold CC_ERETRY, CC_OK, CC_EAGAIN, CC_ERROR; lia.
    + apply Z.ltb_ge in Epos. cbn.
      rewrite Z.ltb_irrefl. rewrite Hsize.
      repeat match goal with |- _ /\ _ => split end;
        try reflexivity; try assumption; try lia.
      destruct (k <? 0) eqn:Eneg.
      * destruct (k =? CC_EAGAIN);
          unfold CC_OK, CC_ERROR, CC_EAGAIN, CC_EEMPTY; lia.
      * apply Z.ltb_ge in Eneg.
        replace (k <? wpos (wbuf s1) - rpos (wbuf s1)) with true
          by (symmetry; apply Z.ltb_lt; lia).
        unfold CC_ERETRY, CC_OK, CC_EEMPTY. lia.
Qed.

Lemma stream_write_buffer_witness :
  exists s',
    post_write no_hooks = None
    /\ mbuf_ok (wbuf busy_stream)
    /\ Forall (within 1000) [moved 400]
    /\ stream_write no_hooks busy_stream 1000 [moved 400]
       = Some (CC_ERETRY, s', [])
    /\ mbuf_ok (wbuf s')
    /\ mbuf_rsize (wbuf s') = 600.
Proof.
  assert (H1 : post_write no_hooks = None) by reflexivity.
  assert (H2 : mbuf_ok
                 (wbuf (call_hook (pre_write no_hooks) busy_stream 1000)))
    by (unfold mbuf_ok, SIZE_MOD; cbn; lia).
  assert (H3 : Forall
                 (within (mbuf_rsize
                            (wbuf (call_hook (pre_write no_hooks)
                                             busy_stream 1000))))
                 [moved 400])
    by (repeat constructor; unfold within; vm_compute; discriminate).
  destruct (stream_write no_hooks busy_stream 1000 [moved 400])
    as [[[st s'] sk]|] eqn:E; [|discriminate].
  pose proof (stream_write_buffer no_hooks busy_stream 1000 [moved 400] st s'
                sk H1 H2 H3 E) as (Hok & _).
  exists s'. split; [exact H1|]. split; [exact H2|]. split; [exact H3|].
  vm_compute in E. inversion E; subst.
  split; [reflexivity|]. split; [exact Hok|]. reflexivity.
Defined.

(** ** Streams: status and readiness *)

(** On a TCP stream the status tells whether the readiness flag survived
    the call, for sizes that fit an [ssize_t] and a socket that moves no
    more than it is asked to: after [stream_read] the connection is still
    [recv_ready] exactly when it was before and the status is [CC_ERETRY]
    or [CC_ENOMEM]; after [stream_write] it is still [send_ready] exactly
    when it was before and the status is [CC_OK] or [CC_EEMPTY].
    [stream_read] moves the connection to [CONN_EOF] on [CC_ERDHUP] and
    nowhere else; [stream_write] never changes its state. *)
Lemma stream_status_readiness :
  forall (h : stream_handler_t) (s : stream) (nbyte : Z) (sock : socket)
         (st : Z) (s' : stream) (sock' : socket),
    (let s1 := call_hook (pre_read h) s nbyte in
     Stream.type s1 = CHANNEL_TCP ->
     post_read h = None ->
     0 <= nbyte <= SSIZE_MAX ->
     Forall (within nbyte) sock ->
     stream_read h s nbyte sock = Some (st, s', sock') ->
     (recv_ready (channel s') = true
      <-> recv_ready (channel s1) = true
          /\ (st = CC_ERETRY \/ st = CC_ENOMEM))
     /\ Nio.state (channel s')
        = (if st =? CC_ERDHUP then CONN_EOF else Nio.state (channel s1)))
    /\ (let s1 := call_hook (pre_write h) s nbyte in
        Stream.type s1 = CHANNEL_TCP ->
        post_write h = None ->
        mbuf_rsize (wbuf s1) <= SSIZE_MAX ->
        Forall (within (mbuf_rsize (wbuf s1))) sock ->
        stream_write h s nbyte sock = Some (st, s', sock') ->
        (send_ready (channel s') = true
         <-> send_ready (channel s1) = true
             /\ (st = CC_OK \/ st = CC_EEMPTY))
        /\ Nio.state (channel s') = Nio.state (channel s1)).
Proof.
  intros h s nbyte sock st s' sock'. cbv zeta. split.
  - intros Ht Hpost Hn Hall H.
    pose proof (stream_read_inv _ _ _ _ _ _ _ H) as Hinv. clear H.
    remember (call_hook (pre_read h) s nbyte) as s1 eqn:Es1. clear Es1.
    destruct Hinv
      as [(_ & -> & -> & _)
         |[(_ & Hnt & _)
          |(_ & _ & k & c' & Hrecv & -> & ->)]].
    + split; [|reflexivity]. tauto.
    + contradiction.
    + pose proof (conn_recv_ready_after _ _ _ _ _ _ Hn Hrecv) as Hready.
      pose proof (conn_recv_state _ _ _ _ _ _ Hrecv) as Hstate.
      pose proof (conn_recv_value _ _ _ _ _ _ Hrecv) as Hk.
      assert (Hle : 0 < k -> k <= nbyte).
      { intros Epos.
        destruct (conn_recv_count _ _ _ _ _ _ Hrecv Epos)
          as (r & Hin & Hret).
        exact (within_count _ _ _ _ Hall Hin Hret). }
      rewrite Hpost. cbn [call_hook].
      assert (Hch : channel (if 0 <? k
                             then advance_wpos (set_channel s1 c') k
                             else set_channel s1 c') = c')
        by (destruct (0 <? k); reflexivity).
      rewrite Hch, Hready, Hstate. clear Hch Hready Hstate Hrecv.
      destruct (Z.lt_trichotomy k 0) as [Hneg|[Hz|Hpos]].
      * replace (k <? 0) with true by (symmetry; apply Z.ltb_lt; lia).
        replace (0 <? k) with false by (symmetry; apply Z.ltb_ge; lia).
        replace (k =? 0) with false by (symmetry; apply Z.eqb_neq; lia).
        cbn [andb].
        destruct (k =? CC_EAGAIN); (split; [|reflexivity]);
          unfold CC_OK, CC_ERROR, CC_ERETRY, CC_ENOMEM;
          (split; [discriminate|]); intros (_ & [Hx|Hx]); discriminate Hx.
      * subst k. cbn. split; [|reflexivity].
        unfold CC_ERDHUP, CC_ERETRY, CC_ENOMEM.
        split; [discriminate|]. intros (_ & [Hx|Hx]); discriminate Hx.
      * specialize (Hle Hpos).
        replace (k <? 0) with false by (symmetry; apply Z.ltb_ge; lia).
        replace (0 <? k) with true by (symmetry; apply Z.ltb_lt; lia).
        replace (k =? 0) with false by (symmetry; apply Z.eqb_neq; lia).
        cbn [andb].
        destruct (k =? nbyte) eqn:E.
        -- apply Z.eqb_eq in E.
           replace (nbyte <=? k) with true by (symmetry; apply Z.leb_le; lia).
           split; [|reflexivity]. tauto.
        -- apply Z.eqb_neq in E.
           replace (nbyte <=? k) with false
             by (symmetry; apply Z.leb_gt; lia).
           split; [|reflexivity].
           unfold CC_OK, CC_ERETRY, CC_ENOMEM.
           split; [discriminate|]. intros (_ & [Hx|Hx]); discriminate Hx.
  - intros Ht Hpost Hn Hall H.
    pose proof (stream_write_inv _ _ _ _ _ _ _ H) as Hinv. clear H.
    remember (call_hook (pre_write h) s nbyte) as s1 eqn:Es1. clear Es1.
    destruct Hinv
      as [(_ & -> & -> & _)
         |[(_ & Hnt & _)
          |(Hnz & _ & k & c' & Hsend & -> & ->)]].
    + split; [|reflexivity]. tauto.
    + contradiction.
    + assert (Hsz : 0 <= mbuf_rsize (wbuf s1) <= SSIZE_MAX).
      { split; [|exact Hn]. unfold mbuf_rsize, size_wrap, SIZE_MOD.
        apply Z.mod_pos_bound. lia. }
      pose proof (conn_send_ready_after _ _ _ _ _ _ Hsz Hsend) as Hready.
      pose proof (conn_send_state _ _ _ _ _ _ Hsend) as Hstate.
      pose proof (conn_send_value _ _ _ _ _ _ Hsend) as Hk.
      assert (Hle : 0 < k -> k <= mbuf_rsize (wbuf s1)).
      { intros Epos.
        destruct (conn_send_count _ _ _ _ _ _ Hsend Epos)
          as (r & Hin & Hret).
        exact (within_count _ _ _ _ Hall Hin Hret). }
      rewrite Hpost. cbn [call_hook].
      assert (Hch : channel (if 0 <? k
                             then advance_rpos (set_channel s1 c') k
                             else set_channel s1 c') = c')
        by (destruct (0 <? k); reflexivity).
      rewrite Hch, Hready, Hstate. clear Hch Hready Hstate Hsend.
      remember (mbuf_rsize (wbuf s1)) as m eqn:Em. clear Em.
      split; [|reflexivity].
      destruct (Z.lt_trichotomy k 0) as [Hneg|[Hz|Hpos]].
      * replace (k <? 0) with true by (symmetry; apply Z.ltb_lt; lia).
        replace (0 <? k) with false by (symmetry; apply Z.ltb_ge; lia).
        cbn [andb].
        destruct (k =? CC_EAGAIN);
          unfold CC_OK, CC_ERROR, CC_EAGAIN, CC_EEMPTY;
          (split; [discriminate|]); intros (_ & [Hx|Hx]); discriminate Hx.
      * subst k. replace (0 <? m) with true
          by (symmetry; apply Z.ltb_lt; lia).
        cbn. unfold CC_OK, CC_ERETRY, CC_EEMPTY.
        split; [discriminate|]. intros (_ & [Hx|Hx]); discriminate Hx.
      * specialize (Hle Hpos).
        replace (k <? 0) with false by (symmetry; apply Z.ltb_ge; lia).
        replace (0 <? k) with true by (symmetry; apply Z.ltb_lt; lia).
        cbn [andb].
        destruct (k <? m) eqn:E.
        -- apply Z.ltb_lt in E.
           replace (m <=? k) with false by (symmetry; apply Z.leb_gt; lia).
           unfold CC_OK, CC_ERETRY, CC_EEMPTY.
           split; [discriminate|]. intros (_ & [Hx|Hx]); discriminate Hx.
        -- apply Z.ltb_ge in E.
           replace (m <=? k) with true by (symmetry; apply Z.leb_le; lia).
           tauto.
Qed.

Lemma stream_status_readiness_witness :
  exists s',
    Stream.type tcp_stream = CHANNEL_TCP
    /\ post_read no_hooks = None
    /\ 0 <= 64 <= SSIZE_MAX
    /\ Forall (within 64) [eintr; moved 64]
    /\ stream_read no_hooks tcp_stream 64 [eintr; moved 64]
       = Some (CC_ERETRY, s', [])
    /\ (recv_ready (channel s') = true
        <-> recv_ready (channel tcp_stream) = true
            /\ (CC_ERETRY = CC_ERETRY \/ CC_ERETRY = CC_ENOMEM)).
Proof.
  assert (H1 : Stream.type (call_hook (pre_read no_hooks) tcp_stream 64)
               = CHANNEL_TCP) by reflexivity.
  assert (H2 : post_read no_hooks = None) by reflexivity.
  assert (H3 : 0 <= 64 <= SSIZE_MAX) by (unfold SSIZE_MAX; lia).
  assert (H4 : Forall (within 64) [eintr; moved 64])
    by (repeat constructor; unfold within; cbn; lia).
  destruct (stream_read no_hooks tcp_stream 64 [eintr; moved 64])
    as [[[st s'] sk]|] eqn:E; [|discriminate].
  pose proof (proj1 (stream_status_readiness no_hooks tcp_stream 64
                       [eintr; moved 64] st s' sk) H1 H2 H3 H4 E)
    as (Hready & _).
  exists s'. split; [exact H1|]. split; [exact H2|]. split; [exact H3|].
  split; [exact H4|].
  vm_compute in E. inversion E; subst.
  split; [reflexivity | exact Hready].
Defined.

(** ** Events: the mask and the dispatch loop *)

Section MaskFacts.

Lemma test_lor x y :
  negb (Z.lor x y =? 0) = negb (x =? 0) || negb (y =? 0).
Proof.
  pose proof (Z.lor_eq_0_iff x y) as H.
  destruct (Z.eqb_spec (Z.lor x y) 0), (Z.eqb_spec x 0), (Z.eqb_spec y 0);
    cbn; try reflexivity; tauto.
Qed.

Lemma test_watched a m :
  Z.land watched_bits m = m ->
  Z.land (Z.land a watched_bits) m = Z.land a m.
Proof. intros H. rewrite <- Z.land_assoc, H. reflexivity. Qed.

Lemma watched_split a :
  Z.land a watched_bits
  = Z.lor (Z.lor (Z.land a (Z.lor EPOLLERR EPOLLHUP))
                 (Z.land a (Z.lor EPOLLIN EPOLLRDHUP)))
          (Z.land a EPOLLOUT).
Proof.
  rewrite <- !Z.land_lor_distr_r. f_equal.
Qed.

Lemma skipn_nth_cons (A : Type) (d : A) (l : list A) :
  forall i : nat,
    (i < length l)%nat -> skipn i l = nth i l d :: skipn (S i) l.
Proof.
  induction l as [|x l IH]; intros i Hi; [cbn in Hi; lia|].
  destruct i as [|i]; [reflexivity|].
  cbn [skipn nth]. apply IH. cbn in Hi. lia.
Qed.

(** The calls of the dispatch loop over the front of the array. *)
Lemma dispatched_front (new rest : list epoll_event) :
  forall (todo i : nat),
    (i + todo <= length new)%nat ->
    dispatched (new ++ rest) i todo
    = map (fun ev => (data_ptr ev, event_mask ev))
          (firstn todo (skipn i new)).
Proof.
  induction todo as [|todo IH]; intros i Hle; [reflexivity|].
  cbn [dispatched].
  assert (Hi : (i < length new)%nat) by lia.
  rewrite IH by lia.
  rewrite app_nth1 by exact Hi.
  rewrite (skipn_nth_cons _ (mk_epoll_event 0 0) new i Hi).
  reflexivity.
Qed.

End MaskFacts.

(** The mask is a union: the mask of a record that carries the bits of two
    records is the union of their masks.  It depends on no bit but
    [EPOLLERR], [EPOLLHUP], [EPOLLIN], [EPOLLRDHUP] and [EPOLLOUT], nor on
    the user data, and it is 0 exactly when the record has none of the
    five. *)
Lemma event_mask_union :
  forall (a b d d1 d2 : Z),
    event_mask (mk_epoll_event (Z.lor a b) d)
    = Z.lor (event_mask (mk_epoll_event a d1))
            (event_mask (mk_epoll_event b d2))
    /\ event_mask (mk_epoll_event (Z.land a watched_bits) d)
       = event_mask (mk_epoll_event a d1)
    /\ (event_mask (mk_epoll_event a d) = 0 <-> Z.land a watched_bits = 0).
Proof.
  intros a b d d1 d2. split; [|split].
  - rewrite !event_mask_by_tests. cbn [events].
    rewrite !Z.land_lor_distr_l, !test_lor.
    destruct (negb (Z.land a (Z.lor EPOLLERR EPOLLHUP) =? 0)),
      (negb (Z.land a (Z.lor EPOLLIN EPOLLRDHUP) =? 0)),
      (negb (Z.land a EPOLLOUT =? 0)),
      (negb (Z.land b (Z.lor EPOLLERR EPOLLHUP) =? 0)),
      (negb (Z.land b (Z.lor EPOLLIN EPOLLRDHUP) =? 0)),
      (negb (Z.land b EPOLLOUT =? 0)); reflexivity.
  - rewrite !event_mask_by_tests. cbn [events].
    rewrite !test_watched by reflexivity. reflexivity.
  - rewrite event_mask_by_tests, watched_split. cbn [events].
    rewrite !Z.lor_eq_0_iff.
    destruct (Z.eqb_spec (Z.land a (Z.lor EPOLLERR EPOLLHUP)) 0) as [E1|E1],
      (Z.eqb_spec (Z.land a (Z.lor EPOLLIN EPOLLRDHUP)) 0) as [E2|E2],
      (Z.eqb_spec (Z.land a EPOLLOUT) 0) as [E3|E3];
      cbn; split; intros H; try tauto;
      destruct H as [[H1 H2] H3]; try discriminate; tauto.
Qed.

(** When [epoll_wait] stores as many records as it returns and they fit the
    array, [event_wait] calls the callback once for each record stored, in
    their order, with the record's user data and the mask of its bits; the
    array keeps its length, the records are at its front, and what was
    behind them is still there; the descriptor, the size and the callback
    of the base are unchanged. *)
Lemma event_wait_dispatches_stored :
  forall (U : Type) (evb : event_base U) (f : event_cb_t U) (timeout : Z)
         (pre : kernel) (r : epoll_ret) (k : kernel) (u : U),
    Forall Event.interrupted pre ->
    0 < nreturned r ->
    length (stored r) = Z.to_nat (nreturned r) ->
    (length (stored r) <= length (event evb))%nat ->
    cb evb = Some f ->
    exists evb',
      event_wait evb timeout (pre ++ r :: k) u
      = Some (nreturned r, evb',
              run_calls f
                (map (fun ev => (data_ptr ev, event_mask ev)) (stored r)) u,
              k)
      /\ length (event evb') = length (event evb)
      /\ firstn (length (stored r)) (event evb') = stored r
      /\ skipn (length (stored r)) (event evb')
         = skipn (length (stored r)) (event evb)
      /\ ep evb' = ep evb /\ nevent evb' = nevent evb /\ cb evb' = cb evb.
Proof.
  intros U evb f timeout pre r k u Hpre Hpos Hlen Hfit Hcb.
  exists (set_event evb (store_front (stored r) (event evb))).
  split; [|split; [|split; [|split; [|repeat split]]]].
  - rewrite event_wait_skip by assumption. cbn [event_wait].
    pose proof Hpos as Hp. apply Z.ltb_lt in Hp. rewrite Hp, Hcb.
    rewrite dispatch_runs. unfold store_front.
    rewrite dispatched_front by (rewrite <- Hlen; cbn; lia).
    cbn [skipn]. rewrite <- Hlen, firstn_all. reflexivity.
  - cbn [event set_event]. unfold store_front.
    rewrite length_app, length_skipn. lia.
  - cbn [event set_event]. unfold store_front.
    rewrite firstn_app, Nat.sub_diag, firstn_all. cbn [firstn].
    apply app_nil_r.
  - cbn [event set_event]. unfold store_front.
    rewrite skipn_app, Nat.sub_diag, skipn_all. reflexivity.
Qed.

Lemma event_wait_dispatches_stored_witness :
  Forall Event.interrupted [ep_eintr]
  /\ 0 < nreturned ep_two
  /\ length (stored ep_two) = Z.to_nat (nreturned ep_two)
  /\ (length (stored ep_two) <= length (event log_evb))%nat
  /\ exists evb',
       event_wait log_evb (-1) ([ep_eintr] ++ ep_two :: []) []
       = Some (2, evb', [(11, EVENT_READ); (12, EVENT_WRITE)], [])
       /\ length (event evb') = length (event log_evb).
Proof.
  assert (H1 : Forall Event.interrupted [ep_eintr]).
  { constructor; [|constructor]. split; [cbn; lia | reflexivity]. }
  assert (H2 : 0 < nreturned ep_two) by (cbn; lia).
  assert (H3 : length (stored ep_two) = Z.to_nat (nreturned ep_two))
    by reflexivity.
  assert (H4 : (length (stored ep_two) <= length (event log_evb))%nat)
    by (cbn; lia).
  split; [exact H1|]. split; [exact H2|]. split; [exact H3|].
  split; [exact H4|].
  destruct (event_wait_dispatches_stored (list (Z * Z))%type log_evb
              (fun d m log => log ++ [(d, m)]) (-1) [ep_eintr] ep_two [] []
              H1 H2 H3 H4 eq_refl) as (evb' & Hw & Hl & _).
  exists evb'. split; [exact Hw | exact Hl].
Defined.

(** ** Creating and destroying: what the process holds *)

Section ResourceFacts.
Import Resources.

Lemma close_open fd o : close_fd fd (open_fd fd o) = o.
Proof.
  destruct o as [fds hb mb]. unfold close_fd, open_fd. cbn.
  rewrite Z.eqb_refl. reflexivity.
Qed.

Lemma free_alloc o : free_block (alloc_block o) = o.
Proof. destruct o; reflexivity. Qed.

Lemma return_borrow o : return_mbuf (borrow_mbuf o) = o.
Proof. destruct o; reflexivity. Qed.

Lemma free_close fd o : free_block (close_fd fd o) = close_fd fd (free_block o).
Proof. destruct o; reflexivity. Qed.

End ResourceFacts.

(** For a size [nevent > 0], as the function asserts, [event_base_create]
    gives a base exactly when [epoll_create], [cc_calloc] and [cc_alloc]
    all succeed, a descriptor 0 counting as a success; the base then has
    the descriptor, the size and the callback it was given and an array of
    [nevent] records.  When it gives [NULL] the process holds what it held
    before: the descriptor is closed and the array freed on the way out.
    [event_base_destroy] on the result, [NULL] or a base whose descriptor
    is not 0 (it asserts [ep > 0]), gives back all that the creation
    took. *)
Lemma event_base_create_destroy :
  forall (U : Type) (n : Z) (cb0 : option (event_cb_t U)) (ep0 : Z)
         (calloc_ok alloc_ok : bool) (o : Resources.os),
    0 < n ->
    let r := EventBase.event_base_create n cb0 ep0 calloc_ok alloc_ok o in
    (fst r <> None <-> 0 <= ep0 /\ calloc_ok = true /\ alloc_ok = true)
    /\ (fst r = None -> snd r = o)
    /\ (forall e, fst r = Some e ->
          ep e = ep0 /\ nevent e = n /\ cb e = cb0
          /\ length (event e) = Z.to_nat n
          /\ Resources.open_fds (snd r) = ep0 :: Resources.open_fds o
          /\ Resources.heap_blocks (snd r)
             = S (S (Resources.heap_blocks o)))
    /\ (ep0 <> 0 -> EventBase.event_base_destroy (fst r) (snd r) = o).
Proof.
  intros U n cb0 ep0 calloc_ok alloc_ok o _. cbv zeta.
  unfold EventBase.event_base_create.
  destruct (Z.ltb_spec ep0 0) as [Hneg|Hpos].
  - cbn. repeat split; try reflexivity; try discriminate; try tauto; try lia.
  - destruct calloc_ok; cbn [negb].
    + destruct alloc_ok; cbn [negb fst snd].
      * split; [split; [tauto | discriminate]|].
        split; [discriminate|]. split.
        -- intros e He. inversion He; subst. cbn.
           rewrite repeat_length. repeat split; reflexivity.
        -- intros _. unfold EventBase.event_base_destroy. cbn [ep].
           rewrite free_alloc, free_close, free_alloc, close_open. reflexivity.
      * rewrite free_alloc, close_open.
        split; [split; [congruence | intros (_ & _ & H); discriminate H]|].
        split; [reflexivity|]. split; [discriminate | reflexivity].
    + cbn [fst snd]. rewrite close_open.
      split; [split; [congruence | intros (_ & H & _); discriminate H]|].
      split; [reflexivity|]. split; [discriminate | reflexivity].
Qed.

Lemma event_base_create_destroy_witness :
  0 < 4
  /\ fst (EventBase.event_base_create 4 (Some log_cb) 3 true true
            (Resources.mk_os [0; 1; 2] 0 0))
     = Some log_evb
  /\ EventBase.event_base_destroy
       (fst (EventBase.event_base_create 4 (Some log_cb) 3 true true
               (Resources.mk_os [0; 1; 2] 0 0)))
       (snd (EventBase.event_base_create 4 (Some log_cb) 3 true true
               (Resources.mk_os [0; 1; 2] 0 0)))
     = Resources.mk_os [0; 1; 2] 0 0.
Proof.
  assert (H1 : 0 < 4) by lia.
  assert (H2 : 3 <> 0) by discriminate.
  split; [exact H1|]. split; [reflexivity|].
  exact (proj2 (proj2 (proj2
           (event_base_create_destroy (list (Z * Z))%type 4 (Some log_cb) 3
              true true (Resources.mk_os [0; 1; 2] 0 0) H1))) H2).
Defined.

(** [stream_create] gives a stream exactly when [cc_alloc] and both calls
    of [mbuf_borrow] succeed, and then assigns [rbuf] and [wbuf] and
    nothing else: [owner], [type], [channel] and [data] hold what the block
    held.  When it gives [NULL] the process holds what it held before: the
    buffer already borrowed is returned and the block freed.  After a
    creation, [stream_destroy] on the stream as it has been filled in
    since, with [data] back to [NULL] as it asserts, calls the [close]
    handler once, on the channel, and gives back all that the creation
    took. *)
Lemma stream_create_destroy :
  forall (U : Type) (close : conn -> U -> U) (u : U) (junk : stream)
         (alloc_ok : bool) (rb wb : option mbuf) (o : Resources.os),
    let r := StreamLife.stream_create junk alloc_ok rb wb o in
    (fst r <> None <-> alloc_ok = true /\ rb <> None /\ wb <> None)
    /\ (fst r = None -> snd r = o)
    /\ (forall s, fst r = Some s ->
          Some (rbuf s) = rb /\ Some (wbuf s) = wb
          /\ owner s = owner junk /\ Stream.type s = Stream.type junk
          /\ channel s = channel junk /\ Stream.data s = Stream.data junk
          /\ Resources.mbufs_out (snd r) = S (S (Resources.mbufs_out o))
          /\ Resources.heap_blocks (snd r) = S (Resources.heap_blocks o)
          /\ (forall s2 : stream,
                 Stream.data s2 = 0 ->
                 StreamLife.stream_destroy close s2 u (snd r)
                 = (close (channel s2) u, o))).
Proof.
  intros U close u junk alloc_ok rb wb o. cbv zeta.
  unfold StreamLife.stream_create.
  destruct alloc_ok; cbn [negb].
  - destruct rb as [rb|]; [destruct wb as [wb|]|]; cbn [fst snd].
    + split; [split; [intros _; repeat split; discriminate | discriminate]|].
      split; [discriminate|].
      intros s Hs. inversion Hs; subst.
      unfold StreamLife.stream_destroy.
      rewrite !return_borrow, free_alloc. cbn. repeat split.
    + rewrite return_borrow, free_alloc.
      split; [split; [congruence | intros (_ & _ & H); congruence]|].
      split; [reflexivity | discriminate].
    + rewrite free_alloc.
      split; [split; [congruence | intros (_ & H & _); congruence]|].
      split; [reflexivity | discriminate].
  - cbn [fst snd].
    split; [split; [congruence | intros (H & _); discriminate H]|].
    split; [reflexivity | discriminate].
Qed.

(** ** Options: setting one option *)

Section SetFacts.
Local Open Scope nat_scope.

Lemma same_decl_refl o : same_decl o o.
Proof. repeat split. Qed.

Lemma same_decl_trans a b c : same_decl a b -> same_decl b c -> same_decl a c.
Proof.
  unfold same_decl. intros (H1 & H2 & H3 & H4) (K1 & K2 & K3 & K4).
  repeat split; congruence.
Qed.

Lemma same_decl_store o v : same_decl o (store o v).
Proof. repeat split. Qed.

(** [option_set] on a pointer that is not [NULL] returns, with what the
    parser of the option's type gives. *)
Lemma option_set_ptr opt a s :
  option_set opt (ptr a s) = Some (set_to opt a s).
Proof. unfold option_set, set_to. destruct (Opt.type opt); reflexivity. Qed.

(** It gives back the option as it was, or the option set, with a value
    of its type: for a string option the address it was given. *)
Lemma set_to_cases opt a s :
  set_to opt a s = (CC_ERROR, opt)
  \/ exists w, set_to opt a s = (CC_OK, store opt w)
               /\ match Opt.type opt, w with
                  | OPTION_TYPE_BOOL, vbool _ => True
                  | OPTION_TYPE_UINT, vuint _ => True
                  | OPTION_TYPE_STR, vstr p => p = Some a
                  | _, _ => False
                  end.
Proof.
  unfold set_to, _option_parse_bool, _option_parse_uint, _option_parse_str.
  destruct (Opt.type opt) eqn:Ht.
  - match goal with |- context [if ?b then _ else _] => destruct b end;
      [right; eexists; split; [reflexivity | exact I]|].
    match goal with |- context [if ?b then _ else _] => destruct b end;
      [right; eexists; split; [reflexivity | exact I] | left; reflexivity].
  - destruct (strtoumax s) as [x e].
    destruct (x =? UINTMAX_MAX)%Z; [left; reflexivity|].
    destruct (e <? strlen s); [left; reflexivity|].
    right; eexists; split; [reflexivity | exact I].
  - right. exists (vstr (Some a)).
    split; [unfold store; rewrite Ht; reflexivity | reflexivity].
Qed.

Lemma strlen_firstn v n : strlen v = n -> firstn n v = chars v.
Proof. intros <-. reflexivity. Qed.

Lemma chars_strlen v (s : list ascii) : chars v = s -> strlen v = length s.
Proof. intros <-. symmetry. apply chars_length. Qed.

(** The two tests of [_option_parse_bool]. *)
Lemma bool_test v (n : nat) (s : list ascii) :
  length s = n ->
  (strlen v =? n) && (if list_eq_dec ascii_dec (firstn n v) s
                      then true else false) = true
  <-> chars v = s.
Proof.
  intros Hn. split.
  - intros H. apply andb_true_iff in H. destruct H as [H1 H2].
    apply Nat.eqb_eq in H1. rewrite (strlen_firstn v n H1) in H2.
    destruct (list_eq_dec ascii_dec (chars v) s); [assumption|discriminate].
  - intros H. pose proof (chars_strlen v s H) as Hl. rewrite Hn in Hl.
    rewrite (strlen_firstn v n Hl), H, Hl, Nat.eqb_refl.
    destruct (list_eq_dec ascii_dec s s); [reflexivity | contradiction].
Qed.

End SetFacts.

(** Given a string (a [val_str] that is not [NULL]), [option_set] returns,
    with [CC_OK] or [CC_ERROR].  It never changes the name, the type, the
    default or the description of the option and never clears [set].  On
    [CC_ERROR] the option is exactly as it was; on [CC_OK] it is set and
    the member of [val] that was written is the one of its type, which for
    a string option is the pointer given, not a copy of the string. *)
Lemma option_set_frame :
  forall (opt : cc_option) (a : Z) (s : list ascii),
  exists r,
    option_set opt (ptr a s) = Some r
    /\ same_decl opt (snd r)
    /\ keeps_set opt (snd r)
    /\ (fst r = CC_OK \/ fst r = CC_ERROR)
    /\ (fst r = CC_ERROR -> snd r = opt)
    /\ (fst r = CC_OK ->
        Opt.set (snd r) = true
        /\ match Opt.type opt, val (snd r) with
           | OPTION_TYPE_BOOL, vbool _ => True
           | OPTION_TYPE_UINT, vuint _ => True
           | OPTION_TYPE_STR, vstr p => p = Some a
           | _, _ => False
           end).
Proof.
  intros opt a s. exists (set_to opt a s).
  split; [apply option_set_ptr|].
  destruct (set_to_cases opt a s) as [E|(w & E & Hw)]; rewrite E;
    cbn [fst snd].
  - split; [apply same_decl_refl|]. split; [intros H; exact H|].
    split; [right; reflexivity|]. split; [reflexivity|].
    unfold CC_ERROR, CC_OK. discriminate.
  - split; [apply same_decl_store|]. split; [intros _; reflexivity|].
    split; [left; reflexivity|].
    split; [unfold CC_ERROR, CC_OK; discriminate|].
    intros _. split; [reflexivity | exact Hw].
Qed.

(** An option of type [OPTION_TYPE_BOOL] accepts the strings [yes] and
    [no] and nothing else: no other spelling, no other case, no surrounding
    white space.  For [yes] the option then has [true] in [val.vbool], for
    [no] it has [false], in both cases with [set] true and the rest as it
    was; for any other string the option is as it was. *)
Lemma option_set_bool_exact :
  forall (opt : cc_option) (a : Z) (val_str : list ascii),
    Opt.type opt = OPTION_TYPE_BOOL ->
    exists r,
      option_set opt (ptr a val_str) = Some r
      /\ (fst r = CC_OK
          <-> chars val_str = cstr "yes" \/ chars val_str = cstr "no")
      /\ (chars val_str = cstr "yes" ->
          fst r = CC_OK /\ val (snd r) = vbool true
          /\ Opt.set (snd r) = true /\ same_decl opt (snd r))
      /\ (chars val_str = cstr "no" ->
          fst r = CC_OK /\ val (snd r) = vbool false
          /\ Opt.set (snd r) = true /\ same_decl opt (snd r))
      /\ (chars val_str <> cstr "yes" -> chars val_str <> cstr "no" ->
          r = (CC_ERROR, opt)).
Proof.
  intros opt a v Ht. exists (set_to opt a v).
  split; [apply option_set_ptr|].
  unfold set_to, _option_parse_bool. rewrite Ht.
  pose proof (bool_test v 3 (cstr "yes") eq_refl) as Hyes.
  pose proof (bool_test v 2 (cstr "no") eq_refl) as Hno.
  destruct ((strlen v =? 3)%nat
            && (if list_eq_dec ascii_dec (firstn 3 v) (cstr "yes")
                then true else false)) eqn:E1.
  - assert (Hy : chars v = cstr "yes") by (apply Hyes; reflexivity).
    cbn [fst snd].
    split; [split; [intros _; left; exact Hy | reflexivity]|].
    split; [intros _; repeat split|]. split; [|intros H; contradiction].
    intros Hn. rewrite Hy in Hn. discriminate Hn.
  - assert (Hy : chars v <> cstr "yes")
      by (intros H; apply Hyes in H; discriminate H).
    destruct ((strlen v =? 2)%nat
              && (if list_eq_dec ascii_dec (firstn 2 v) (cstr "no")
                  then true else false)) eqn:E2.
    + assert (Hn : chars v = cstr "no") by (apply Hno; reflexivity).
      cbn [fst snd].
      split; [split; [intros _; right; exact Hn | reflexivity]|].
      split; [intros H; contradiction|].
      split; [intros _; repeat split|]. intros _ H; contradiction.
    + assert (Hn : chars v <> cstr "no")
        by (intros H; apply Hno in H; discriminate H).
      cbn [fst snd]. split; [split|].
      * unfold CC_ERROR, CC_OK. discriminate.
      * intros [H|H]; contradiction.
      * split; [intros H; contradiction|].
        split; [intros H; contradiction | reflexivity].
Qed.

(** The statement above on [no], which is stored as [false] over the
    [true] that the option held, and on [Yes], which is refused. *)
Lemma option_set_bool_exact_witness :
  Opt.type (store (hd backlog_opt test_setting) (vbool true))
  = OPTION_TYPE_BOOL
  /\ chars (cstr "no") = cstr "no"
  /\ chars (cstr "Yes") <> cstr "yes"
  /\ chars (cstr "Yes") <> cstr "no"
  /\ (exists r,
        option_set (store (hd backlog_opt test_setting) (vbool true))
                   (ptr a_valbuf (cstr "no")) = Some r
        /\ fst r = CC_OK /\ val (snd r) = vbool false
        /\ Opt.set (snd r) = true)
  /\ option_set (store (hd backlog_opt test_setting) (vbool true))
                (ptr a_valbuf (cstr "Yes"))
     = Some (CC_ERROR, store (hd backlog_opt test_setting) (vbool true)).
Proof.
  assert (H1 : Opt.type (store (hd backlog_opt test_setting) (vbool true))
               = OPTION_TYPE_BOOL) by reflexivity.
  assert (H2 : chars (cstr "no") = cstr "no") by reflexivity.
  assert (H3 : chars (cstr "Yes") <> cstr "yes") by discriminate.
  assert (H4 : chars (cstr "Yes") <> cstr "no") by discriminate.
  split; [exact H1|]. split; [exact H2|]. split; [exact H3|].
  split; [exact H4|]. split.
  - destruct (option_set_bool_exact _ a_valbuf (cstr "no") H1)
      as (r & Hr & _ & _ & Hno & _).
    destruct (Hno H2) as (Hs & Hv & Hset & _).
    exists r. repeat split; assumption.
  - destruct (option_set_bool_exact _ a_valbuf (cstr "Yes") H1)
      as (r & Hr & _ & _ & _ & Hbad).
    rewrite Hr, (Hbad H3 H4). reflexivity.
Defined.

(** ** Options: loading defaults and files *)

Section LoadFacts.
Local Open Scope nat_scope.

Lemma set_to_pair opt a s :
  set_to opt a s = (fst (set_to opt a s), snd (set_to opt a s)).
Proof. destruct (set_to opt a s); reflexivity. Qed.

Lemma set_to_decl opt a s : same_decl opt (snd (set_to opt a s)).
Proof.
  destruct (set_to_cases opt a s) as [E|(w & E & _)]; rewrite E;
    [apply same_decl_refl | apply same_decl_store].
Qed.

Lemma set_to_keeps opt a s : keeps_set opt (snd (set_to opt a s)).
Proof.
  destruct (set_to_cases opt a s) as [E|(w & E & _)]; rewrite E;
    [intros H; exact H | intros _; reflexivity].
Qed.

Lemma set_to_status opt a s :
  fst (set_to opt a s) = CC_OK \/ fst (set_to opt a s) = CC_ERROR.
Proof.
  destruct (set_to_cases opt a s) as [E|(w & E & _)]; rewrite E;
    [right | left]; reflexivity.
Qed.

Lemma set_to_error opt a s :
  fst (set_to opt a s) <> CC_OK -> snd (set_to opt a s) = opt.
Proof.
  destruct (set_to_cases opt a s) as [E|(w & E & _)]; rewrite E;
    cbn [fst snd]; [reflexivity | contradiction].
Qed.

(** What a call leaves in [val]. *)
Lemma set_to_val opt a s :
  val (snd (set_to opt a s)) = val opt
  \/ (Opt.type opt = OPTION_TYPE_STR
      /\ val (snd (set_to opt a s)) = vstr (Some a))
  \/ Opt.type opt <> OPTION_TYPE_STR.
Proof.
  destruct (set_to_cases opt a s) as [E|(w & E & Hw)]; rewrite E;
    cbn [fst snd]; [left; reflexivity|].
  destruct (Opt.type opt) eqn:Ht.
  - right; right. discriminate.
  - right; right. discriminate.
  - right; left. destruct w; try contradiction. subst. split; reflexivity.
Qed.

Lemma set_matching_none namebuf valbuf val options :
  set_matching namebuf valbuf val options = None
  <-> Forall (no_match namebuf) options.
Proof.
  induction options as [|o rest IH]; cbn [set_matching].
  - split; [constructor | reflexivity].
  - destruct (str_eqb namebuf (name o)) eqn:E.
    + rewrite option_set_ptr, set_to_pair. split; [discriminate|].
      intros H. inversion H; subst. unfold no_match in *. congruence.
    + destruct (set_matching namebuf valbuf val rest) as [[st rest']|].
      * split; [discriminate|]. intros H. inversion H; subst.
        apply IH in H3. discriminate H3.
      * split; [|reflexivity]. intros _. constructor; [exact E|].
        apply IH. reflexivity.
Qed.

Lemma set_matching_some namebuf valbuf val options st options' :
  set_matching namebuf valbuf val options = Some (st, options') ->
  exists l1 o l2,
    options = l1 ++ o :: l2
    /\ Forall (no_match namebuf) l1
    /\ str_eqb namebuf (name o) = true
    /\ st = fst (set_to o valbuf val)
    /\ options' = l1 ++ snd (set_to o valbuf val) :: l2.
Proof.
  revert st options'.
  induction options as [|o rest IH]; intros st options' H;
    cbn [set_matching] in H; [discriminate|].
  destruct (str_eqb namebuf (name o)) eqn:E.
  - rewrite option_set_ptr, set_to_pair in H. inversion H; subst.
    exists [], o, rest. repeat split; [constructor | exact E].
  - destruct (set_matching namebuf valbuf val rest) as [[st1 rest']|] eqn:Er;
      [|discriminate].
    inversion H; subst.
    destruct (IH _ _ eq_refl) as (l1 & o1 & l2 & -> & Hl1 & Ho1 & -> & ->).
    exists (o :: l1), o1, l2.
    repeat split; [constructor; assumption | exact Ho1].
Qed.

Lemma set_matching_found namebuf valbuf val l1 o l2 :
  Forall (no_match namebuf) l1 ->
  str_eqb namebuf (name o) = true ->
  set_matching namebuf valbuf val (l1 ++ o :: l2)
  = Some (fst (set_to o valbuf val), l1 ++ snd (set_to o valbuf val) :: l2).
Proof.
  intros Hl1 Ho. induction Hl1 as [|x l1 Hx _ IH]; cbn [set_matching app].
  - rewrite Ho, option_set_ptr, set_to_pair. reflexivity.
  - unfold no_match in Hx. rewrite Hx, IH. reflexivity.
Qed.

Lemma Forall2_refl_decl l : Forall2 same_decl l l.
Proof. induction l; constructor; [apply same_decl_refl | assumption]. Qed.

Lemma Forall2_refl_keeps l : Forall2 keeps_set l l.
Proof. induction l; constructor; [intros H; exact H | assumption]. Qed.

Lemma Forall2_trans_decl l1 :
  forall l2 l3,
    Forall2 same_decl l1 l2 -> Forall2 same_decl l2 l3 ->
    Forall2 same_decl l1 l3.
Proof.
  induction l1 as [|a l1 IH]; intros l2 l3 H12 H23;
    inversion H12; subst; inversion H23; subst; constructor.
  - eapply same_decl_trans; eassumption.
  - eapply IH; eassumption.
Qed.

Lemma Forall2_trans_keeps l1 :
  forall l2 l3,
    Forall2 keeps_set l1 l2 -> Forall2 keeps_set l2 l3 ->
    Forall2 keeps_set l1 l3.
Proof.
  induction l1 as [|a l1 IH]; intros l2 l3 H12 H23;
    inversion H12; subst; inversion H23; subst; constructor.
  - unfold keeps_set in *. auto.
  - eapply IH; eassumption.
Qed.

Lemma set_matching_decl namebuf valbuf val options st options' :
  set_matching namebuf valbuf val options = Some (st, options') ->
  Forall2 same_decl options options' /\ Forall2 keeps_set options options'.
Proof.
  intros H.
  destruct (set_matching_some _ _ _ _ _ _ H)
    as (l1 & o & l2 & -> & _ & _ & _ & ->).
  split; apply Forall2_app; try constructor;
    try apply Forall2_refl_decl; try apply Forall2_refl_keeps;
    [apply set_to_decl | apply set_to_keeps].
Qed.

(** One step of [option_load_file]. *)
Lemma option_load_file_cons valbuf line rest fe options :
  option_load_file valbuf (line :: rest) fe options
  = (if (fst (fst (option_parse line)) =? CC_EEMPTY)%Z
     then option_load_file valbuf rest fe options
     else if negb (fst (fst (option_parse line)) =? CC_OK)%Z
          then (CC_ERROR, options)
          else match set_matching (snd (fst (option_parse line))) valbuf
                                  (snd (option_parse line)) options with
               | None => (CC_ERROR, options)
               | Some (status, options') =>
                   if negb (status =? CC_OK)%Z then (CC_ERROR, options')
                   else option_load_file valbuf rest fe options'
               end).
Proof.
  cbn [option_load_file].
  destruct (option_parse line) as [[st nm] v]. reflexivity.
Qed.

Lemma kept_status line :
  kept line = false <-> fst (fst (option_parse line)) = CC_EEMPTY.
Proof.
  unfold kept, option_parse.
  destruct ((strlen line =? 0) || isspace (char_at line 0)
            || is_hash (char_at line 0)); cbn [negb fst].
  - split; reflexivity.
  - split; [discriminate|].
    destruct (OPTLINE_MAXLEN <? strlen line); [discriminate|].
    destruct (name_loop (S OPTNAME_MAXLEN) line (strlen line) 0 [])
      as [[p nm]|]; [|discriminate].
    destruct (p =? strlen line); [discriminate|].
    destruct (OPTNAME_MAXLEN <? p); [discriminate|].
    match goal with
    | |- context [if ?b then _ else _] => destruct b; [discriminate|]
    end.
    match goal with
    | |- context [if ?b then _ else _] => destruct b; discriminate
    end.
Qed.

(** The status of a load, and the options after it. *)
Lemma option_load_file_result valbuf lines fe :
  forall options,
    (fst (option_load_file valbuf lines fe options) = CC_OK
     \/ fst (option_load_file valbuf lines fe options) = CC_ERROR)
    /\ Forall2 same_decl options
               (snd (option_load_file valbuf lines fe options))
    /\ Forall2 keeps_set options
               (snd (option_load_file valbuf lines fe options))
    /\ (fe <> 0%Z -> fst (option_load_file valbuf lines fe options) = CC_ERROR).
Proof.
  induction lines as [|line rest IH]; intros options.
  - cbn [option_load_file].
    destruct (Z.eqb_spec fe 0); cbn [fst snd];
      (split; [tauto|]);
      (split; [apply Forall2_refl_decl|]);
      (split; [apply Forall2_refl_keeps|]); intros H;
      [contradiction | reflexivity].
  - rewrite option_load_file_cons.
    destruct (fst (fst (option_parse line)) =? CC_EEMPTY)%Z; [apply IH|].
    destruct (negb (fst (fst (option_parse line)) =? CC_OK)%Z).
    + cbn [fst snd]. split; [tauto|].
      split; [apply Forall2_refl_decl|].
      split; [apply Forall2_refl_keeps | reflexivity].
    + destruct (set_matching (snd (fst (option_parse line))) valbuf
                  (snd (option_parse line)) options)
        as [[st options']|] eqn:Em.
      * destruct (set_matching_decl _ _ _ _ _ _ Em) as [Hd Hk].
        destruct (negb (st =? CC_OK)%Z).
        -- cbn [fst snd]. split; [tauto|]. split; [exact Hd|].
           split; [exact Hk | reflexivity].
        -- destruct (IH options') as (H1 & H2 & H3 & H4).
           split; [exact H1|].
           split; [eapply Forall2_trans_decl; eassumption|].
           split; [eapply Forall2_trans_keeps; eassumption | exact H4].
      * cbn [fst snd]. split; [tauto|].
        split; [apply Forall2_refl_decl|].
        split; [apply Forall2_refl_keeps | reflexivity].
Qed.

(** Loading two runs of lines one after the other. *)
Lemma option_load_file_app_eq valbuf l1 l2 fe :
  forall options,
    option_load_file valbuf (l1 ++ l2) fe options
    = (if (fst (option_load_file valbuf l1 0 options) =? CC_OK)%Z
       then option_load_file valbuf l2 fe
              (snd (option_load_file valbuf l1 0 options))
       else option_load_file valbuf l1 0 options).
Proof.
  induction l1 as [|line rest IH]; intros options; [reflexivity|].
  rewrite <- app_comm_cons, !option_load_file_cons.
  destruct (fst (fst (option_parse line)) =? CC_EEMPTY)%Z; [apply IH|].
  destruct (negb (fst (fst (option_parse line)) =? CC_OK)%Z);
    [reflexivity|].
  destruct (set_matching (snd (fst (option_parse line))) valbuf
              (snd (option_parse line)) options) as [[st options']|];
    [|reflexivity].
  destruct (negb (st =? CC_OK)%Z); [reflexivity | apply IH].
Qed.

Lemma str_untouched_refl valbuf l :
  Forall2 (str_untouched_or_valbuf valbuf) l l.
Proof.
  induction l; constructor; [intros _; left; reflexivity | assumption].
Qed.

Lemma str_untouched_trans valbuf l1 :
  forall l2 l3,
    Forall2 same_decl l1 l2 ->
    Forall2 (str_untouched_or_valbuf valbuf) l1 l2 ->
    Forall2 (str_untouched_or_valbuf valbuf) l2 l3 ->
    Forall2 (str_untouched_or_valbuf valbuf) l1 l3.
Proof.
  induction l1 as [|a l1 IH]; intros l2 l3 Hd H12 H23;
    inversion Hd; subst; inversion H12; subst; inversion H23; subst;
    constructor.
  - intros Ht.
    match goal with
    | H : same_decl a ?b |- _ => destruct H as (_ & Hty & _)
    end.
    match goal with
    | H1 : str_untouched_or_valbuf valbuf a ?b,
      H2 : str_untouched_or_valbuf valbuf ?b ?c |- _ =>
        destruct (H1 Ht) as [E1|E1];
        (destruct (H2 ltac:(congruence)) as [E2|E2];
         [rewrite E2; first [left; exact E1 | right; exact E1]
         | right; exact E2])
    end.
  - eapply IH; eassumption.
Qed.

Lemma set_matching_str namebuf valbuf val options st options' :
  set_matching namebuf valbuf val options = Some (st, options') ->
  Forall2 (str_untouched_or_valbuf valbuf) options options'.
Proof.
  intros H.
  destruct (set_matching_some _ _ _ _ _ _ H)
    as (l1 & o & l2 & -> & _ & _ & _ & ->).
  apply Forall2_app; [apply str_untouched_refl|].
  constructor; [|apply str_untouched_refl].
  intros Ht. destruct (set_to_val o valbuf val) as [E|[[_ E]|E]];
    [left; exact E | right; exact E | contradiction].
Qed.

End LoadFacts.

(** The lookup of [option_load_file] sets the first option that has the
    name and no other: the options before it and after it, an option of
    the same name among the latter included, are left as they are; the
    status is that of [option_set] on that option, given the address of
    [valbuf].  It finds nothing exactly when no option has the name. *)
Lemma set_matching_first :
  forall (namebuf : list ascii) (valbuf : Z) (val : list ascii)
         (options : list cc_option),
    (set_matching namebuf valbuf val options = None
     <-> Forall (fun o => str_eqb namebuf (name o) = false) options)
    /\ (forall status options',
           set_matching namebuf valbuf val options = Some (status, options') ->
           exists l1 o l2 r,
             options = l1 ++ o :: l2
             /\ Forall (fun o => str_eqb namebuf (name o) = false) l1
             /\ str_eqb namebuf (name o) = true
             /\ option_set o (ptr valbuf val) = Some r
             /\ status = fst r
             /\ options' = l1 ++ snd r :: l2)
    /\ (forall l1 o l2,
           options = l1 ++ o :: l2 ->
           Forall (fun o => str_eqb namebuf (name o) = false) l1 ->
           str_eqb namebuf (name o) = true ->
           exists r,
             option_set o (ptr valbuf val) = Some r
             /\ set_matching namebuf valbuf val options
                = Some (fst r, l1 ++ snd r :: l2)).
Proof.
  intros namebuf valbuf val options. split; [|split].
  - apply set_matching_none.
  - intros status options' H.
    destruct (set_matching_some _ _ _ _ _ _ H)
      as (l1 & o & l2 & E & Hl1 & Ho & Hs & Ho').
    exists l1, o, l2, (set_to o valbuf val).
    repeat split; try assumption. apply option_set_ptr.
  - intros l1 o l2 -> Hl1 Ho. exists (set_to o valbuf val).
    split; [apply option_set_ptr | apply set_matching_found; assumption].
Qed.

(** [option_load_file] returns [CC_OK] or [CC_ERROR]; it never adds,
    removes or reorders options, never changes the name, the type, the
    default or the description of one, and never clears [set]; and when
    [ferror] reports an error it returns [CC_ERROR] whatever the lines
    were. *)
Lemma option_load_file_preserves :
  forall (valbuf : Z) (lines : list (list ascii)) (fe : Z)
         (options : list cc_option),
    let r := option_load_file valbuf lines fe options in
    (fst r = CC_OK \/ fst r = CC_ERROR)
    /\ length (snd r) = length options
    /\ Forall2 same_decl options (snd r)
    /\ Forall2 keeps_set options (snd r)
    /\ (fe <> 0 -> fst r = CC_ERROR).
Proof.
  intros valbuf lines fe options. cbv zeta.
  destruct (option_load_file_result valbuf lines fe options)
    as (H1 & H2 & H3 & H4).
  split; [exact H1|]. split; [|split; [exact H2|split; [exact H3|exact H4]]].
  symmetry. eapply Forall2_length. exact H2.
Qed.

(** The lines that [option_parse] skips can be taken out of the file:
    loading the lines is loading those whose first character is neither
    white space nor ['#'] and which are not empty. *)
Lemma option_load_file_kept :
  forall (valbuf : Z) (lines : list (list ascii)) (fe : Z)
         (options : list cc_option),
    option_load_file valbuf lines fe options
    = option_load_file valbuf (filter kept lines) fe options.
Proof.
  intros valbuf lines fe. induction lines as [|line rest IH]; intros options;
    [reflexivity|].
  cbn [filter]. destruct (kept line) eqn:Ek.
  - rewrite !option_load_file_cons.
    destruct (fst (fst (option_parse line)) =? CC_EEMPTY)%Z eqn:E.
    + apply Z.eqb_eq, kept_status in E. congruence.
    + destruct (negb (fst (fst (option_parse line)) =? CC_OK)%Z);
        [reflexivity|].
      destruct (set_matching (snd (fst (option_parse line))) valbuf
                  (snd (option_parse line)) options) as [[st options']|];
        [|reflexivity].
      destruct (negb (st =? CC_OK)%Z); [reflexivity | apply IH].
  - rewrite option_load_file_cons.
    apply kept_status in Ek. rewrite Ek, Z.eqb_refl. apply IH.
Qed.

(** Lines are applied in order and the first failure ends the load: the
    status over [l1 ++ l2] is that over [l1] when [l1] fails, the options
    being then as [l1] left them, and else that over [l2] on the options
    that [l1] left; names, [set], types and the values other than string
    pointers are then those of the two loads in a row. *)
Lemma option_load_file_app :
  forall (valbuf : Z) (l1 l2 : list (list ascii)) (fe : Z)
         (options : list cc_option),
    let r1 := option_load_file valbuf l1 0 options in
    let r := option_load_file valbuf (l1 ++ l2) fe options in
    (fst r1 = CC_ERROR -> r = r1)
    /\ (fst r1 = CC_OK ->
        fst r = fst (option_load_file valbuf l2 fe (snd r1))
        /\ map scalars (snd r)
           = map scalars (snd (option_load_file valbuf l2 fe (snd r1)))).
Proof.
  intros valbuf l1 l2 fe options. cbv zeta. rewrite option_load_file_app_eq.
  split; intros H; rewrite H.
  - reflexivity.
  - split; reflexivity.
Qed.

(** The value of a string option after [option_load_file] is the one it
    had or the address of [valbuf]: every string option that a file sets
    holds that one pointer, whatever its line said, and the array it
    points into is gone when [option_load_file] has returned. *)
Lemma option_load_file_string_pointers :
  forall (valbuf : Z) (lines : list (list ascii)) (fe : Z)
         (options : list cc_option),
    Forall2 (fun o o' : cc_option =>
               Opt.type o = OPTION_TYPE_STR ->
               val o' = val o \/ val o' = vstr (Some valbuf))
            options (snd (option_load_file valbuf lines fe options)).
Proof.
  intros valbuf lines fe.
  change (forall options,
             Forall2 (str_untouched_or_valbuf valbuf) options
                     (snd (option_load_file valbuf lines fe options))).
  induction lines as [|line rest IH]; intros options.
  - cbn [option_load_file]. destruct (fe =? 0)%Z; apply str_untouched_refl.
  - rewrite option_load_file_cons.
    destruct (fst (fst (option_parse line)) =? CC_EEMPTY)%Z; [apply IH|].
    destruct (negb (fst (fst (option_parse line)) =? CC_OK)%Z);
      [apply str_untouched_refl|].
    destruct (set_matching (snd (fst (option_parse line))) valbuf
                (snd (option_parse line)) options)
      as [[st options']|] eqn:Em; [|apply str_untouched_refl].
    pose proof (set_matching_str _ _ _ _ _ _ Em) as Hs.
    destruct (set_matching_decl _ _ _ _ _ _ Em) as [Hd _].
    destruct (negb (st =? CC_OK)%Z); [exact Hs|].
    eapply str_untouched_trans; [exact Hd | exact Hs | apply IH].
Qed.

Section DefaultFacts.
Local Open Scope nat_scope.

(** A default that is a string: its address and the string. *)
Lemma has_default_ptr o :
  has_default o -> exists a s, default_val_str o = ptr a s.
Proof.
  unfold has_default. destruct (default_val_str o) as [|a s]; [congruence|].
  intros _. exists a, s. reflexivity.
Qed.

(** Setting an option again with what it was set with changes nothing. *)
Lemma set_to_again opt a s opt' :
  set_to opt a s = (CC_OK, opt') -> set_to opt' a s = (CC_OK, opt').
Proof.
  intros H.
  destruct (set_to_cases opt a s) as [E|(w & E & _)]; rewrite E in H.
  - unfold CC_ERROR, CC_OK in H. discriminate H.
  - inversion H; subst opt'. clear H. revert E.
    unfold set_to, _option_parse_bool, _option_parse_uint,
      _option_parse_str.
    cbn [Opt.type store].
    destruct (Opt.type opt).
    + repeat match goal with
             | |- context [if ?b then _ else _] => destruct b
             end; intros E; inversion E; subst; reflexivity.
    + destruct (strtoumax s) as [x e].
      repeat match goal with
             | |- context [if ?b then _ else _] => destruct b
             end; intros E; inversion E; subst; reflexivity.
    + intros E. cbn [name default_val_str description store] in *. exact E.
Qed.

Lemma with_default_ptr o a s :
  default_val_str o = ptr a s -> with_default o = snd (set_to o a s).
Proof.
  intros E. unfold with_default. rewrite E, option_set_ptr.
  destruct (set_to o a s); reflexivity.
Qed.

Lemma default_ok_ptr o a s :
  default_val_str o = ptr a s ->
  (default_ok o <-> fst (set_to o a s) = CC_OK).
Proof.
  intros E. unfold default_ok. rewrite E, option_set_ptr. split.
  - intros (o' & H). inversion H as [H1]. rewrite H1. reflexivity.
  - intros H. exists (snd (set_to o a s)).
    rewrite (set_to_pair o a s) at 1. rewrite H. reflexivity.
Qed.

Lemma with_default_default o :
  default_val_str (with_default o) = default_val_str o.
Proof.
  unfold with_default.
  destruct (default_val_str o) as [|a s] eqn:E.
  - unfold option_set, _option_parse_str.
    destruct (Opt.type o); exact E.
  - rewrite option_set_ptr.
    destruct (set_to_decl o a s) as (_ & _ & H & _).
    destruct (set_to o a s) as [st o'] eqn:Es. cbn [snd] in H.
    rewrite <- H. exact E.
Qed.

Lemma with_default_again o :
  has_default o -> default_ok o ->
  option_set (with_default o) (default_val_str (with_default o))
  = Some (CC_OK, with_default o).
Proof.
  intros Hd H. destruct (has_default_ptr o Hd) as (a & s & E).
  rewrite with_default_default, E, option_set_ptr.
  rewrite (with_default_ptr o a s E). f_equal.
  apply (set_to_again o). rewrite (set_to_pair o a s) at 1.
  apply (default_ok_ptr o a s E) in H. rewrite H. reflexivity.
Qed.

Lemma with_default_set o :
  has_default o -> default_ok o -> Opt.set (with_default o) = true.
Proof.
  intros Hd H. destruct (has_default_ptr o Hd) as (a & s & E).
  rewrite (with_default_ptr o a s E).
  apply (default_ok_ptr o a s E) in H.
  destruct (set_to_cases o a s) as [E1|(w & E1 & _)]; rewrite E1 in *;
    [discriminate H | reflexivity].
Qed.

Lemma option_load_default_ok options :
  Forall has_default options ->
  Forall default_ok options ->
  option_load_default options = Some (CC_OK, map with_default options).
Proof.
  induction 1 as [|o rest Hd _ IH]; intros Hok; [reflexivity|].
  inversion Hok as [|o0 r0 Ho Hrest]; subst.
  cbn [option_load_default map]. unfold with_default.
  destruct Ho as (o' & Ho). rewrite Ho. cbn. rewrite (IH Hrest).
  reflexivity.
Qed.

Lemma option_load_default_stops l1 :
  forall o l2,
    Forall has_default l1 -> has_default o ->
    Forall default_ok l1 -> ~ default_ok o ->
    option_load_default (l1 ++ o :: l2)
    = Some (CC_ERROR, map with_default l1 ++ o :: l2).
Proof.
  induction l1 as [|x l1 IH]; intros o l2 Hd1 Hd Hl1 Ho.
  - cbn [app map option_load_default].
    destruct (has_default_ptr o Hd) as (a & s & E).
    rewrite E, option_set_ptr.
    assert (Hne : fst (set_to o a s) <> CC_OK)
      by (intros H; apply Ho, (default_ok_ptr o a s E); exact H).
    destruct (set_to_cases o a s) as [E1|(w & E1 & _)]; rewrite E1 in *.
    + reflexivity.
    + contradiction Hne. reflexivity.
  - inversion Hd1; subst. inversion Hl1; subst.
    cbn [app map option_load_default]. unfold with_default at 1.
    match goal with H : default_ok x |- _ => destruct H as (x' & Hx) end.
    rewrite Hx. cbn. rewrite IH by assumption. reflexivity.
Qed.

Lemma default_ok_dec o : has_default o -> default_ok o \/ ~ default_ok o.
Proof.
  intros Hd. destruct (has_default_ptr o Hd) as (a & s & E).
  destruct (set_to_status o a s) as [H|H].
  - left. apply (default_ok_ptr o a s E). exact H.
  - right. intros Hok. apply (default_ok_ptr o a s E) in Hok.
    rewrite H in Hok. unfold CC_ERROR, CC_OK in Hok. discriminate Hok.
Qed.

(** The options up to the first whose default is refused. *)
Lemma first_refused options :
  Forall has_default options ->
  Forall default_ok options
  \/ exists l1 o l2,
       options = l1 ++ o :: l2 /\ Forall default_ok l1 /\ ~ default_ok o.
Proof.
  induction 1 as [|x rest Hd _ IH]; [left; constructor|].
  destruct (default_ok_dec x Hd) as [Hx|Hx].
  - destruct IH as [H|(l1 & o & l2 & -> & Hl1 & Ho)].
    + left. constructor; assumption.
    + right. exists (x :: l1), o, l2.
      repeat split; [constructor; assumption | exact Ho].
  - right. exists [], x, rest. repeat split; [constructor | exact Hx].
Qed.

End DefaultFacts.

(** On options whose default is a string (none is [NULL]),
    [option_load_default] returns; it returns [CC_OK] exactly when every
    option accepts its default, and every option is then set, to its
    default, a second run changing nothing.  Otherwise it returns
    [CC_ERROR] at the first option that refuses its default: the options
    before it carry their defaults, that option and the ones after it are
    as they were. *)
Lemma option_load_default_all :
  forall options : list cc_option,
    Forall has_default options ->
    exists r,
      option_load_default options = Some r
      /\ (fst r = CC_OK <-> Forall default_ok options)
      /\ (fst r = CC_OK \/ fst r = CC_ERROR)
      /\ (fst r = CC_OK ->
          snd r = map with_default options
          /\ Forall (fun o => Opt.set o = true) (snd r)
          /\ option_load_default (snd r) = Some r)
      /\ (forall l1 o l2,
             options = l1 ++ o :: l2 ->
             Forall default_ok l1 -> ~ default_ok o ->
             r = (CC_ERROR, map with_default l1 ++ o :: l2)).
Proof.
  intros options Hdef.
  assert (Hstop : forall l1 o l2,
             options = l1 ++ o :: l2 ->
             Forall default_ok l1 -> ~ default_ok o ->
             option_load_default options
             = Some (CC_ERROR, map with_default l1 ++ o :: l2)).
  { intros l1 o l2 E Hl1 Ho. subst options.
    apply Forall_app in Hdef. destruct Hdef as [Hd1 Hd2].
    inversion Hd2; subst.
    apply option_load_default_stops; assumption. }
  destruct (first_refused options Hdef)
    as [Hall|(l1 & o & l2 & E & Hl1 & Ho)].
  - pose proof (option_load_default_ok options Hdef Hall) as Eok.
    exists (CC_OK, map with_default options).
    split; [exact Eok|]. cbn [fst snd].
    split; [tauto|]. split; [left; reflexivity|]. split.
    + intros _. split; [reflexivity|]. split.
      * apply Forall_forall. intros x Hx. apply in_map_iff in Hx.
        destruct Hx as (y & <- & Hy).
        apply with_default_set;
          [exact (proj1 (Forall_forall _ _) Hdef y Hy)
          | exact (proj1 (Forall_forall _ _) Hall y Hy)].
      * clear Hstop Eok. revert Hall.
        induction Hdef as [|x rest Hx _ IH]; intros Hall; [reflexivity|].
        inversion Hall as [|x0 r0 Hox Horest]; subst.
        cbn [map option_load_default].
        rewrite (with_default_again x Hx Hox). cbn.
        rewrite (IH Horest). reflexivity.
    + intros l1 o l2 E Hl1 Ho. rewrite (Hstop l1 o l2 E Hl1 Ho) in Eok.
      inversion Eok.
  - pose proof (Hstop l1 o l2 E Hl1 Ho) as Eerr.
    exists (CC_ERROR, map with_default l1 ++ o :: l2).
    split; [exact Eerr|]. cbn [fst snd].
    split; [|split; [right; reflexivity|split]].
    + split; [unfold CC_ERROR, CC_OK; discriminate|].
      intros Hall. rewrite E in Hall. apply Forall_app in Hall.
      destruct Hall as [_ Hall]. inversion Hall; subst. contradiction.
    + unfold CC_ERROR, CC_OK. discriminate.
    + intros l1' o' l2' E' Hl1' Ho'.
      pose proof (Hstop l1' o' l2' E' Hl1' Ho') as E2.
      rewrite Eerr in E2. inversion E2. reflexivity.
Qed.

(** The statement above on the three options of the test, which all
    accept their defaults. *)
Lemma option_load_default_all_witness :
  Forall has_default test_setting
  /\ exists r,
       option_load_default test_setting = Some r
       /\ fst r = CC_OK
       /\ map val (snd r) = [vbool true; vstr (Some 0x4a24); vuint 1]
       /\ Forall (fun o => Opt.set o = true) (snd r).
Proof.
  assert (H : Forall has_default test_setting)
    by (repeat constructor; discriminate).
  split; [exact H|].
  destruct (option_load_default_all test_setting H)
    as (r & Hr & _ & _ & Hok & _).
  exists r. split; [exact Hr|].
  assert (E : r = (CC_OK, map with_default test_setting)).
  { vm_compute in Hr. inversion Hr. reflexivity. }
  assert (Hst : fst r = CC_OK) by (rewrite E; reflexivity).
  split; [exact Hst|]. split; [rewrite E; reflexivity|].
  exact (proj1 (proj2 (Hok Hst))).
Defined.

(** ** Options: one line of a file *)

(** A line of the form [name ':' WS* value WS*] is looked up by its name
    and applied to the first option of that name, with the address of
    [valbuf] for [val_str]: when [option_set] accepts the value the load
    goes on with the next line, when it refuses it the load ends with
    [CC_ERROR] and the options as they were, and when no option has the
    name the load ends with [CC_ERROR], the options as they were and the
    rest of the file unread. *)
Lemma option_load_file_line :
  forall (valbuf : Z) (line namebuf val : list ascii)
         (rest : list (list ascii)) (fe : Z) (options : list cc_option),
    option_line line namebuf val ->
    (Forall (no_match namebuf) options ->
     option_load_file valbuf (line :: rest) fe options = (CC_ERROR, options))
    /\ (forall l1 o l2,
           options = l1 ++ o :: l2 ->
           Forall (no_match namebuf) l1 ->
           str_eqb namebuf (name o) = true ->
           exists r,
             option_set o (ptr valbuf val) = Some r
             /\ option_load_file valbuf (line :: rest) fe options
                = (if fst r =? CC_OK
                   then option_load_file valbuf rest fe (l1 ++ snd r :: l2)
                   else (CC_ERROR, options))).
Proof.
  intros valbuf line namebuf val rest fe options Hline.
  apply option_parse_ok in Hline.
  split.
  - intros Hnone. rewrite option_load_file_cons, Hline. cbn [fst snd].
    rewrite (proj2 (set_matching_none namebuf valbuf val options) Hnone).
    reflexivity.
  - intros l1 o l2 -> Hl1 Ho. exists (set_to o valbuf val).
    split; [apply option_set_ptr|].
    rewrite option_load_file_cons, Hline. cbn [fst snd].
    rewrite (set_matching_found namebuf valbuf val l1 o l2 Hl1 Ho).
    destruct (set_to_cases o valbuf val) as [E|(w & E & _)]; rewrite E;
      reflexivity.
Qed.

(** The statement above on the line [string: bar] followed by the line
    [uinteger: 3]: the string option is left with the address of
    [valbuf], and the load has gone on to set [uinteger] to 3. *)
Lemma option_load_file_line_witness :
  option_line (cstr "string: bar" ++ [newline]) (cstr "string") (cstr "bar")
  /\ option_load_file a_valbuf
       [cstr "string: bar" ++ [newline]; cstr "uinteger: 3" ++ [newline]]
       0 test_setting
     = (CC_OK,
        [hd backlog_opt test_setting;
         store (nth 1 test_setting backlog_opt) (vstr (Some a_valbuf));
         store (nth 2 test_setting backlog_opt) (vuint 3)]).
Proof.
  assert (H1 : option_line (cstr "string: bar" ++ [newline])
                           (cstr "string") (cstr "bar"))
    by (apply option_parse_ok; reflexivity).
  split; [exact H1|].
  destruct (proj2 (option_load_file_line a_valbuf _ _ _
                     [cstr "uinteger: 3" ++ [newline]] 0%Z test_setting H1)
              [hd backlog_opt test_setting] (nth 1 test_setting backlog_opt)
              [nth 2 test_setting backlog_opt] eq_refl
              ltac:(repeat constructor) eq_refl)
    as (r & Hr & Hload).
  rewrite Hload. vm_compute in Hr. inversion Hr. reflexivity.
Defined.

(** ** Options: numbers with a sign *)

Section Signed.
Local Open Scope nat_scope.

Lemma decimal_value_lower ds :
  forall acc, (0 <= acc)%Z -> (acc <= decimal_value ds acc)%Z.
Proof.
  induction ds as [|c ds IH]; intros acc Hacc; cbn [decimal_value]; [lia|].
  specialize (IH (acc * 10 + Z.of_nat (nat_of_ascii c - 48))%Z). lia.
Qed.

Lemma decimal_numeral_positive s :
  decimal_numeral s -> (1 <= decimal_value s 0)%Z.
Proof.
  intros (Hall & c & s' & -> & Hnz). cbn [decimal_value].
  inversion Hall as [|c0 l0 Hc _]; subst.
  unfold is_decimal in Hc. apply andb_true_iff in Hc. destruct Hc as [H1 _].
  apply Nat.leb_le in H1.
  pose proof (decimal_value_lower s' (0 * 10 + Z.of_nat (nat_of_ascii c - 48))%Z).
  lia.
Qed.

(** [strtoumax] on a decimal numeral behind a minus sign. *)
Lemma strtoumax_negated s :
  decimal_numeral s ->
  strtoumax ("-"%char :: s)
  = ((if (UINTMAX_MAX <? decimal_value s 0)%Z then UINTMAX_MAX
      else ((SIZE_MOD - decimal_value s 0) mod SIZE_MOD)%Z),
     S (length s))
  /\ strlen ("-"%char :: s) = S (length s).
Proof.
  intros (Hall & c & s' & -> & Hnz).
  split; [|change (strlen ("-"%char :: c :: s'))
             with (S (strlen (c :: s')));
           rewrite (decimal_strlen _ Hall); reflexivity].
  pose proof (span_digits_decimal (c :: s') 0%Z Hall) as Hspan.
  apply Nat.eqb_neq in Hnz.
  unfold strtoumax.
  change (span_space ("-"%char :: c :: s')) with 0.
  cbn [skipn].
  change (nat_of_ascii "-" =? 45) with true. cbn iota. cbn [skipn].
  assert (Hbase :
            match c :: s' with
            | z :: x :: h :: _ =>
                if (nat_of_ascii z =? 48)
                   && ((nat_of_ascii x =? 120) || (nat_of_ascii x =? 88))
                   && is_digit_in 16 h
                then (16%Z, 2)
                else if nat_of_ascii z =? 48 then (8%Z, 0) else (10%Z, 0)
            | [z] | [z; _] =>
                if nat_of_ascii z =? 48 then (8%Z, 0) else (10%Z, 0)
            | [] => (10%Z, 0)
            end = (10%Z, 0)).
  { destruct s' as [|x [|h t]]; rewrite Hnz; reflexivity. }
  rewrite Hbase. cbn [skipn]. rewrite Hspan. cbn [length Nat.eqb Nat.add].
  destruct (UINTMAX_MAX <? decimal_value (c :: s') 0)%Z; reflexivity.
Qed.

End Signed.

(** An option of type [OPTION_TYPE_UINT] accepts a decimal numeral behind
    a minus sign: [strtoumax] negates in the unsigned type, so that for
    [-v] the option ends with [2^64 - v] in [val.vuint] and [set] true,
    the rest as it was.  The exceptions are [-1], which comes out as
    [UINTMAX_MAX] and is refused as an overflow, and the numerals above
    [UINTMAX_MAX]: the option is then as it was. *)
Lemma option_set_negated_numeral :
  forall (opt : cc_option) (a : Z) (s : list ascii),
    Opt.type opt = OPTION_TYPE_UINT ->
    decimal_numeral s ->
    exists r,
      option_set opt (ptr a ("-"%char :: s)) = Some r
      /\ (decimal_value s 0 = 1 \/ UINTMAX_MAX < decimal_value s 0 ->
          r = (CC_ERROR, opt))
      /\ (1 < decimal_value s 0 <= UINTMAX_MAX ->
          fst r = CC_OK
          /\ val (snd r) = vuint (SIZE_MOD - decimal_value s 0)
          /\ Opt.set (snd r) = true
          /\ same_decl opt (snd r)).
Proof.
  intros opt a s Ht Hnum. exists (set_to opt a ("-"%char :: s)).
  split; [apply option_set_ptr|].
  destruct (strtoumax_negated s Hnum) as [E Elen].
  pose proof (decimal_numeral_positive s Hnum) as Hpos.
  unfold set_to, _option_parse_uint. rewrite Ht, E, Elen.
  rewrite Nat.ltb_irrefl.
  destruct (Z.ltb_spec UINTMAX_MAX (decimal_value s 0)) as [Hbig|Hfit].
  - rewrite Z.eqb_refl. split; [reflexivity | lia].
  - assert (Hmod : (SIZE_MOD - decimal_value s 0) mod SIZE_MOD
                   = SIZE_MOD - decimal_value s 0).
    { apply Z.mod_small. unfold SIZE_MOD, UINTMAX_MAX in *. lia. }
    rewrite Hmod.
    destruct (Z.eqb_spec (SIZE_MOD - decimal_value s 0) UINTMAX_MAX)
      as [H1|H1].
    + split; [reflexivity|]. unfold SIZE_MOD, UINTMAX_MAX in *. lia.
    + split.
      * unfold SIZE_MOD, UINTMAX_MAX in *. lia.
      * intros _. cbn [fst snd]. repeat split.
Qed.

Lemma option_set_negated_numeral_witness :
  Opt.type backlog_opt = OPTION_TYPE_UINT
  /\ decimal_numeral (cstr "2")
  /\ 1 < decimal_value (cstr "2") 0 <= UINTMAX_MAX
  /\ exists r,
       option_set backlog_opt (ptr a_valbuf (cstr "-2")) = Some r
       /\ fst r = CC_OK
       /\ val (snd r) = vuint 18446744073709551614
       /\ Opt.set (snd r) = true.
Proof.
  assert (H1 : Opt.type backlog_opt = OPTION_TYPE_UINT) by reflexivity.
  assert (H2 : decimal_numeral (cstr "2")).
  { split; [repeat constructor|].
    exists "2"%char, []. split; [reflexivity | discriminate]. }
  assert (H3 : 1 < decimal_value (cstr "2") 0 <= UINTMAX_MAX)
    by (vm_compute; split; [reflexivity | discriminate]).
  split; [exact H1|]. split; [exact H2|]. split; [exact H3|].
  destruct (option_set_negated_numeral backlog_opt a_valbuf (cstr "2") H1 H2)
    as (r & Hr & _ & Hok).
  destruct (Hok H3) as (Hs & Hv & Hset & _).
  exists r. repeat split; assumption.
Defined.
